(** * Arena Tarot: the animation and reading logic of [script.js]

  A shallow embedding of the tween ticks, the requestAnimationFrame
  driver, the busy flag, the cull selection, the content fetch retry and
  the card flip of [src/script.js], with the properties the specification
  states about them.

  Numbers.  JavaScript numbers are IEEE doubles.  The tweens are modelled
  over exact rationals ([Q]); the label fade-in, which calls [Math.sin],
  over the reals ([R]); the non-finite values ([NaN], [Infinity]) that a
  division by zero produces are modelled in [JsNum].  Where a property
  depends on rounding (the row of the cards, the last tick of a
  fly-away), the arithmetic is that of binary64 floats ([Double]).

  Time.  [Date.now()] is a parameter of every tick ([now]); a
  [requestAnimationFrame] callback runs at the next frame, and a
  [setTimeout] callback runs when its delay has elapsed. *)

From Stdlib Require Import Floats.PrimFloat.
From Stdlib Require Import QArith Qminmax Qround ZArith List Bool Lia Lra Psatz.
From Stdlib Require Import String Permutation Reals.
Import ListNotations.

#[global] Set Warnings "-inexact-float".

(* ================================================================== *)
(** * Part I: the program *)
(* ================================================================== *)

(** ** Easing functions, as the ticks of [script.js] inline them *)

Module Easing.
Local Open Scope Q_scope.

(** [1 - Math.pow(1 - progress, 3)]
    (updateCardPosition, appearAnimation, moveToPosition). *)
Definition easeOutCubic (progress : Q) : Q := 1 - (1 - progress) ^ 3.

(** [1 - Math.pow(1 - progress, 2)] (updateScale, updateFlip). *)
Definition easeOutQuad (progress : Q) : Q := 1 - (1 - progress) ^ 2.

(** [progress < 0.5 ? 2 * progress * progress
                    : 1 - Math.pow(-2 * progress + 2, 2) / 2]
    (updateCardRotation). *)
Definition easeInOutQuad (progress : Q) : Q :=
  if Qlt_le_dec progress (1 # 2)
  then 2 * progress * progress
  else 1 - (-2 * progress + 2) ^ 2 / 2.

(** [progress < 0.5 ? 4 * progress * progress * progress
                    : 1 - Math.pow(-2 * progress + 2, 3) / 2]
    (flyAway of the cosmic shuffle). *)
Definition easeInOutCubic (progress : Q) : Q :=
  if Qlt_le_dec progress (1 # 2)
  then 4 * progress * progress * progress
  else 1 - (-2 * progress + 2) ^ 3 / 2.

(** [const easedProgress = progress] (flyAway of the reset). *)
Definition linear (progress : Q) : Q := progress.
End Easing.

(** ** The tween tick *)

Module Tween.
Import Easing.
Local Open Scope Q_scope.

Record vec3 : Set := mkVec3 { x : Q; y : Q; z : Q }.

(** The easings the ticks use. *)
Inductive easing : Set :=
| EaseOutCubic | EaseOutQuad | EaseInOutQuad | EaseInOutCubic | Linear.

Definition ease (e : easing) : Q -> Q :=
  match e with
  | EaseOutCubic => easeOutCubic
  | EaseOutQuad => easeOutQuad
  | EaseInOutQuad => easeInOutQuad
  | EaseInOutCubic => easeInOutCubic
  | Linear => linear
  end.

(** [Math.min(elapsed / duration, 1)]. *)
Definition progressOf (elapsed duration : Q) : Q :=
  Qmin (elapsed / duration) 1.

(** [start + (target - start) * easedProgress]. *)
Definition interpolate (start target easedProgress : Q) : Q :=
  start + (target - start) * easedProgress.

(** The shape every tick of the file shares, with its local constants
    (duration, easing) as parameters. *)
Definition valueAt (e : easing) (start target duration elapsed : Q) : Q :=
  let progress := progressOf elapsed duration in
  let easedProgress := ease e progress in
  interpolate start target easedProgress.

(** [updateScale] of [gsapLikeScale]: what it writes to [object.scale]
    when [Date.now() - startTime = elapsed]. *)
Definition updateScale (startScale targetScale : vec3) (elapsed : Q) : vec3 :=
  let duration := 200 in
  let progress := Qmin (elapsed / duration) 1 in
  let easedProgress := 1 - (1 - progress) ^ 2 in
  mkVec3 (x startScale + (x targetScale - x startScale) * easedProgress)
         (y startScale + (y targetScale - y startScale) * easedProgress)
         (z startScale + (z targetScale - z startScale) * easedProgress).

(** [updateCardPosition] of [animateCardsEntry]: what it writes to
    [cardGroup.position.y]. *)
Definition updateCardPosition (startY : Q) (elapsed : Q) : Q :=
  let targetY := 0 in
  let duration := 600 in
  let progress := Qmin (elapsed / duration) 1 in
  let easedProgress := 1 - (1 - progress) ^ 3 in
  startY + (targetY - startY) * easedProgress.

(** [updateCardRotation] of [animateCardFlip]: what it writes to
    [cardGroup.rotation.x]. *)
Definition updateCardRotation (startRotX : Q) (elapsed : Q) : Q :=
  let targetRotX := 0 in
  let duration := 800 in
  let progress := Qmin (elapsed / duration) 1 in
  let easedProgress :=
    if Qlt_le_dec progress (1 # 2)
    then 2 * progress * progress
    else 1 - (-2 * progress + 2) ^ 2 / 2 in
  startRotX + (targetRotX - startRotX) * easedProgress.

(** *** The driver

    Every tween of the file is a closure of this shape:
<<
    function update() {
        const elapsed = Date.now() - startTime;
        const progress = Math.min(elapsed / duration, 1);
        ... write start + (target - start) * easedProgress ...
        if (progress < 1) { requestAnimationFrame(update); }
        else { ... completion ... }
    }
    update();
>>
    The calls it makes are recorded, oldest first. *)

Inductive call : Set :=
| OnUpdate (value : Q)
| OnComplete.

Record tween : Set := mkTween
  { tEasing : easing; tStart : Q; tTarget : Q;
    tDuration : Q; tStartTime : Q }.

Record driver : Set := mkDriver
  { queued : bool;          (* a requestAnimationFrame callback is pending *)
    calls : list call }.

Definition requestAnimationFrame (d : driver) : driver :=
  mkDriver true (calls d).

Definition emit (c : call) (d : driver) : driver :=
  mkDriver (queued d) (calls d ++ [c]).

(** One run of the closure, [Date.now()] being [now]. *)
Definition update (tw : tween) (now : Q) (d : driver) : driver :=
  let elapsed := now - tStartTime tw in
  let progress := Qmin (elapsed / tDuration tw) 1 in
  let easedProgress := ease (tEasing tw) progress in
  let d := emit (OnUpdate (tStart tw + (tTarget tw - tStart tw) * easedProgress)) d in
  if Qlt_le_dec progress 1
  then requestAnimationFrame d
  else emit OnComplete d.

(** A display frame at time [now]: the browser takes the pending
    callback, if there is one, and runs it. *)
Definition frame (tw : tween) (d : driver) (now : Q) : driver :=
  if queued d then update tw now (mkDriver false (calls d)) else d.

(** The direct call [update()] at [firstCall], then the frames. *)
Definition run (tw : tween) (firstCall : Q) (frames : list Q) : driver :=
  fold_left (frame tw) frames (update tw firstCall (mkDriver false [])).

Definition isComplete (c : call) : bool :=
  match c with OnComplete => true | OnUpdate _ => false end.

Definition completions (d : driver) : nat :=
  List.length (filter isComplete (calls d)).

Definition updates (d : driver) : list Q :=
  flat_map (fun c => match c with OnUpdate v => [v] | OnComplete => [] end)
           (calls d).

(** The test of the tick, [progress < 1], fails at [now]: progress has
    reached 1. *)
Definition reached (tw : tween) (now : Q) : Prop :=
1 <= progressOf (now - tStartTime tw) (tDuration tw).

(** The two states of a driver after the ticks at [seen]: still
    scheduled and not completed, or completed once and idle. *)
Inductive driver_inv (tw : tween) (seen : list Q) (d : driver) : Prop :=
| Running :
    queued d = true -> completions d = 0%nat ->
    Forall (fun now => ~ reached tw now) seen -> driver_inv tw seen d
| Finished :
    queued d = false -> completions d = 1%nat ->
    Exists (reached tw) seen -> driver_inv tw seen d.
End Tween.

(** ** JavaScript numbers with their non-finite values

  What [elapsed / duration] is when [duration] is zero.  The finite
  values are exact rationals; zero is the positive zero. *)

Module JsNum.
Local Open Scope Q_scope.

Inductive num : Set :=
| Fin (q : Q)
| PosInf
| NegInf
| NaN.

Definition ofSign (c : comparison) : num :=
  match c with Eq => NaN | Gt => PosInf | Lt => NegInf end.

Definition neg (a : num) : num :=
  match a with
  | Fin q => Fin (- q)
  | PosInf => NegInf
  | NegInf => PosInf
  | NaN => NaN
  end.

Definition add (a b : num) : num :=
  match a, b with
  | NaN, _ | _, NaN => NaN
  | Fin p, Fin q => Fin (p + q)
  | PosInf, NegInf | NegInf, PosInf => NaN
  | PosInf, _ | _, PosInf => PosInf
  | NegInf, _ | _, NegInf => NegInf
  end.

Definition sub (a b : num) : num := add a (neg b).

Definition mul (a b : num) : num :=
  match a, b with
  | NaN, _ | _, NaN => NaN
  | Fin p, Fin q => Fin (p * q)
  | Fin p, PosInf | PosInf, Fin p => ofSign (p ?= 0)
  | Fin p, NegInf | NegInf, Fin p => neg (ofSign (p ?= 0))
  | PosInf, PosInf | NegInf, NegInf => PosInf
  | PosInf, NegInf | NegInf, PosInf => NegInf
  end.

Definition div (a b : num) : num :=
  match a, b with
  | NaN, _ | _, NaN => NaN
  | Fin p, Fin q =>
      match q ?= 0 with
      | Eq => ofSign (p ?= 0)            (* 0/0 = NaN, p/0 = +-Infinity *)
      | _ => Fin (p / q)
      end
  | Fin _, _ => Fin 0
  | PosInf, Fin q => if Qle_bool 0 q then PosInf else NegInf
  | NegInf, Fin q => if Qle_bool 0 q then NegInf else PosInf
  | _, _ => NaN
  end.

(** [a < b]; false when either side is NaN. *)
Definition lt (a b : num) : bool :=
  match a, b with
  | NaN, _ | _, NaN => false
  | Fin p, Fin q => negb (Qle_bool q p)
  | NegInf, NegInf | PosInf, _ => false
  | NegInf, _ | Fin _, PosInf => true
  | Fin _, NegInf => false
  end.

(** [Math.min(a, b)]; NaN when either argument is NaN. *)
Definition min (a b : num) : num :=
  match a, b with
  | NaN, _ | _, NaN => NaN
  | _, _ => if lt b a then b else a
  end.

(** [Math.pow(a, n)] for the exponents 2 and 3 of the file. *)
Definition pow (a : num) (n : nat) : num :=
  Nat.iter n (mul a) (Fin 1).


(** [Math.min(elapsed / duration, 1)] (updateCardPosition, lines 255-256;
    updateLabelOpacity, lines 2093-2094; and every other tick). *)
Definition progressOf (elapsed duration : num) : num :=
  min (div elapsed duration) (Fin 1).

Inductive call : Set :=
| OnUpdate (value : num)
| OnComplete
| RequestFrame.

(** [updateCardPosition] (lines 254-268): the calls of one run, in
    order.  The completion branch is the [else] of [if (progress < 1)]. *)
Definition updateCardPosition (startY elapsed : num) : list call :=
  let targetY := Fin 0 in
  let duration := Fin 600 in
  let progress := min (div elapsed duration) (Fin 1) in
  let easedProgress := sub (Fin 1) (pow (sub (Fin 1) progress) 3) in
  let value := add startY (mul (sub targetY startY) easedProgress) in
  OnUpdate value :: (if lt progress (Fin 1) then [RequestFrame] else [OnComplete]).
End JsNum.

(** ** Doubles

    The numbers of the program as they are, binary64 floats: a decimal
    constant of the source is the nearest float, and every operation
    rounds to nearest. *)

Module Double.
Local Open Scope float_scope.

(** A loop index or a length as a number; exact below [2 ^ 53]. *)
Fixpoint ofNat (n : nat) : float :=
  match n with
  | O => 0
  | S n => ofNat n + 1
  end.

(** [Math.min] on numbers that are not NaN. *)
Definition min (a b : float) : float := if PrimFloat.ltb b a then b else a.
End Double.

(** ** The label fade-in ([animateLabelAppearance])

  [Math.sin] and [Math.PI] are the real sine and pi. *)

Module Label.
Local Open Scope R_scope.

(** [Math.sin(progress * Math.PI / 2)]. *)
Definition easedProgress (progress : R) : R := sin (progress * PI / 2).

(** [0.2 * Math.sin(progress * 10) * (1 - progress)]. *)
Definition oscillation (progress : R) : R :=
  0.2 * sin (progress * 10) * (1 - progress).

(** The oscillating-appear easing: the sum of the two. *)
Definition oscillatingAppear (progress : R) : R :=
  easedProgress progress + oscillation progress.

(** [updateLabelOpacity]: what it assigns to [material.opacity] when
    [Date.now() - startTime = elapsed]. *)
Definition updateLabelOpacity (elapsed : R) : R :=
  let duration := 1000 in
  let progress := Rmin (elapsed / duration) 1 in
  let easedProgress := sin (progress * PI / 2) in
  let oscillation := 0.2 * sin (progress * 10) * (1 - progress) in
  easedProgress + oscillation.

(** A clamp into [0, 1], which the file does not contain; it is here to
    compare the assignment with. *)
Definition clamp01 (v : R) : R := Rmax 0 (Rmin v 1).
End Label.

(** ** The cull of the cosmic shuffle ([selectAndPlaceFourCards]) *)

Module Cull.
Local Open Scope Q_scope.

(** A card group of the shuffle: the [i] of its name ["ShuffleCardGroup_" + i],
    [userData.positionIndex], [userData.selected], and its uniform scale. *)
Record shuffleCard : Set := mkShuffleCard
  { name : nat;
    positionIndex : option nat;
    selected : bool;
    scale : Q }.

(** The loop of [createShuffleAnimation] that fills [shuffleCards]: card
    [i] for [i < numShuffleCards], at scale 0.01. *)
Definition createShuffleCards (numShuffleCards : nat) : list shuffleCard :=
map (fun i => mkShuffleCard i None false (1 # 100)) (seq 0 numShuffleCards).

Definition numShuffleCards : nat := 60.

Definition numCardsToKeep : nat := 4.

(** [Math.floor(Math.random() * cardsToRemove.length)], [r] being the
    value of [Math.random()]. *)
Definition randomIndex (r : Q) (length : nat) : Z :=
Qfloor (r * inject_Z (Z.of_nat length)).

(** [array.splice(index, 1)[0]] with the array that is left; [None] when
    there is no such element, where the use of the result would throw. *)
Definition splice1 {A : Type} (l : list A) (index : nat) : option (A * list A) :=
match nth_error l index with
| Some a => Some (a, firstn index l ++ skipn (S index) l)
| None => None
end.

(** What the loop body does to the selected card:
    [positionIndex = i], [selected = true], [scale.set(1.5, 1.5, 1.5)]. *)
Definition mark (i : nat) (selectedCard : shuffleCard) : shuffleCard :=
mkShuffleCard (name selectedCard) (Some i) true (3 # 2).

(** The loop [for (let i = 0; i < numCardsToKeep; i++)], with [count]
    iterations left; [rand] is the sequence of values of [Math.random()]
    and [cursor] the number of them used so far. *)
Fixpoint selectLoop (count i : nat) (rand : nat -> Q) (cursor : nat)
  (cardsToRemove cardsToKeep : list shuffleCard)
  : option (list shuffleCard * list shuffleCard * nat) :=
match count with
| O => Some (cardsToKeep, cardsToRemove, cursor)
| S count' =>
    match cardsToRemove with
    | [] => selectLoop count' (S i) rand cursor cardsToRemove cardsToKeep
    | _ :: _ =>
        let randomIndex :=
          randomIndex (rand cursor) (List.length cardsToRemove) in
        match splice1 cardsToRemove (Z.to_nat randomIndex) with
        | Some (selectedCard, rest) =>
            selectLoop count' (S i) rand (S cursor) rest
                       (cardsToKeep ++ [mark i selectedCard])
        | None => None
        end
    end
end.

(** The selection with the number of cards to keep as a parameter:
    [(cardsToKeep, cardsToRemove, random values used)]. *)
Definition selectCards (numCardsToKeep : nat) (shuffleCards : list shuffleCard)
  (rand : nat -> Q) : option (list shuffleCard * list shuffleCard * nat) :=
selectLoop numCardsToKeep 0 rand 0 shuffleCards [].

Definition selectAndPlaceFourCards (shuffleCards : list shuffleCard)
  (rand : nat -> Q) : option (list shuffleCard * list shuffleCard * nat) :=
selectCards numCardsToKeep shuffleCards rand.

(** [finalPositions[i].x] of [moveSelectedCardsToPosition] (lines
    1521-1533; the same in [selectAndPlaceFourCards], lines 1385-1397),
    for [count] selected cards, in doubles:
    [i * (cardWidth + spacing) - totalWidth / 2 + cardWidth / 2]. *)
Definition finalPositionX (count i : nat) : float :=
let spacing := 1.2%float in
let cardWidth := 2%float in
let totalWidth :=
  (Double.ofNat count * (cardWidth + spacing) - spacing)%float in
(Double.ofNat i * (cardWidth + spacing) - totalWidth / 2 + cardWidth / 2)%float.

(** [flyDuration] of [flyAwayCard]: [500 + Math.random() * 200]. *)
Definition flyDuration (r : Q) : Q := 500 + r * 200.

(** A random source that is constant after its first values. *)
Definition randFrom (values : list Q) (n : nat) : Q := nth n values 0.
End Cull.

(** ** The content fetch ([fetchRandomContent], [fetchSingleCardContent]) *)

Module Fetch.
Local Open Scope Q_scope.

(** A block of the search result: its [id] and
    [image.display.url], [None] when [image], [display] or [url] is
    missing. *)
Record block : Set := mkBlock { id : nat; imageUrl : option string }.

(** [content.image && content.image.display && content.image.display.url]:
    the empty string is falsy. *)
Definition hasValidImage (content : block) : bool :=
match imageUrl content with
| Some url => negb (String.eqb url EmptyString)
| None => false
end.

(** What a search request comes back with: a rejected [fetch] or
    [json()], a body without a [blocks] array, or the blocks. *)
Inductive response : Set :=
| NetworkError
| NoBlocks
| Blocks (blocks : list block).

(** An element of the global [cards]: the block and its random
    [position]. *)
Record card : Set := mkCard { content : block; position : Q }.

(** The world outside: the queries of [data.json], the values of
    [Math.random()], and the answer to the [n]-th request, which asked
    for [query]. *)
Record env : Type := mkEnv
  { queries : list string;
    rand : nat -> Q;
    respond : nat -> string -> response }.

(** The globals the fetch writes, the random values used, and the
    queries requested so far, oldest first. *)
Record state : Set := mkState
  { cards : list card;
    cursor : nat;
    requests : list string }.

(** [Math.floor(Math.random() * length)]. *)
Definition randomIndex (r : Q) (length : nat) : nat :=
Z.to_nat (Qfloor (r * inject_Z (Z.of_nat length))).

(** [getRandomQuery]: ['art'] when no query is loaded; it draws a
    random value otherwise. *)
Definition getRandomQuery (e : env) (st : state) : string * state :=
match queries e with
| [] => ("art"%string, st)
| _ :: _ =>
    (nth (randomIndex (rand e (cursor st)) (List.length (queries e)))
         (queries e) ""%string,
     mkState (cards st) (S (cursor st)) (requests st))
end.

(** [.map(content => ({...content, position: Math.random()}))]. *)
Fixpoint withPositions (rand : nat -> Q) (cursor : nat) (blocks : list block)
  : list card :=
match blocks with
| [] => []
| b :: blocks' => mkCard b (rand cursor) :: withPositions rand (S cursor) blocks'
end.

(** [.sort((a, b) => a.position - b.position)]: the stable sort by
    position. *)
Fixpoint insert (c : card) (sorted : list card) : list card :=
match sorted with
| [] => [c]
| d :: sorted' =>
    if Qle_bool (position c) (position d) then c :: d :: sorted'
    else d :: insert c sorted'
end.

Fixpoint sort (l : list card) : list card :=
match l with
| [] => []
| c :: l' => insert c (sort l')
end.

(** The statement [cards = searchData.blocks.filter(...).map(...).sort(...)]. *)
Definition storeCards (e : env) (blocks : list block) (st : state) : state :=
let valid := filter hasValidImage blocks in
mkState (sort (withPositions (rand e) (cursor st) valid))
        (cursor st + List.length valid)
        (requests st).

(** How a call ends: it resolves with a value, it rejects, or it is
    still retrying when the attempts that are observed run out. *)
Inductive outcome (A : Type) : Type :=
| Returned (value : A) (st : state)
| Threw (st : state)
| Retrying (st : state).
Arguments Returned {A} value st.
Arguments Threw {A} st.
Arguments Retrying {A} st.

Definition request (e : env) (query : string) (st : state) : response * state :=
(respond e (List.length (requests st)) query,
 mkState (cards st) (cursor st) (requests st ++ [query])).

(** [fetchRandomContent]; [attempts] bounds the requests that are
    observed, the function itself has no bound. *)
Fixpoint fetchRandomContent (attempts : nat) (e : env) (st : state)
  : outcome bool :=
match attempts with
| O => Retrying st
| S attempts' =>
    let (randomQuery, st) := getRandomQuery e st in
    let (searchData, st) := request e randomQuery st in
    match searchData with
    | NetworkError => Threw st
    | NoBlocks => Threw st          (* 'Invalid search data received' *)
    | Blocks blocks =>
        let st := storeCards e blocks st in
        match cards st with
        | [] => fetchRandomContent attempts' e st   (* try another query *)
        | _ :: _ => Returned true st
        end
    end
end.

(** [cards[Math.floor(Math.random() * cards.length)]]. *)
Definition randomCard (e : env) (st : state) : option card * state :=
(nth_error (cards st) (randomIndex (rand e (cursor st)) (List.length (cards st))),
 mkState (cards st) (S (cursor st)) (requests st)).

(** [fetchSingleCardContent]: a card already fetched, or a new search. *)
Fixpoint fetchSingleCardContent (attempts : nat) (e : env) (st : state)
  : outcome (option card) :=
match cards st with
| _ :: _ => let (c, st) := randomCard e st in Returned c st
| [] =>
    match attempts with
    | O => Retrying st
    | S attempts' =>
        let (randomQuery, st) := getRandomQuery e st in
        let (searchData, st) := request e randomQuery st in
        match searchData with
        | NetworkError => Threw st
        | NoBlocks => Threw st
        | Blocks blocks =>
            let st := storeCards e blocks st in
            match cards st with
            | [] => fetchSingleCardContent attempts' e st
            | _ :: _ => let (c, st) := randomCard e st in Returned c st
            end
        end
    end
end.

(** A response with no valid image entry. *)
Definition emptyResult (r : response) : Prop :=
match r with
| Blocks blocks => filter hasValidImage blocks = []
| _ => False
end.


End Fetch.

(** ** The reading: card flips and the reset ([flipCard],
    [animateCardFlip], [resetTarotReading])

    The globals [animating], [revealedCardCount] and [cardMeshes], the
    promises that are pending, the [requestAnimationFrame] callbacks and
    the [setTimeout] callbacks are the state; the clicks, the settling of
    a promise and the display frames are the events.  A timer fires at the
    time it is due.  The label meshes and their fade-in, the hover scale
    and, after the cards have flipped back, the rest of the reset (the
    fly-away, the refetch, the new cards) are not part of this model. *)

Module Reading.
Import Easing.
Local Open Scope Q_scope.

Definition MAX_REVEALED_CARDS : Z := 3.

(** [Math.PI], the double nearest to pi. *)
Definition Math_PI : Q := 884279719003555 # 281474976710656.

(** A card group of [cardMeshes]: its [userData] fields, [rotation.x],
    the map of its front material and the text of its label mesh. *)
Record card : Set := mkCard
  { revealed : bool;
    selected : bool;
    cardMesh : bool;                 (* userData.cardMesh is set *)
    arenaUrl : option nat;           (* the block id of the Are.na url *)
    targetTexture : option nat;
    label : string;
    rotationX : Q;
    frontMap : option nat;
    textLabel : option string }.

Definition setFlags (r s : bool) (c : card) : card :=
mkCard r s (cardMesh c) (arenaUrl c) (targetTexture c) (label c)
       (rotationX c) (frontMap c) (textLabel c).

Definition setArenaUrl (u : nat) (c : card) : card :=
mkCard (revealed c) (selected c) (cardMesh c) (Some u) (targetTexture c)
       (label c) (rotationX c) (frontMap c) (textLabel c).

Definition setTarget (texture : nat) (l : string) (c : card) : card :=
mkCard (revealed c) (selected c) (cardMesh c) (arenaUrl c) (Some texture) l
       (rotationX c) (frontMap c) (textLabel c).

Definition setRotationX (r : Q) (c : card) : card :=
mkCard (revealed c) (selected c) (cardMesh c) (arenaUrl c) (targetTexture c)
       (label c) r (frontMap c) (textLabel c).

Definition setFrontMap (m : option nat) (c : card) : card :=
mkCard (revealed c) (selected c) (cardMesh c) (arenaUrl c) (targetTexture c)
       (label c) (rotationX c) m (textLabel c).

Definition setTextLabel (t : option string) (c : card) : card :=
mkCard (revealed c) (selected c) (cardMesh c) (arenaUrl c) (targetTexture c)
       (label c) (rotationX c) (frontMap c) t.

(** The closures that [requestAnimationFrame] is given by the flips and
    by the flip-backs of a reset. *)
Inductive tick : Set :=
| FlipTick (cardIndex : nat) (startRotX startTime : Q)
           (targetTexture : option nat) (textureChanged : bool) (label : string)
| FlipBackTick (cardIndex : nat) (startRotX startTime : Q).

(** The closures that [setTimeout] is given. *)
Inductive timer : Set :=
| HighlightTimer
| FlipBackTimer (cardIndex : nat) (startRotX startTime : Q).

(** Where a reset is: not running, waiting for [pending] flip-back
    promises, or past them. *)
Inductive resetStage : Set :=
| NoReset
| FlippingBack (pending : nat)
| FlyingAway.

Record state : Set := mkState
  { animating : bool;
    revealedCardCount : Z;
    cardMeshes : list card;
    resetHighlighted : bool;
    fetching : list (nat * string);        (* card index, label *)
    loading : list (nat * string * nat);   (* card index, label, texture *)
    rafQueue : list tick;
    timers : list (Q * timer);             (* due time, callback *)
    reset : resetStage }.

Definition setAnimating (b : bool) (st : state) : state :=
mkState b (revealedCardCount st) (cardMeshes st) (resetHighlighted st)
        (fetching st) (loading st) (rafQueue st) (timers st) (reset st).

Definition setCount (n : Z) (st : state) : state :=
mkState (animating st) n (cardMeshes st) (resetHighlighted st)
        (fetching st) (loading st) (rafQueue st) (timers st) (reset st).

Definition setCards (cs : list card) (st : state) : state :=
mkState (animating st) (revealedCardCount st) cs (resetHighlighted st)
        (fetching st) (loading st) (rafQueue st) (timers st) (reset st).

Definition setHighlighted (b : bool) (st : state) : state :=
mkState (animating st) (revealedCardCount st) (cardMeshes st) b
        (fetching st) (loading st) (rafQueue st) (timers st) (reset st).

Definition setFetching (l : list (nat * string)) (st : state) : state :=
mkState (animating st) (revealedCardCount st) (cardMeshes st)
        (resetHighlighted st) l (loading st) (rafQueue st) (timers st)
        (reset st).

Definition setLoading (l : list (nat * string * nat)) (st : state) : state :=
mkState (animating st) (revealedCardCount st) (cardMeshes st)
        (resetHighlighted st) (fetching st) l (rafQueue st) (timers st)
        (reset st).

Definition setRafQueue (q : list tick) (st : state) : state :=
mkState (animating st) (revealedCardCount st) (cardMeshes st)
        (resetHighlighted st) (fetching st) (loading st) q (timers st)
        (reset st).

Definition setTimers (t : list (Q * timer)) (st : state) : state :=
mkState (animating st) (revealedCardCount st) (cardMeshes st)
        (resetHighlighted st) (fetching st) (loading st) (rafQueue st) t
        (reset st).

Definition setReset (r : resetStage) (st : state) : state :=
mkState (animating st) (revealedCardCount st) (cardMeshes st)
        (resetHighlighted st) (fetching st) (loading st) (rafQueue st)
        (timers st) r.

Fixpoint updateNth {A : Type} (i : nat) (f : A -> A) (l : list A) : list A :=
match l, i with
| [], _ => []
| a :: l', O => f a :: l'
| a :: l', S i' => a :: updateNth i' f l'
end.

Fixpoint removeNth {A : Type} (i : nat) (l : list A) : list A :=
match l, i with
| [], _ => []
| _ :: l', O => l'
| a :: l', S i' => a :: removeNth i' l'
end.

(** A write to the fields of [cardMeshes[cardIndex]]. *)
Definition updateCard (cardIndex : nat) (f : card -> card) (st : state) : state :=
setCards (updateNth cardIndex f (cardMeshes st)) st.

Definition requestAnimationFrame (t : tick) (st : state) : state :=
setRafQueue (rafQueue st ++ [t]) st.

(** [setTimeout(callback, delay)] at [now]; the list is kept in the order
    in which the timers fire. *)
Fixpoint insertTimer (due : Q) (t : timer) (l : list (Q * timer))
  : list (Q * timer) :=
match l with
| [] => [(due, t)]
| (d, t') :: l' =>
    if Qle_bool d due then (d, t') :: insertTimer due t l'
    else (due, t) :: (d, t') :: l'
end.

Definition setTimeout (t : timer) (delay now : Q) (st : state) : state :=
setTimers (insertTimer (now + delay) t (timers st)) st.

Definition highlightResetButton (st : state) : state := setHighlighted true st.

(** The switch of [flipCard] on [revealedCardCount]. *)
Definition labelFor (count : Z) : string :=
match count with
| 1%Z => "Past"
| 2%Z => "Present"
| 3%Z => "Future"
| _ => ""
end.

(** [flipCard(cardIndex)], up to the call of [fetchSingleCardContent]. *)
Definition flipCard (cardIndex : nat) (st : state) : state :=
if animating st then st
else
  match nth_error (cardMeshes st) cardIndex with
  | None => st                                   (* "Card group not found" *)
  | Some cardGroup =>
      if revealed cardGroup then st
      else if (MAX_REVEALED_CARDS <=? revealedCardCount st)%Z
      then highlightResetButton st
      else if negb (cardMesh cardGroup) then st  (* "Card mesh not found" *)
      else
        let st := updateCard cardIndex (setFlags true true) st in
        let st := setCount (revealedCardCount st + 1) st in
        let label := labelFor (revealedCardCount st) in
        setFetching (fetching st ++ [(cardIndex, label)]) st
  end.

(** The three failure branches of [flipCard]:
    [revealed = false; selected = false; revealedCardCount--]. *)
Definition failFlip (cardIndex : nat) (st : state) : state :=
let st := updateCard cardIndex (setFlags false false) st in
setCount (revealedCardCount st - 1) st.

(** How [fetchSingleCardContent()] settles. *)
Inductive fetchResult : Set :=
| FetchRejected
| Fetched (cardData : option Fetch.block).

(** The [then] and the outer [catch] of [fetchSingleCardContent()], for
    the [k]-th pending fetch. *)
Definition onFetchSettled (k : nat) (r : fetchResult) (st : state) : state :=
match nth_error (fetching st) k with
| None => st
| Some (cardIndex, label) =>
    let st := setFetching (removeNth k (fetching st)) st in
    match r with
    | FetchRejected => failFlip cardIndex st
    | Fetched None => failFlip cardIndex st
    | Fetched (Some cardData) =>
        if Fetch.hasValidImage cardData
        then
          let st := updateCard cardIndex (setArenaUrl (Fetch.id cardData)) st in
          setLoading (loading st ++ [(cardIndex, label, Fetch.id cardData)]) st
        else failFlip cardIndex st
    end
end.

(** [createLabelForCard(cardGroup, text)]: the label mesh is added to
    the card group.  Its fade-in ([animateLabelAppearance]) and the link
    indicator write to the label only and are left out. *)
Definition createLabelForCard (cardIndex : nat) (text : string) (st : state)
  : state :=
updateCard cardIndex (setTextLabel (Some text)) st.

(** [updateCardRotation] of [animateCardFlip].  The material of a card
    mesh is the array of six that [createCards] builds, so the texture is
    applied when the card is half way. *)
Definition flipTick (cardIndex : nat) (startRotX startTime : Q)
  (targetTexture : option nat) (textureChanged : bool) (label : string)
  (now : Q) (st : state) : state :=
let targetRotX := 0 in
let duration := 800 in
let elapsed := now - startTime in
let progress := Qmin (elapsed / duration) 1 in
let easedProgress :=
  if Qlt_le_dec progress (1 # 2)
  then 2 * progress * progress
  else 1 - (-2 * progress + 2) ^ 2 / 2 in
let st :=
  updateCard cardIndex
             (setRotationX (startRotX + (targetRotX - startRotX) * easedProgress))
             st in
let change :=
  Qle_bool (1 # 2) progress && negb textureChanged
  && match targetTexture with Some _ => true | None => false end in
let st := if change then updateCard cardIndex (setFrontMap targetTexture) st
          else st in
let textureChanged := textureChanged || change in
if Qlt_le_dec progress 1
then requestAnimationFrame
       (FlipTick cardIndex startRotX startTime targetTexture textureChanged label)
       st
else
  let st := setAnimating false st in
  if String.eqb label "" then st else createLabelForCard cardIndex label st.

(** The [then] of [Promise.all(promises)] of the reset, as far as the
    counter: the fly-away it starts is where the model stops. *)
Definition afterFlipBack (st : state) : state :=
setReset FlyingAway (setCount 0 st).

(** [resolve()] of one flip-back promise. *)
Definition resolveFlipBack (st : state) : state :=
match reset st with
| FlippingBack (S O) => afterFlipBack st
| FlippingBack (S n) => setReset (FlippingBack n) st
| _ => st
end.

(** [updateCardRotation] of [resetTarotReading]. *)
Definition flipBackTick (cardIndex : nat) (startRotX startTime : Q)
  (now : Q) (st : state) : state :=
let targetRotX := Math_PI in
let duration := 600 in
let elapsed := now - startTime in
let progress := Qmin (elapsed / duration) 1 in
let easedProgress :=
  if Qlt_le_dec progress (1 # 2)
  then 2 * progress * progress
  else 1 - (-2 * progress + 2) ^ 2 / 2 in
let st :=
  updateCard cardIndex
             (setRotationX (startRotX + (targetRotX - startRotX) * easedProgress))
             st in
if Qlt_le_dec progress 1
then requestAnimationFrame (FlipBackTick cardIndex startRotX startTime) st
else
  let st := updateCard cardIndex (setFlags false false) st in
  let st := updateCard cardIndex (setTextLabel None) st in
  resolveFlipBack st.

Definition runTick (t : tick) (now : Q) (st : state) : state :=
match t with
| FlipTick cardIndex startRotX startTime targetTexture textureChanged label =>
    flipTick cardIndex startRotX startTime targetTexture textureChanged label
             now st
| FlipBackTick cardIndex startRotX startTime =>
    flipBackTick cardIndex startRotX startTime now st
end.

(** [animateCardFlip(cardGroup)] at [now]. *)
Definition animateCardFlip (cardIndex : nat) (now : Q) (st : state) : state :=
match nth_error (cardMeshes st) cardIndex with
| None => st
| Some cardGroup =>
    let st := setAnimating true st in
    flipTick cardIndex (rotationX cardGroup) now (targetTexture cardGroup)
             false (label cardGroup) now st
end.

(** The [then] and the [catch] of [loadCardTexture(imageUrl)], for the
    [k]-th pending load. *)
Definition onTextureSettled (k : nat) (loaded : bool) (now : Q) (st : state)
  : state :=
match nth_error (loading st) k with
| None => st
| Some (cardIndex, label, texture) =>
    let st := setLoading (removeNth k (loading st)) st in
    if loaded
    then
      let st := updateCard cardIndex (setTarget texture label) st in
      let st := animateCardFlip cardIndex now st in
      if (MAX_REVEALED_CARDS <=? revealedCardCount st)%Z
      then setTimeout HighlightTimer 1000 now st
      else st
    else failFlip cardIndex st
end.

(** The flip-back promises of [resetTarotReading]: for the revealed card
    groups, from index [i] on, the timer of each and their number. *)
Fixpoint flipBackTimers (i : nat) (cs : list card) (now : Q) (st : state)
  : state * nat :=
match cs with
| [] => (st, O)
| cardGroup :: cs' =>
    if revealed cardGroup
    then
      let st :=
        setTimeout (FlipBackTimer i (rotationX cardGroup) now)
                   (inject_Z (Z.of_nat i) * 200) now st in
      let (st, n) := flipBackTimers (S i) cs' now st in
      (st, S n)
    else flipBackTimers (S i) cs' now st
end.

(** [resetTarotReading()] at [now]. *)
Definition resetTarotReading (now : Q) (st : state) : state :=
if animating st then st
else
  let st := setAnimating true st in
  let st := setHighlighted false st in
  let (st, promises) := flipBackTimers 0 (cardMeshes st) now st in
  match promises with
  | O => afterFlipBack st
  | S _ => setReset (FlippingBack promises) st
  end.

Definition runTimer (t : timer) (due : Q) (st : state) : state :=
match t with
| HighlightTimer => highlightResetButton st
| FlipBackTimer cardIndex startRotX startTime =>
    flipBackTick cardIndex startRotX startTime due st
end.

(** The timers that are due at [now] fire, each at its due time. *)
Definition fireTimers (now : Q) (st : state) : state :=
let due := filter (fun dt => Qle_bool (fst dt) now) (timers st) in
let later := filter (fun dt => negb (Qle_bool (fst dt) now)) (timers st) in
fold_left (fun st dt => runTimer (snd dt) (fst dt) st) due (setTimers later st).

(** A display frame: the callbacks that were requested run, in order. *)
Definition frame (now : Q) (st : state) : state :=
fold_left (fun st t => runTick t now st) (rafQueue st) (setRafQueue [] st).

Inductive event : Set :=
| Click (cardIndex : nat)
| ResetClick
| FetchSettled (k : nat) (r : fetchResult)
| TextureSettled (k : nat) (loaded : bool)
| Frame.

Definition handle (st : state) (timed : Q * event) : state :=
let now := fst timed in
let st := fireTimers now st in
match snd timed with
| Click cardIndex => flipCard cardIndex st
| ResetClick => resetTarotReading now st
| FetchSettled k r => onFetchSettled k r st
| TextureSettled k loaded => onTextureSettled k loaded now st
| Frame => frame now st
end.

Definition run (events : list (Q * event)) (st : state) : state :=
fold_left handle events st.

(** The cards that [createCards] makes: four, face down. *)
Definition newCard : card :=
mkCard false false true None None "" Math_PI None None.

Definition createCards : state :=
mkState false 0 [newCard; newCard; newCard; newCard] false [] [] [] [] NoReset.

(** What a flip reveals: the counter and the two flags of every card. *)
Definition flagsOf (c : card) : bool * bool := (revealed c, selected c).

Definition revealState (st : state) : Z * list (bool * bool) :=
(revealedCardCount st, map flagsOf (cardMeshes st)).

(** [selected] and [revealed] are written together. *)
Definition flagsAgree (st : state) : Prop :=
Forall (fun c => selected c = revealed c) (cardMeshes st).

(** [flipCard(cardIndex)] gets past its guards. *)
Definition flipAccepted (cardIndex : nat) (st : state) : Prop :=
animating st = false
/\ exists cardGroup,
     nth_error (cardMeshes st) cardIndex = Some cardGroup
     /\ revealed cardGroup = false
     /\ cardMesh cardGroup = true
     /\ (revealedCardCount st < MAX_REVEALED_CARDS)%Z.

(** A flip tween of [cardIndex] is in flight. *)
Definition flipInFlight (cardIndex : nat) (st : state) : Prop :=
exists startRotX startTime texture changed label,
  In (FlipTick cardIndex startRotX startTime texture changed label)
     (rafQueue st).

(** *** Readings *)

Definition block1 : Fetch.block := Fetch.mkBlock 11 (Some "https://d2w9rnfcy7mm78.cloudfront.net/11"%string).
Definition block2 : Fetch.block := Fetch.mkBlock 12 (Some "https://d2w9rnfcy7mm78.cloudfront.net/12"%string).

(** Card 0 is clicked at 0; its content is there at 10 and its texture at
    20, where the flip starts. *)
Definition singleFlipStart : list (Q * event) :=
[(0, Click 0); (10, FetchSettled 0 (Fetched (Some block1)));
 (20, TextureSettled 0 true)].

(** Cards 0 and 1 are clicked at 0; the textures are there at 20 and at
    120; frames at 420 and 820. *)
Definition overlappingFlips : list (Q * event) :=
[(0, Click 0); (0, Click 1);
 (10, FetchSettled 0 (Fetched (Some block1)));
 (10, FetchSettled 0 (Fetched (Some block2)));
 (20, TextureSettled 0 true);
 (120, TextureSettled 0 true);
 (420, Frame); (820, Frame)].

(** Cards 0 and 1 are flipped one after the other, the second flip being
    over at 1820. *)
Definition twoFlips : list (Q * event) :=
[(0, Click 0); (10, FetchSettled 0 (Fetched (Some block1)));
 (20, TextureSettled 0 true); (420, Frame); (820, Frame);
 (1000, Click 1); (1010, FetchSettled 0 (Fetched (Some block2)));
 (1020, TextureSettled 0 true); (1420, Frame); (1820, Frame)].

Definition afterOverlappingFlips : state := run overlappingFlips createCards.

(** The reset is clicked at 2000, cards 0 and 1 being face up. *)
Definition resetAt2000 : list (Q * event) := twoFlips ++ [(2000, ResetClick)].

Definition rotationOf (cardIndex : nat) (st : state) : Q :=
match nth_error (cardMeshes st) cardIndex with
| Some cardGroup => rotationX cardGroup
| None => 0
end.
End Reading.

(** ** The staggered entry of the cards ([animateCardsEntry]) *)

Module Entry.
Local Open Scope Q_scope.

(** [animating], [position.y] of every card group of [cardMeshes], the
    [updateCardPosition] closures that [requestAnimationFrame] holds (the
    index [i], [startY], [startTime]) and the pending timers (due time,
    [i]), in the order in which they were set. *)
Record state : Set := mkState
  { animating : bool;
    positionY : list Q;
    rafQueue : list (nat * Q * Q);
    timers : list (Q * nat) }.

Definition setAnimating (b : bool) (st : state) : state :=
mkState b (positionY st) (rafQueue st) (timers st).

Fixpoint setNth (i : nat) (v : Q) (l : list Q) : list Q :=
match l, i with
| [], _ => []
| _ :: l', O => v :: l'
| a :: l', S i' => a :: setNth i' v l'
end.

Definition setPositionY (i : nat) (v : Q) (st : state) : state :=
mkState (animating st) (setNth i v (positionY st)) (rafQueue st) (timers st).

Definition requestAnimationFrame (t : nat * Q * Q) (st : state) : state :=
mkState (animating st) (positionY st) (rafQueue st ++ [t]) (timers st).

Definition setTimeout (i : nat) (delay now : Q) (st : state) : state :=
mkState (animating st) (positionY st) (rafQueue st)
        (timers st ++ [(now + delay, i)]).

(** The body of [cardMeshes.forEach((cardGroup, i) => ...)], from card
    [i] on, [remaining] cards being left:
    [cardGroup.position.y = 5; setTimeout(..., i * 150)]. *)
Fixpoint forEachCard (remaining i : nat) (now : Q) (st : state) : state :=
match remaining with
| O => st
| S remaining' =>
    let st := setPositionY i 5 st in
    let st := setTimeout i (inject_Z (Z.of_nat i) * 150) now st in
    forEachCard remaining' (S i) now st
end.

(** [animateCardsEntry()] at [now], the cards being at [positions]. *)
Definition animateCardsEntry (now : Q) (positions : list Q) : state :=
forEachCard (List.length positions) 0 now (mkState true positions [] []).

(** [updateCardPosition] of card [i], [Date.now()] being [now]. *)
Definition updateCardPosition (i : nat) (startY startTime : Q) (now : Q)
  (st : state) : state :=
let targetY := 0 in
let duration := 600 in
let elapsed := now - startTime in
let progress := Qmin (elapsed / duration) 1 in
let easedProgress := 1 - (1 - progress) ^ 3 in
let st := setPositionY i (startY + (targetY - startY) * easedProgress) st in
if Qlt_le_dec progress 1
then requestAnimationFrame (i, startY, startTime) st
else if Nat.eqb i (List.length (positionY st) - 1)
     then setAnimating false st
     else st.

(** The timer callback of card [i], which runs at [due]:
    [startY = cardGroup.position.y; startTime = Date.now();
     updateCardPosition()]. *)
Definition startCard (st : state) (dt : Q * nat) : state :=
let due := fst dt in
let i := snd dt in
updateCardPosition i (nth i (positionY st) 0) due due st.

Definition isDue (now : Q) (dt : Q * nat) : bool := Qle_bool (fst dt) now.

Definition fireTimers (now : Q) (st : state) : state :=
fold_left startCard (filter (isDue now) (timers st))
          (mkState (animating st) (positionY st) (rafQueue st)
                   (filter (fun dt => negb (isDue now dt)) (timers st))).

Definition runTick (now : Q) (st : state) (t : nat * Q * Q) : state :=
updateCardPosition (fst (fst t)) (snd (fst t)) (snd t) now st.

(** A display frame at [now], after the timers that were due by then. *)
Definition frame (st : state) (now : Q) : state :=
let st := fireTimers now st in
fold_left (runTick now) (rafQueue st)
          (mkState (animating st) (positionY st) [] (timers st)).

Definition run (start : Q) (positions : list Q) (frames : list Q) : state :=
fold_left frame frames (animateCardsEntry start positions).

(** The time at which card [i] is due, the phase starting at [start]. *)
Definition dueOf (start : Q) (i : nat) : Q :=
start + inject_Z (Z.of_nat i) * 150.

(** The index and the start time of a closure. *)
Definition keyOf (t : nat * Q * Q) : nat * Q := (fst (fst t), snd t).

(** The test [progress < 1] of the tick of a closure at [now]. *)
Definition running (now : Q) (k : nat * Q) : bool :=
if Qlt_le_dec (Qmin ((now - snd k) / 600) 1) 1 then true else false.

(** A timer as the key of the closure it starts. *)
Definition swap (dt : Q * nat) : nat * Q := (snd dt, fst dt).

(** A tick at [now] leaves [animating] as it is: it asks for another
    frame, or it is not the tick of the last of [len] cards. *)
Definition keeps (now : Q) (len : nat) (k : nat * Q) : bool :=
running now k || negb (Nat.eqb (fst k) (len - 1)).

(** The closure of card [fst k] of [N] was started when the card was due. *)
Definition okKey (start : Q) (N : nat) (k : nat * Q) : Prop :=
snd k = dueOf start (fst k) /\ (fst k < N)%nat.

(** The two states of the entry of [N] cards after the frames [seen]:
    the flag is raised and the tween of the last card is pending or in
    flight, or the flag is lowered and nothing is left. *)
Inductive phase_inv (start : Q) (N : nat) (seen : list Q) (st : state) : Prop :=
| Busy :
    List.length (positionY st) = N ->
    Forall (okKey start N) (map keyOf (rafQueue st)) ->
    Forall (okKey start N) (map swap (timers st)) ->
    animating st = true ->
    (exists k, In k (map keyOf (rafQueue st) ++ map swap (timers st))
               /\ fst k = (N - 1)%nat) ->
    Forall (fun now => now < dueOf start (N - 1) + 600) seen ->
    phase_inv start N seen st
| Over :
    List.length (positionY st) = N ->
    animating st = false -> rafQueue st = [] -> timers st = [] ->
    Exists (fun now => dueOf start (N - 1) + 600 <= now) seen ->
    phase_inv start N seen st.
End Entry.

(** ** The row of cards ([createCards]) *)

Module Layout.

(** The [x] of card [i] in [createCards] (lines 1640-1686), in doubles:
    four cards of width 2, 1.2 apart,
    [i * (2 + spacing) - totalWidth / 2 + 2/2]. *)
Definition createCardsX (i : nat) : float :=
let numCards := 4%float in
let spacing := 1.2%float in
let totalWidth := (numCards * (2 + spacing) - spacing)%float in
(Double.ofNat i * (2 + spacing) - totalWidth / 2 + 2 / 2)%float.
End Layout.

(** ** The durations of the tweens

    Every tick divides by the duration of its own closure. *)

Module Durations.
Local Open Scope Q_scope.


End Durations.

(** ** The queries ([loadQueriesFromJson])

    [data.json] is an object whose values are arrays of strings. *)

Module Startup.

(** The fallback of [loadQueriesFromJson]. *)
Definition defaultQueries : list string :=
["art"; "design"; "photography"; "architecture"; "nature"]%string.

(** [loadQueriesFromJson]: the value it returns and the [queries] it
    leaves.  [data] is [None] when the fetch of [data.json] rejects, when
    the response is not ok, or when its body does not parse. *)
Definition loadQueriesFromJson (data : option (list (string * list string)))
  : bool * list string :=
match data with
| None => (false, defaultQueries)
| Some categories =>
    let queries := List.concat (map snd categories) in   (* Object.values(data).flat() *)
    match queries with
    | [] => (false, defaultQueries)   (* 'No queries found in data.json' *)
    | _ :: _ => (true, queries)
    end
end.
End Startup.

(** ** What the global [cards] holds *)

Module Stored.
Local Open Scope Q_scope.

(** The order of [.sort((a, b) => a.position - b.position)]. *)
Definition byPosition (c d : Fetch.card) : Prop :=
Fetch.position c <= Fetch.position d.

(** Every card has passed [hasValidImage]. *)
Definition allValid (cs : list Fetch.card) : Prop :=
Forall (fun c => Fetch.hasValidImage (Fetch.content c) = true) cs.

(** A search that fails: [fetch] or [json()] rejects, or the body has no
    [blocks] array. *)
Definition errorResult (r : Fetch.response) : Prop :=
r = Fetch.NetworkError \/ r = Fetch.NoBlocks.

(** A world in which every search returns one block with an image and
    one without. *)
Definition oneImage : Fetch.env :=
Fetch.mkEnv ["art"%string] (fun _ => 1 # 2)
  (fun _ _ => Fetch.Blocks [Fetch.mkBlock 7 None;
                            Fetch.mkBlock 8 (Some "https://d2w9rnfcy7mm78.cloudfront.net/8"%string)]).

(** A world in which the first search returns nothing valid and the
    second fails. *)
Definition emptyThenError : Fetch.env :=
Fetch.mkEnv ["art"%string] (fun _ => 1 # 2)
  (fun n _ => match n with
              | O => Fetch.Blocks [Fetch.mkBlock 7 None]
              | _ => Fetch.NetworkError
              end).
End Stored.


(** ** The states of one flip ([animateCardFlip]) *)

Module Flip.
Import Reading.
Local Open Scope Q_scope.

(** No flip-back of a reset is waiting for its delay. *)
Definition onlyHighlights (st : state) : Prop :=
Forall (fun dt : Q * timer => snd dt = HighlightTimer) (timers st).

(** The flip of card [cardIndex], started at [startTime], is the one
    tween in flight; once it has changed the texture, the front shows
    it. *)
Definition flipping (cardIndex : nat) (texture : nat) (label : string)
  (startTime : Q) (flags : bool * bool) (st : state) : Prop :=
animating st = true
/\ exists startRotX textureChanged cardGroup,
     rafQueue st
     = [FlipTick cardIndex startRotX startTime (Some texture) textureChanged
                 label]
     /\ nth_error (cardMeshes st) cardIndex = Some cardGroup
     /\ flagsOf cardGroup = flags
     /\ (textureChanged = true -> frontMap cardGroup = Some texture).

(** The flip is over: the card is face up with its texture and its
    label, the flag is down and no tick of a flip or of a flip-back is
    requested. *)
Definition flipped (cardIndex : nat) (texture : nat) (label : string)
  (flags : bool * bool) (st : state) : Prop :=
animating st = false
/\ rafQueue st = []
/\ exists cardGroup,
     nth_error (cardMeshes st) cardIndex = Some cardGroup
     /\ rotationX cardGroup == 0
     /\ frontMap cardGroup = Some texture
     /\ flagsOf cardGroup = flags
     /\ (label <> ""%string -> textLabel cardGroup = Some label).

(** The events of a flip: the texture is there at [startTime], then the
    display frames. *)
Definition flipEvents (k : nat) (startTime : Q) (frames : list Q)
  : list (Q * event) :=
(startTime, TextureSettled k true) :: map (fun now => (now, Frame)) frames.

(** Card 0 has been clicked and its content is there; its texture is
    awaited. *)
Definition awaitingTexture : state :=
run [(0, Click 0); (10, FetchSettled 0 (Fetched (Some block1)))] createCards.
End Flip.

(** ** The states of the flip-back of a reset ([resetTarotReading]) *)

Module FlipBack.
Import Reading.
Local Open Scope Q_scope.

(** The card whose flip-back a timer starts, if it starts one. *)
Definition timerIndex (dt : Q * timer) : list nat :=
match snd dt with
| FlipBackTimer cardIndex _ _ => [cardIndex]
| HighlightTimer => []
end.

(** The card a flip-back tick turns. *)
Definition tickIndex (t : tick) : list nat :=
match t with
| FlipBackTick cardIndex _ _ => [cardIndex]
| FlipTick _ _ _ _ _ _ => []
end.

(** The cards whose flip-back promise is pending: those of the callbacks
    that are being run ([hand]), of the timers and of the requested
    frames. *)
Definition pending (hand : list nat) (st : state) : list nat :=
hand ++ flat_map timerIndex (timers st) ++ flat_map tickIndex (rafQueue st).











End FlipBack.

(** ** The pointer ([setupEventListeners], [gsapLikeScale])

    The listeners of the canvas container: the drag detection, the hover
    scale and the click.  What the ray cast hits, whether [animating] is
    set and the time are given with each event.  [object.scale] of the
    card groups and the [requestAnimationFrame] callbacks of
    [gsapLikeScale] are part of the state. *)

From Stdlib Require Import Qabs.

Module Pointer.
Import Tween.
Local Open Scope Q_scope.

(** [containerEl]: its bounding rectangle and its client size. *)
Record container : Set := mkContainer
  { rectLeft : Q; rectTop : Q; clientWidth : Q; clientHeight : Q }.

(** [intersects[0].object], if there is one: the link indicator of a card
    ([isArenaLink]; whether its [userData.arenaUrl] is set) or another mesh
    of a card group. *)
Inductive hit : Set :=
| NoHit
| ArenaLink (cardIndex : nat) (hasUrl : bool)
| CardMesh (cardIndex : nat).

(** The closure [updateScale] of one call of [gsapLikeScale]. *)
Record scaleTween : Set := mkScaleTween
  { object : nat; startScale : vec3; targetScale : vec3; startTime : Q }.

Record state : Set := mkState
  { isDragging : bool;
    mouseDownTime : Q;
    mouseDownPosition : Q * Q;
    mouse : Q * Q;
    hoveredCard : option nat;
    pointerCursor : bool;            (* style.cursor is 'pointer' *)
    scales : list vec3;              (* cardMeshes[i].scale *)
    rafQueue : list scaleTween }.

Definition setDragging (b : bool) (st : state) : state :=
mkState b (mouseDownTime st) (mouseDownPosition st) (mouse st)
        (hoveredCard st) (pointerCursor st) (scales st) (rafQueue st).

Definition setMouseDown (t : Q) (p : Q * Q) (st : state) : state :=
mkState (isDragging st) t p (mouse st)
        (hoveredCard st) (pointerCursor st) (scales st) (rafQueue st).

Definition setMouse (m : Q * Q) (st : state) : state :=
mkState (isDragging st) (mouseDownTime st) (mouseDownPosition st) m
        (hoveredCard st) (pointerCursor st) (scales st) (rafQueue st).

Definition setHovered (h : option nat) (st : state) : state :=
mkState (isDragging st) (mouseDownTime st) (mouseDownPosition st) (mouse st)
        h (pointerCursor st) (scales st) (rafQueue st).

Definition setCursor (pointer : bool) (st : state) : state :=
mkState (isDragging st) (mouseDownTime st) (mouseDownPosition st) (mouse st)
        (hoveredCard st) pointer (scales st) (rafQueue st).

Definition setScales (s : list vec3) (st : state) : state :=
mkState (isDragging st) (mouseDownTime st) (mouseDownPosition st) (mouse st)
        (hoveredCard st) (pointerCursor st) s (rafQueue st).

Definition setRafQueue (q : list scaleTween) (st : state) : state :=
mkState (isDragging st) (mouseDownTime st) (mouseDownPosition st) (mouse st)
        (hoveredCard st) (pointerCursor st) (scales st) q.

(** The mouse position in normalized device coordinates:
<<
    mouse.x = ((event.clientX - rect.left) / containerEl.clientWidth) * 2 - 1;
    mouse.y = -((event.clientY - rect.top) / containerEl.clientHeight) * 2 + 1;
>> *)
Definition toNDC (c : container) (clientX clientY : Q) : Q * Q :=
(((clientX - rectLeft c) / clientWidth c) * 2 - 1,
 - ((clientY - rectTop c) / clientHeight c) * 2 + 1).

(** One run of [updateScale], [Date.now()] being [now]. *)
Definition updateScale (tw : scaleTween) (now : Q) (st : state) : state :=
let duration := 200 in
let elapsed := now - startTime tw in
let progress := Qmin (elapsed / duration) 1 in
let st :=
  setScales
    (Reading.updateNth (object tw)
       (fun _ => Tween.updateScale (startScale tw) (targetScale tw) elapsed)
       (scales st))
    st in
if Qlt_le_dec progress 1
then setRafQueue (rafQueue st ++ [tw]) st
else st.

(** [gsapLikeScale(object, targetX, targetY, targetZ)] at [now]. *)
Definition gsapLikeScale (obj : nat) (targetX targetY targetZ : Q) (now : Q)
  (st : state) : state :=
match nth_error (scales st) obj with
| None => st
| Some scale =>
    updateScale (mkScaleTween obj scale (mkVec3 targetX targetY targetZ) now)
                now st
end.

(** [if (hoveredCard) { gsapLikeScale(hoveredCard, 1, 1, 1);
                       hoveredCard = null; }] *)
Definition resetHover (now : Q) (st : state) : state :=
match hoveredCard st with
| Some h => setHovered None (gsapLikeScale h 1 1 1 now st)
| None => st
end.

(** The drag detection of the [mousemove] listener. *)
Definition trackDrag (clientX clientY : Q) (st : state) : state :=
if Qle_bool (mouseDownTime st) 0 then st
else
  let dx := Qabs (clientX - fst (mouseDownPosition st)) in
  let dy := Qabs (clientY - snd (mouseDownPosition st)) in
  if negb (Qle_bool dx 5) || negb (Qle_bool dy 5)
  then setDragging true st
  else st.

(** The hover of the [mousemove] listener. *)
Definition hover (h : hit) (now : Q) (st : state) : state :=
match h with
| ArenaLink _ _ => resetHover now (setCursor true st)
| CardMesh intersectedGroup =>
    let st := setCursor true st in
    let st :=
      match hoveredCard st with
      | Some h' => if Nat.eqb h' intersectedGroup then st else resetHover now st
      | None => st
      end in
    match hoveredCard st with
    | Some _ => st
    | None =>
        gsapLikeScale intersectedGroup (102 # 100) (102 # 100) (102 # 100) now
                      (setHovered (Some intersectedGroup) st)
    end
| NoHit => resetHover now (setCursor false st)
end.

Definition mousedown (clientX clientY : Q) (now : Q) (st : state) : state :=
setDragging false (setMouseDown now (clientX, clientY) st).

Definition mousemove (c : container) (animating : bool) (clientX clientY : Q)
  (h : hit) (now : Q) (st : state) : state :=
if animating then st
else
  let st := trackDrag clientX clientY st in
  let st := setMouse (toNDC c clientX clientY) st in
  hover h now st.

(** What [clickHandler] does with the card. *)
Inductive action : Set :=
| NoAction
| OpenLink (cardIndex : nat)       (* window.open(arenaUrl, '_blank') *)
| FlipCard (cardIndex : nat).      (* flipCard(cardIndex) *)

Definition clickHandler (c : container) (animating : bool)
  (clientX clientY : Q) (h : hit) (st : state) : action * state :=
if animating then (NoAction, st)
else
  let st := setMouse (toNDC c clientX clientY) st in
  match h with
  | NoHit => (NoAction, st)
  | ArenaLink cardIndex true => (OpenLink cardIndex, st)
  | ArenaLink cardIndex false => (FlipCard cardIndex, st)
  | CardMesh cardIndex => (FlipCard cardIndex, st)
  end.

(** [!isDragging && clickDuration < 300] of the [mouseup] listener. *)
Definition isClick (now : Q) (st : state) : bool :=
let clickDuration := now - mouseDownTime st in
negb (isDragging st) && negb (Qle_bool 300 clickDuration).

Definition mouseup (c : container) (animating : bool) (clientX clientY : Q)
  (h : hit) (now : Q) (st : state) : action * state :=
let (a, st') :=
  if isClick now st then clickHandler c animating clientX clientY h st
  else (NoAction, st) in
(a, setDragging false (setMouseDown 0 (mouseDownPosition st') st')).

Definition mouseleave (now : Q) (st : state) : state :=
let st := resetHover now st in
let st := setCursor false st in
setDragging false (setMouseDown 0 (mouseDownPosition st) st).

(** A display frame: the [updateScale] callbacks that were requested run,
    in order. *)
Definition frame (now : Q) (st : state) : state :=
fold_left (fun st tw => updateScale tw now st) (rafQueue st)
          (setRafQueue [] st).

Inductive event : Set :=
| MouseDown (clientX clientY : Q)
| MouseMove (animating : bool) (clientX clientY : Q) (h : hit)
| MouseUp (animating : bool) (clientX clientY : Q) (h : hit)
| MouseLeave
| Frame.

Definition handle (c : container) (st : state) (timed : Q * event) : state :=
let now := fst timed in
match snd timed with
| MouseDown clientX clientY => mousedown clientX clientY now st
| MouseMove animating clientX clientY h =>
    mousemove c animating clientX clientY h now st
| MouseUp animating clientX clientY h =>
    snd (mouseup c animating clientX clientY h now st)
| MouseLeave => mouseleave now st
| Frame => frame now st
end.

Definition run (c : container) (events : list (Q * event)) (st : state)
  : state :=
fold_left (handle c) events st.

(** The globals as the script declares them, with [n] card groups at
    scale 1. *)
Definition init (n : nat) : state :=
mkState false 0 (0, 0) (0, 0) None false (repeat (mkVec3 1 1 1) n) [].

(** *** What the properties are stated with *)

Definition sameScale (a b : vec3) : Prop :=
x a == x b /\ y a == y b /\ z a == z b.

Definition uniform (s : Q) : vec3 := mkVec3 s s s.

(** The scale the hover asks of card [i]. *)
Definition wanted (st : state) (i : nat) : Q :=
match hoveredCard st with
| Some h => if Nat.eqb h i then 102 # 100 else 1
| None => 1
end.

(** The tween of card [i] that was requested last. *)
Fixpoint lastTweenOf (i : nat) (q : list scaleTween) : option scaleTween :=
match q with
| [] => None
| tw :: q' =>
    match lastTweenOf i q' with
    | Some t => Some t
    | None => if Nat.eqb (object tw) i then Some tw else None
    end
end.

(** [updateScale] asks for another frame at [now]. *)
Definition running (now : Q) (tw : scaleTween) : bool :=
if Qlt_le_dec (Qmin ((now - startTime tw) / 200) 1) 1 then true else false.

(** The events come in the order of their times, from [t] on. *)
Fixpoint ascendingFrom (t : Q) (events : list (Q * event)) : Prop :=
match events with
| [] => True
| (now, _) :: events' => t <= now /\ ascendingFrom now events'
end.

(** The ray cast hits the meshes of the [n] card groups only. *)
Definition validHit (n : nat) (h : hit) : Prop :=
match h with
| NoHit => True
| ArenaLink i _ => (i < n)%nat
| CardMesh i => (i < n)%nat
end.

Definition validEvent (n : nat) (e : event) : Prop :=
match e with
| MouseMove _ _ _ h => validHit n h
| MouseUp _ _ _ h => validHit n h
| _ => True
end.

(** The scales and the tweens between two events, no tween having
    started after [t]: the last tween requested for a card leads to the
    scale [want] has for it, and no tween of the card started after it; a
    card without a tween has that scale. *)
Definition scale_inv (want : nat -> Q) (t : Q) (st : state) : Prop :=
(forall tw, In tw (rafQueue st) -> startTime tw <= t)
/\ forall i s,
     nth_error (scales st) i = Some s ->
     match lastTweenOf i (rafQueue st) with
     | Some tw =>
         targetScale tw = uniform (want i)
         /\ forall tw', In tw' (rafQueue st) -> object tw' = i ->
                        startTime tw' <= startTime tw
     | None => sameScale s (uniform (want i))
     end.

(** The hover state between two events: the hovered card is one of the
    [n] cards, and the scales and the tweens are those the hover asks
    for. *)
Definition hover_inv (n : nat) (t : Q) (st : state) : Prop :=
List.length (scales st) = n
/\ (forall h, hoveredCard st = Some h -> (h < n)%nat)
/\ scale_inv (wanted st) t st.

(** What [updateScale] writes at [now]. *)
Definition scaleAt (tw : scaleTween) (now : Q) : vec3 :=
Tween.updateScale (startScale tw) (targetScale tw) (now - startTime tw).

(** The pointer moves over card 1, then over card 2, and leaves; frames
    in between. *)
Definition hoverTwoCards : list (Q * event) :=
[(1000, MouseMove false 300 200 (CardMesh 1)); (1016, Frame);
 (1100, MouseMove false 400 200 (CardMesh 2)); (1116, Frame);
 (1150, MouseMove false 400 210 (CardMesh 2)); (1160, MouseLeave);
 (1176, Frame)].

(** The fields of the drag detection. *)
Definition gesture (st : state) : bool * Q * (Q * Q) :=
(isDragging st, mouseDownTime st, mouseDownPosition st).

(** What comes between a press and its release: moves and frames. *)
Definition moveOrFrame (e : event) : Prop :=
match e with
| MouseMove _ _ _ _ | Frame => True
| _ => False
end.

(** The move is taken for a drag of a press at ([x0], [y0]). *)
Definition dragMove (x0 y0 : Q) (e : event) : bool :=
match e with
| MouseMove false clientX clientY _ =>
    negb (Qle_bool (Qabs (clientX - x0)) 5)
    || negb (Qle_bool (Qabs (clientY - y0)) 5)
| _ => false
end.

(** Moves of at most 3 pixels over card 1, with a frame in between. *)
Definition smallMoves : list (Q * event) :=
[(1010, MouseMove false 102 101 (CardMesh 1)); (1016, Frame);
 (1050, MouseMove false 103 100 (CardMesh 1))].
End Pointer.

(** ** The sphere of the shuffle cards ([createShuffleAnimation])

    [Math.acos], [Math.sqrt], [Math.sin] and [Math.cos] are the real
    functions. *)

Module Sphere.
Local Open Scope R_scope.

Definition numShuffleCards : nat := 60.

(** [Math.acos(-1 + (2 * i) / numShuffleCards)]. *)
Definition phi (i : nat) : R := acos (-1 + (2 * INR i) / INR numShuffleCards).

(** [Math.sqrt(numShuffleCards * Math.PI) * phi]. *)
Definition theta (i : nat) : R := sqrt (INR numShuffleCards * PI) * phi i.

Definition radius : R := 20.

(** [cardGroup.position.set(...)] of card [i]. *)
Definition position (i : nat) : R * R * R :=
(radius * sin (phi i) * cos (theta i),
 radius * cos (phi i),
 radius * sin (phi i) * sin (theta i)).

(** The square of [card.position.length()]. *)
Definition lengthSq (p : R * R * R) : R :=
let '(x, y, z) := p in x * x + y * y + z * z.
End Sphere.

(** ** The phases of the cosmic shuffle ([animateCosmicShuffle],
    [moveSelectedCardsToPosition], [createCards])

    The flag, the lengths of [shuffleCards] and of [cardMeshes], the scale
    of the shuffle cards while they appear, the counter
    [animationsComplete] of the move and the pending callbacks: the tick
    of the appearance, and, from the selection on, the flip to the back
    of each kept card, the fly-away of each card that is not kept and the
    move of each kept card.  What the ticks write to the positions, the
    rotations and the scales of the single cards is left out, and so is
    the render loop [animate], which asks for a frame at every frame; one
    shuffle runs at a time. *)

Module Shuffle.
Local Open Scope Q_scope.

Inductive tick : Set :=
| AppearTick (appearStartTime : Q)
| FlipToBackTick (flipStartTime : Q)
| FlyAwayTick (flyDuration flyStartTime : Q)
| MoveTick (posIndex : nat) (moveStartTime : Q) (totalCards : nat).

Record state : Set := mkState
  { animating : bool;
    shuffleCards : nat;
    cardMeshes : nat;
    scale : Q;
    animationsComplete : nat;
    uiVisible : bool;
    rafQueue : list tick;
    timers : list Q;        (* the due times of [selectAndPlaceFourCards] *)
    random : nat -> Q }.    (* what [Math.random()] returns, in the shuffle
                               that is running, for the duration of the
                               fly-away of the [j]-th card that is not
                               kept *)

Definition setAnimating (b : bool) (st : state) : state :=
mkState b (shuffleCards st) (cardMeshes st) (scale st)
        (animationsComplete st) (uiVisible st) (rafQueue st) (timers st)
        (random st).

Definition setShuffleCards (n : nat) (st : state) : state :=
mkState (animating st) n (cardMeshes st) (scale st)
        (animationsComplete st) (uiVisible st) (rafQueue st) (timers st)
        (random st).

Definition setCardMeshes (n : nat) (st : state) : state :=
mkState (animating st) (shuffleCards st) n (scale st)
        (animationsComplete st) (uiVisible st) (rafQueue st) (timers st)
        (random st).

Definition setScale (s : Q) (st : state) : state :=
mkState (animating st) (shuffleCards st) (cardMeshes st) s
        (animationsComplete st) (uiVisible st) (rafQueue st) (timers st)
        (random st).

Definition setAnimationsComplete (n : nat) (st : state) : state :=
mkState (animating st) (shuffleCards st) (cardMeshes st) (scale st)
        n (uiVisible st) (rafQueue st) (timers st) (random st).

Definition showUIElements (st : state) : state :=
mkState (animating st) (shuffleCards st) (cardMeshes st) (scale st)
        (animationsComplete st) true (rafQueue st) (timers st) (random st).

Definition setRafQueue (q : list tick) (st : state) : state :=
mkState (animating st) (shuffleCards st) (cardMeshes st) (scale st)
        (animationsComplete st) (uiVisible st) q (timers st) (random st).

Definition setTimers (ts : list Q) (st : state) : state :=
mkState (animating st) (shuffleCards st) (cardMeshes st) (scale st)
        (animationsComplete st) (uiVisible st) (rafQueue st) ts (random st).

Definition requestAnimationFrame (t : tick) (st : state) : state :=
setRafQueue (rafQueue st ++ [t]) st.

Definition setTimeout (due : Q) (st : state) : state :=
setTimers (timers st ++ [due]) st.

(** [createCards()]: four card groups are pushed, the flag is lowered. *)
Definition createCards (st : state) : state :=
setAnimating false (setCardMeshes (cardMeshes st + 4) st).

(** [appearAnimation], [Date.now()] being [now]. *)
Definition appearAnimation (appearStartTime : Q) (now : Q) (st : state)
  : state :=
let appearDuration := 3000 in
let elapsed := now - appearStartTime in
let progress := Qmin (elapsed / appearDuration) 1 in
let easedProgress := 1 - (1 - progress) ^ 3 in
let st := setScale ((1 # 100) + easedProgress * (99 # 100)) st in
if Qlt_le_dec progress 1
then requestAnimationFrame (AppearTick appearStartTime) st
else setTimeout (now + 300) st.

(** [animateCosmicShuffle()] at [now]. *)
Definition animateCosmicShuffle (now : Q) (st : state) : state :=
appearAnimation now now (setAnimating true st).

(** [createShuffleAnimation()] at [now]: sixty cards are pushed. *)
Definition createShuffleAnimation (now : Q) (st : state) : state :=
animateCosmicShuffle now (setShuffleCards (shuffleCards st + 60) st).

(** [updateFlip] of [animateCardFlipToBack] (lines 1441-1454): it asks
    for frames for 800 ms and has no completion branch. *)
Definition updateFlip (flipStartTime : Q) (now : Q) (st : state) : state :=
let flipDuration := 800 in
let elapsed := now - flipStartTime in
let progress := Qmin (elapsed / flipDuration) 1 in
if Qlt_le_dec progress 1
then requestAnimationFrame (FlipToBackTick flipStartTime) st
else st.

(** [animateCardFlipToBack(cardMesh)] at [now]. *)
Definition animateCardFlipToBack (now : Q) (st : state) : state :=
updateFlip now now st.

(** [flyAway] of [flyAwayCard] (lines 1477-1509): at its end the card is
    removed from the scene, and there is no callback. *)
Definition flyAway (flyDuration flyStartTime : Q) (now : Q) (st : state)
  : state :=
let elapsed := now - flyStartTime in
let progress := Qmin (elapsed / flyDuration) 1 in
if Qlt_le_dec progress 1
then requestAnimationFrame (FlyAwayTick flyDuration flyStartTime) st
else st.

(** [flyAwayCard(card)] at [now], for the [j]-th card of
    [cardsToRemove]. *)
Definition flyAwayCard (j : nat) (now : Q) (st : state) : state :=
let flyDuration := 500 + random st j * 200 in
flyAway flyDuration now now st.

(** [moveToPosition] of the card at [posIndex]. *)
Definition moveToPosition (posIndex : nat) (moveStartTime : Q)
  (totalCards : nat) (now : Q) (st : state) : state :=
let moveDuration := 600 in
let elapsed := now - moveStartTime in
let progress := Qmin (elapsed / moveDuration) 1 in
if Qlt_le_dec progress 1
then requestAnimationFrame (MoveTick posIndex moveStartTime totalCards) st
else
  let st := setAnimationsComplete (S (animationsComplete st)) st in
  if (totalCards <=? animationsComplete st)%nat
  then
    let st := createCards st in
    let st := setShuffleCards 0 st in
    let st := setAnimating false st in
    showUIElements st
  else st.

(** [moveSelectedCardsToPosition(selectedCards)] at [now]. *)
Definition moveSelectedCardsToPosition (totalCards : nat) (now : Q)
  (st : state) : state :=
fold_left (fun st i => moveToPosition i now totalCards now st)
          (seq 0 totalCards) (setAnimationsComplete 0 st).

(** [selectAndPlaceFourCards()] at [now] (lines 1378-1432): as many cards
    are kept as the loop finds, four at most, and the flip to the back of
    each is started in the loop; then the fly-away of every other card;
    then the moves of the kept cards. *)
Definition selectAndPlaceFourCards (now : Q) (st : state) : state :=
let numCardsToKeep := 4%nat in
let cardsToKeep := Nat.min numCardsToKeep (shuffleCards st) in
let cardsToRemove := (shuffleCards st - cardsToKeep)%nat in
let st := fold_left (fun st _ => animateCardFlipToBack now st)
                    (seq 0 cardsToKeep) st in
let st := fold_left (fun st j => flyAwayCard j now st)
                    (seq 0 cardsToRemove) st in
moveSelectedCardsToPosition cardsToKeep now st.

Definition runTick (now : Q) (st : state) (t : tick) : state :=
match t with
| AppearTick appearStartTime => appearAnimation appearStartTime now st
| FlipToBackTick flipStartTime => updateFlip flipStartTime now st
| FlyAwayTick flyDuration flyStartTime =>
    flyAway flyDuration flyStartTime now st
| MoveTick posIndex moveStartTime totalCards =>
    moveToPosition posIndex moveStartTime totalCards now st
end.

(** The timers that are due at [now] fire, each at its due time. *)
Definition fireTimers (now : Q) (st : state) : state :=
fold_left (fun st due => selectAndPlaceFourCards due st)
          (filter (fun due => Qle_bool due now) (timers st))
          (setTimers (filter (fun due => negb (Qle_bool due now)) (timers st))
                     st).

(** A display frame at [now], after the timers that were due by then. *)
Definition frame (st : state) (now : Q) : state :=
let st := fireTimers now st in
fold_left (runTick now) (rafQueue st) (setRafQueue [] st).

Definition run (frames : list Q) (st : state) : state :=
fold_left frame frames st.

(** The [then] of [fetchRandomContent()] at the end of a reset:
<<
    if (showShuffleAgain) { ...; createShuffleAnimation(); }
    else { ...; createCards(); }
    animating = false;
>> *)
Definition afterRefetch (showShuffleAgain : bool) (now : Q) (st : state)
  : state :=
let st := if showShuffleAgain then createShuffleAnimation now st
          else createCards st in
setAnimating false st.

(** The page as it is loaded, every fly-away drawing one half. *)
Definition init : state := mkState false 0 0 0 0 false [] [] (fun _ => 1 # 2).

(** [Math.random()] returns a value in [0, 1). *)
Definition randomInRange (st : state) : Prop :=
forall j, 0 <= random st j /\ random st j < 1.

(** The four ticks of a move that started at [start]. *)
Definition moveTicks (start : Q) : list tick :=
map (fun i => MoveTick i start 4) (seq 0 4).

(** A tick that the selection at [start] started and that does not count
    for the hand-over: a flip to the back, or a fly-away, which takes
    700 ms at most. *)
Definition leftover (start : Q) (t : tick) : Prop :=
match t with
| FlipToBackTick flipStartTime => flipStartTime = start
| FlyAwayTick flyDuration flyStartTime =>
    flyStartTime = start /\ 0 < flyDuration /\ flyDuration <= 700
| AppearTick _ => False
| MoveTick _ _ _ => False
end.

(** The phases of the shuffle that [createShuffleAnimation] started at
    [t0] with [k0] cards on the table, after the frames [seen]; [ok] holds
    of the time at which the cards are selected. *)
Inductive phase_inv (t0 : Q) (k0 : nat) (ok : Q -> Prop) (seen : list Q)
  (st : state) : Prop :=
| Appearing :
    animating st = true -> cardMeshes st = k0 ->
    (4 <= shuffleCards st)%nat ->
    rafQueue st = [AppearTick t0] -> timers st = [] ->
    randomInRange st ->
    Forall (fun now => now < t0 + 3000) seen ->
    phase_inv t0 k0 ok seen st
| Waiting (due : Q) :
    animating st = true -> cardMeshes st = k0 ->
    (4 <= shuffleCards st)%nat ->
    rafQueue st = [] -> timers st = [due] ->
    randomInRange st ->
    t0 + 3300 <= due -> ok due -> scale st == 1 ->
    phase_inv t0 k0 ok seen st
| Moving (start : Q) (others : list tick) :
    animating st = true -> cardMeshes st = k0 ->
    rafQueue st = others ++ moveTicks start ->
    Forall (leftover start) others -> timers st = [] ->
    animationsComplete st = 0%nat ->
    t0 + 3300 <= start -> ok start ->
    phase_inv t0 k0 ok seen st
| Done (start : Q) :
    animating st = false -> cardMeshes st = (k0 + 4)%nat ->
    shuffleCards st = 0%nat -> uiVisible st = true ->
    Forall (leftover start) (rafQueue st) -> timers st = [] ->
    Exists (fun now => t0 + 3900 <= now) seen ->
    t0 + 3300 <= start -> ok start ->
    phase_inv t0 k0 ok seen st.

End Shuffle.


(** ** The children of a card group ([createLabelForCard],
    [resetTarotReading])

    The clean-up loops
<<
    cardGroup.children.forEach(child => {
        if (child.isTextLabel || child.isArenaLink) {
            cardGroup.remove(child);
        }
    });
>>
    remove children of the array they iterate over.  [forEach] visits the
    indices from 0 to the length the array had at the start, skipping
    those that are no longer there; [remove] takes the child out of the
    array, and the children after it move down by one. *)

Module Children.

(** A child of a card group: the card mesh, a label mesh ([isTextLabel])
    or a link indicator ([isArenaLink]). *)
Inductive child : Set :=
| CardFace
| TextLabel (text : string)
| LinkIcon (arenaUrl : nat).

(** [child.isTextLabel || child.isArenaLink] ([createLabelForCard]). *)
Definition isLabelOrLink (c : child) : bool :=
match c with
| CardFace => false
| TextLabel _ | LinkIcon _ => true
end.

(** [child.isTextLabel] ([resetTarotReading]). *)
Definition isTextLabel (c : child) : bool :=
match c with
| TextLabel _ => true
| _ => false
end.

(** The loop, from index [k] on, [remaining] indices being left. *)
Fixpoint forEachRemove (marked : child -> bool) (remaining k : nat)
  (children : list child) : list child :=
match remaining with
| O => children
| S remaining' =>
    match nth_error children k with
    | None => forEachRemove marked remaining' (S k) children
    | Some c =>
        if marked c
        then forEachRemove marked remaining' (S k)
                           (Reading.removeNth k children)
        else forEachRemove marked remaining' (S k) children
    end
end.

Definition cleanup (marked : child -> bool) (children : list child)
  : list child :=
forEachRemove marked (List.length children) 0 children.

(** What the loop amounts to: the child after a removed one is not
    looked at. *)
Fixpoint skipping (marked : child -> bool) (children : list child)
  : list child :=
match children with
| [] => []
| c :: rest =>
    if marked c
    then match rest with
         | [] => []
         | d :: rest' => d :: skipping marked rest'
         end
    else c :: skipping marked rest
end.

(** [createLabelForCard(cardGroup, text)] on the children: the clean-up,
    the new label and, if [arenaUrl] is set, the new link indicator. *)
Definition createLabelForCard (text : string) (arenaUrl : option nat)
  (children : list child) : list child :=
let children := cleanup isLabelOrLink children in
let children := children ++ [TextLabel text] in
match arenaUrl with
| Some url => children ++ [LinkIcon url]
| None => children
end.
End Children.
(** ** The fly-away of the cards that are not kept ([flyAwayCard]) *)

Module FlyAway.
Import Easing Tween.
Local Open Scope Q_scope.

(** [targetPos] over the rationals, [rx], [ry] and [rz] being the values
    of [Math.random()]:
<<
    x: (Math.random() - 0.5) * 30,
    y: -10 - Math.random() * 5,
    z: (Math.random() - 0.5) * 30
>> *)
Definition targetPos (rx ry rz : Q) : vec3 :=
mkVec3 ((rx - (1 # 2)) * 30) (-10 - ry * 5) ((rz - (1 # 2)) * 30).

(** [progress < 1] fails: the card is removed from the scene. *)
Definition removed (flyDuration elapsed : Q) : bool :=
if Qlt_le_dec (Qmin (elapsed / flyDuration) 1) 1 then false else true.

(** *** In doubles

    [flyAwayCard] (lines 1460-1513) with the arithmetic of the program. *)

Module InDoubles.
Local Open Scope float_scope.

Record position : Set := mkPosition { x : float; y : float; z : float }.

(** The largest value [Math.random()] can return: the double below 1. *)
Definition lastRandom : float := 0x1.fffffffffffffp-1.

(** [500 + Math.random() * 200]. *)
Definition flyDuration (r : float) : float := 500 + r * 200.

Definition targetPos (rx ry rz : float) : position :=
mkPosition ((rx - 0.5) * 30) (-10 - ry * 5) ((rz - 0.5) * 30).

(** The body of [flyAway] once [progress] is known: what it writes to
    [card.position] and to the three components of [card.scale]. *)
Definition flyAwayAt (startPos targetPos : position) (progress : float)
  : position * float :=
let easedProgress :=
  if PrimFloat.ltb progress 0.5
  then 4 * progress * progress * progress
  else 1 - (-2 * progress + 2) * (-2 * progress + 2) * (-2 * progress + 2) / 2 in
let fadeScale := 1 - easedProgress * 0.8 in
(mkPosition (x startPos + (x targetPos - x startPos) * easedProgress)
            (y startPos + (y targetPos - y startPos) * easedProgress)
            (z startPos + (z targetPos - z startPos) * easedProgress),
 fadeScale).

(** One run of [flyAway] when [Date.now() - flyStartTime] is [elapsed]:
    the position and the scale it writes, and whether it removes the card
    (the [else] of [if (progress < 1)]). *)
Definition flyAway (startPos targetPos : position) (flyDuration elapsed : float)
  : position * float * bool :=
let progress := Double.min (elapsed / flyDuration) 1 in
(flyAwayAt startPos targetPos progress, negb (PrimFloat.ltb progress 1)).
End InDoubles.
End FlyAway.

(* ================================================================== *)
(** * Part II: properties *)
(* ================================================================== *)

(** ** Tween values *)

Section TweenValues.
Import Easing Tween.
Local Open Scope Q_scope.

Lemma progressOf_sample (t duration : Q) :
  0 < duration -> t <= 1 -> progressOf (t * duration) duration == t.
Proof.
  intros Hd Ht. unfold progressOf.
  assert (E : t * duration / duration == t) by (field; lra).
  rewrite E. apply Q.min_l. exact Ht.
Qed.

Lemma progressOf_le_1 (elapsed duration : Q) :
  progressOf elapsed duration <= 1.
Proof. unfold progressOf. apply Q.le_min_r. Qed.

Lemma progressOf_done (elapsed duration : Q) :
  0 < duration -> duration <= elapsed -> progressOf elapsed duration == 1.
Proof.
  intros Hd He. unfold progressOf. apply Q.min_r.
  apply Qle_shift_div_l; lra.
Qed.

Lemma progressOf_running (elapsed duration : Q) :
  0 < duration -> elapsed < duration ->
  progressOf elapsed duration == elapsed / duration /\
  progressOf elapsed duration < 1.
Proof.
  intros Hd He.
  assert (L : elapsed / duration < 1) by (apply Qlt_shift_div_r; lra).
  unfold progressOf. rewrite Q.min_l by lra. split; [reflexivity | exact L].
Qed.

#[local] Instance easeOutCubic_compat : Proper (Qeq ==> Qeq) easeOutCubic.
Proof. intros p q E. unfold easeOutCubic. rewrite E. reflexivity. Qed.

#[local] Instance easeOutQuad_compat : Proper (Qeq ==> Qeq) easeOutQuad.
Proof. intros p q E. unfold easeOutQuad. rewrite E. reflexivity. Qed.

#[local] Instance easeInOutQuad_compat : Proper (Qeq ==> Qeq) easeInOutQuad.
Proof.
  intros p q E. unfold easeInOutQuad.
  destruct (Qlt_le_dec p (1 # 2)), (Qlt_le_dec q (1 # 2));
    try (rewrite E; reflexivity); lra.
Qed.

#[local] Instance easeInOutCubic_compat : Proper (Qeq ==> Qeq) easeInOutCubic.
Proof.
  intros p q E. unfold easeInOutCubic.
  destruct (Qlt_le_dec p (1 # 2)), (Qlt_le_dec q (1 # 2));
    try (rewrite E; reflexivity); lra.
Qed.

#[local] Instance ease_compat (e : easing) : Proper (Qeq ==> Qeq) (ease e).
Proof.
  destruct e; simpl; try typeclasses eauto.
  intros p q E. exact E.
Qed.

Lemma valueAt_sample (e : easing) (start target duration t : Q) :
  0 < duration -> t <= 1 ->
  valueAt e start target duration (t * duration)
  == start + (target - start) * ease e t.
Proof.
  intros Hd Ht. unfold valueAt, interpolate.
  rewrite (progressOf_sample t duration Hd Ht). reflexivity.
Qed.

(** The ticks of the file are instances of [valueAt]. *)
Lemma updateScale_valueAt (s g : vec3) (elapsed : Q) :
  updateScale s g elapsed =
  mkVec3 (valueAt EaseOutQuad (x s) (x g) 200 elapsed)
         (valueAt EaseOutQuad (y s) (y g) 200 elapsed)
         (valueAt EaseOutQuad (z s) (z g) 200 elapsed).
Proof. reflexivity. Qed.

Lemma updateCardPosition_valueAt (startY elapsed : Q) :
  updateCardPosition startY elapsed = valueAt EaseOutCubic startY 0 600 elapsed.
Proof. reflexivity. Qed.

Lemma updateCardRotation_valueAt (startRotX elapsed : Q) :
  updateCardRotation startRotX elapsed
  = valueAt EaseInOutQuad startRotX 0 800 elapsed.
Proof. reflexivity. Qed.

Lemma update_calls (tw : tween) (now : Q) (d : driver) :
  exists rest,
    calls (update tw now d)
    = calls d ++ OnUpdate (valueAt (tEasing tw) (tStart tw) (tTarget tw)
                                   (tDuration tw) (now - tStartTime tw))
              :: rest.
Proof.
  unfold update, valueAt, interpolate, progressOf.
  destruct (Qlt_le_dec _ 1).
  - exists []. reflexivity.
  - exists [OnComplete]. simpl. rewrite <- app_assoc. reflexivity.
Qed.

(** C1. For a tween of positive duration and a sample [t] of [0,1], the
    tick that runs at [elapsed = t * duration] passes
    [start + (target - start) * easing t] to its update; the ticks of
    [gsapLikeScale] and [animateCardsEntry] are such tweens; and
    [tween(0, 100, 1000, ease-out-quad)] gives 75 at 500 ms and 100 at
    1000 ms. *)
Theorem tween_value_at_sample :
  forall (e : easing) (start target duration startTime t : Q) (d : driver),
    0 < duration -> 0 <= t -> t <= 1 -> queued d = true ->
    let tw := mkTween e start target duration startTime in
    (exists v rest,
        calls (frame tw d (startTime + t * duration))
        = calls d ++ OnUpdate v :: rest
        /\ v == start + (target - start) * ease e t)
    /\ valueAt e start target duration (t * duration)
       == start + (target - start) * ease e t
    /\ (forall s g,
           x (updateScale s g (t * 200))
           == x s + (x g - x s) * easeOutQuad t)
    /\ updateCardPosition start (t * 600)
       == start + (0 - start) * easeOutCubic t
    /\ valueAt EaseOutQuad 0 100 1000 500 == 75
    /\ valueAt EaseOutQuad 0 100 1000 1000 == 100.
Proof.
  intros e start target duration startTime t d Hd Ht0 Ht1 Hq tw.
  split; [| split; [| split; [| split; [| split]]]].
  - unfold frame. rewrite Hq.
    destruct (update_calls tw (startTime + t * duration) (mkDriver false (calls d)))
      as [rest Hrest].
    eexists; exists rest. split; [exact Hrest |].
    simpl.
    assert (E : startTime + t * duration - startTime == t * duration) by ring.
    unfold valueAt, interpolate, progressOf. rewrite E.
    fold (progressOf (t * duration) duration).
    rewrite (progressOf_sample t duration Hd Ht1). reflexivity.
  - apply valueAt_sample; assumption.
  - intros s g. rewrite updateScale_valueAt. simpl.
    apply (valueAt_sample EaseOutQuad); [reflexivity | assumption].
  - rewrite updateCardPosition_valueAt.
    apply (valueAt_sample EaseOutCubic); [reflexivity | assumption].
  - vm_compute. reflexivity.
  - vm_compute. reflexivity.
Qed.

Lemma tween_value_at_sample_witness :
  Tween.valueAt EaseOutQuad 0 100 1000 ((1 # 2) * 1000)
  == 0 + (100 - 0) * easeOutQuad (1 # 2).
Proof.
  refine (proj1 (proj2 (tween_value_at_sample EaseOutQuad 0 100 1000 0 (1 # 2)
                          (mkDriver true []) _ _ _ _))).
  - reflexivity.
  - discriminate.
  - discriminate.
  - reflexivity.
Defined.
End TweenValues.

(** ** Endpoints of the easings *)

Section EasingEndpoints.
Import Easing.

Lemma oscillation_vanishes_at_1 : Label.oscillation 1 = 0%R.
Proof. unfold Label.oscillation. ring. Qed.

Lemma easedProgress_at_1 : Label.easedProgress 1 = 1%R.
Proof.
  unfold Label.easedProgress.
  replace (1 * PI / 2)%R with (PI / 2)%R by field.
  exact sin_PI2.
Qed.

(** C7. Every easing of the file maps 0 to 0 and 1 to 1; the
    oscillating-appear easing is 1 at 1 because its oscillation term
    [0.2 * sin 10 * 0] is 0 there. *)
Theorem easing_endpoints :
  (easeOutCubic 0 == 0 /\ easeOutCubic 1 == 1)%Q
  /\ (easeInOutQuad 0 == 0 /\ easeInOutQuad 1 == 1)%Q
  /\ (easeOutQuad 0 == 0 /\ easeOutQuad 1 == 1)%Q
  /\ (easeInOutCubic 0 == 0 /\ easeInOutCubic 1 == 1)%Q
  /\ (forall e, Tween.ease e 0 == 0 /\ Tween.ease e 1 == 1)%Q
  /\ (0.2 * sin (1 * 10) * (1 - 1) = 0)%R
  /\ Label.oscillation 1 = 0%R
  /\ Label.oscillatingAppear 1 = 1%R
  /\ Label.oscillatingAppear 0 = 0%R
  /\ Label.updateLabelOpacity 1000 = 1%R.
Proof.
  repeat split; try (vm_compute; reflexivity).
  - destruct e; vm_compute; reflexivity.
  - destruct e; vm_compute; reflexivity.
  - ring.
  - exact oscillation_vanishes_at_1.
  - unfold Label.oscillatingAppear.
    rewrite easedProgress_at_1, oscillation_vanishes_at_1. ring.
  - unfold Label.oscillatingAppear, Label.easedProgress, Label.oscillation.
    replace (0 * PI / 2)%R with 0%R by field.
    replace (0 * 10)%R with 0%R by ring.
    rewrite sin_0. ring.
  - unfold Label.updateLabelOpacity.
    replace (1000 / 1000)%R with 1%R by field.
    rewrite Rmin_left by lra.
    fold (Label.easedProgress 1). fold (Label.oscillation 1).
    rewrite easedProgress_at_1, oscillation_vanishes_at_1. ring.
Qed.
End EasingEndpoints.

(** ** The driver completes once *)

Section Driver.
Import Tween.
Local Open Scope Q_scope.

Variable tw : tween.

#[local] Abbreviation reached := (Tween.reached tw).
#[local] Abbreviation driver_inv := (Tween.driver_inv tw).

Lemma completions_app (q q' : bool) (cs cs' : list call) :
  completions (mkDriver q (cs ++ cs'))
  = (completions (mkDriver q' cs) + List.length (filter isComplete cs'))%nat.
Proof. unfold completions. simpl. rewrite filter_app, length_app. reflexivity. Qed.

Lemma update_running (now : Q) (d : driver) :
  ~ reached now ->
  queued (update tw now d) = true
  /\ completions (update tw now d) = completions d.
Proof.
  intros Hr. unfold update.
  destruct (Qlt_le_dec _ 1) as [Hlt | Hge].
  - split; [reflexivity |].
    unfold requestAnimationFrame, emit. simpl.
    rewrite (completions_app _ (queued d)). simpl.
    destruct d; simpl. lia.
  - exfalso. apply Hr. exact Hge.
Qed.

Lemma update_reached (now : Q) (d : driver) :
  reached now ->
  queued (update tw now d) = queued d
  /\ completions (update tw now d) = S (completions d).
Proof.
  intros Hr. unfold update.
  destruct (Qlt_le_dec _ 1) as [Hlt | Hge].
  - exfalso. unfold reached, progressOf in Hr. lra.
  - split; [reflexivity |].
    unfold emit. simpl. rewrite <- app_assoc.
    rewrite (completions_app _ (queued d)). simpl.
    destruct d; simpl. lia.
Qed.

Lemma reached_dec (now : Q) : {reached now} + {~ reached now}.
Proof.
  unfold reached.
  destruct (Qlt_le_dec (progressOf (now - tStartTime tw) (tDuration tw)) 1).
  - right. lra.
  - left. assumption.
Qed.

Lemma update_inv (now : Q) (cs : list call) :
  completions (mkDriver false cs) = 0%nat ->
  driver_inv [now] (update tw now (mkDriver false cs)).
Proof.
  intros H0. destruct (reached_dec now) as [Hr | Hr].
  - destruct (update_reached now (mkDriver false cs) Hr) as [Hq Hc].
    apply Finished; [exact Hq | rewrite Hc, H0; reflexivity |].
    constructor. exact Hr.
  - destruct (update_running now (mkDriver false cs) Hr) as [Hq Hc].
    apply Running; [exact Hq | rewrite Hc; exact H0 |].
    constructor; [exact Hr | constructor].
Qed.

Lemma frame_inv (seen : list Q) (d : driver) (now : Q) :
  driver_inv seen d -> driver_inv (seen ++ [now]) (frame tw d now).
Proof.
  intros [Hq Hc Hs | Hq Hc Hs]; unfold frame; rewrite Hq.
  - assert (H0 : completions (mkDriver false (calls d)) = 0%nat) by exact Hc.
    destruct (reached_dec now) as [Hr | Hr].
    + destruct (update_reached now (mkDriver false (calls d)) Hr) as [Hq' Hc'].
      apply Finished; [exact Hq' | rewrite Hc', H0; reflexivity |].
      apply Exists_app. right. constructor. exact Hr.
    + destruct (update_running now (mkDriver false (calls d)) Hr) as [Hq' Hc'].
      apply Running; [exact Hq' | rewrite Hc'; exact H0 |].
      apply Forall_app. split; [exact Hs | constructor; [exact Hr | constructor]].
  - apply Finished; [exact Hq | exact Hc |].
    apply Exists_app. left. exact Hs.
Qed.

Lemma fold_frame_inv (frames seen : list Q) (d : driver) :
  driver_inv seen d ->
  driver_inv (seen ++ frames) (fold_left (frame tw) frames d).
Proof.
  revert seen d. induction frames as [| now frames IH]; intros seen d Hinv.
  - rewrite app_nil_r. exact Hinv.
  - simpl. replace (seen ++ now :: frames) with ((seen ++ [now]) ++ frames)
      by (rewrite <- app_assoc; reflexivity).
    apply IH. apply frame_inv. exact Hinv.
Qed.

Lemma run_inv (firstCall : Q) (frames : list Q) :
  driver_inv (firstCall :: frames) (run tw firstCall frames).
Proof.
  unfold run. apply (fold_frame_inv frames [firstCall]).
  apply update_inv. reflexivity.
Qed.

Lemma fold_frame_idle (frames : list Q) (d : driver) :
  queued d = false -> fold_left (frame tw) frames d = d.
Proof.
  intros Hq. induction frames as [| now frames IH]; [reflexivity |].
  simpl. unfold frame at 2. rewrite Hq. exact IH.
Qed.

Lemma reached_iff (now : Q) :
  0 < tDuration tw ->
  (reached now <-> tDuration tw <= now - tStartTime tw).
Proof.
  intros Hd. unfold reached. split; intros H.
  - destruct (Qlt_le_dec (now - tStartTime tw) (tDuration tw)) as [Hlt | Hge];
      [| exact Hge].
    destruct (progressOf_running _ _ Hd Hlt) as [_ Hp]. lra.
  - rewrite (progressOf_done _ _ Hd H). lra.
Qed.
End Driver.

(** C5. Whatever the frame times: the completion branch of a tween runs at
  most once; it has run exactly once, and no frame callback is pending,
  as soon as one of the ticks saw progress reach 1; with a positive
  duration that is a tick at [elapsed >= duration]; and once it has run,
  later frames run no tick at all: the calls, and so the number of
  completions, stay what they were. *)
Theorem tween_completes_once :
forall (tw : Tween.tween) (firstCall : Q) (frames : list Q),
  let d := Tween.run tw firstCall frames in
  (Tween.completions d <= 1)%nat
  /\ (Exists (Tween.reached tw) (firstCall :: frames) ->
      Tween.completions d = 1%nat /\ Tween.queued d = false)
  /\ (Forall (fun now => ~ Tween.reached tw now) (firstCall :: frames) ->
      Tween.completions d = 0%nat /\ Tween.queued d = true)
  /\ (Tween.completions d = 1%nat ->
      forall later : list Q,
        Tween.run tw firstCall (frames ++ later) = d)
  /\ (0 < Tween.tDuration tw ->
      forall now, Tween.reached tw now
                  <-> Tween.tDuration tw <= now - Tween.tStartTime tw)%Q.
Proof.
intros tw firstCall frames d.
pose proof (run_inv tw firstCall frames) as Hinv. fold d in Hinv.
assert (Hno : Exists (Tween.reached tw) (firstCall :: frames) ->
              Forall (fun now => ~ Tween.reached tw now) (firstCall :: frames) ->
              False).
{ intros He Hf. apply Exists_exists in He. destruct He as [now [Hin Hr]].
  rewrite Forall_forall in Hf. exact (Hf now Hin Hr). }
split; [| split; [| split; [| split]]].
- destruct Hinv as [_ Hc _ | _ Hc _]; rewrite Hc; lia.
- intros He. destruct Hinv as [_ _ Hs | Hq Hc _].
  + destruct (Hno He Hs).
  + split; assumption.
- intros Hf. destruct Hinv as [Hq Hc _ | _ _ Hs].
  + split; assumption.
  + destruct (Hno Hs Hf).
- intros H later.
  assert (Hq : Tween.queued d = false).
  { destruct Hinv as [_ Hc _ | Hq _ _]; [| exact Hq].
    rewrite Hc in H. discriminate. }
  subst d. unfold Tween.run in *. rewrite fold_left_app.
  apply fold_frame_idle. exact Hq.
- intros Hd now. apply reached_iff. exact Hd.
Qed.

(** The flip of 800 ms, ticked at 0, 400, 800 and then at 816 and 832:
  three updates, one completion, and the two late frames run nothing. *)
Example tween_completes_once_flip :
let tw := Tween.mkTween Tween.EaseInOutQuad 1 0 800 0 in
Tween.completions (Tween.run tw 0 [400; 800; 816; 832]) = 1%nat
/\ List.length (Tween.updates (Tween.run tw 0 [400; 800; 816; 832])) = 3%nat
/\ Tween.run tw 0 [400; 800; 816; 832] = Tween.run tw 0 [400; 800].
Proof. vm_compute. repeat split. Qed.

(** ** Division by the duration *)

Section ZeroDuration.
Import JsNum.
Local Open Scope Q_scope.






(** The one duration of the file that is not a constant is positive. *)
Remark flyDuration_positive (r : Q) :
  0 <= r -> r < 1 -> 500 <= Cull.flyDuration r /\ Cull.flyDuration r < 700.
Proof. intros H0 H1. unfold Cull.flyDuration. split; lra. Qed.

End ZeroDuration.

(** The tick itself keeps no record of having completed: a second direct
    call past the end would run the completion branch again.  That the
    completion runs once is a property of the scheduling, which C5 is
    about: no tick is requested after the completion. *)
Remark update_has_no_latch :
  Tween.completions
    (Tween.update (Tween.mkTween Tween.EaseOutQuad 0 100 1000 0) 1000
       (Tween.update (Tween.mkTween Tween.EaseOutQuad 0 100 1000 0) 1000
          (Tween.mkDriver false [])))
  = 2%nat.
Proof. vm_compute. reflexivity. Qed.

(** ** The label fade-in stays within the opacity bounds *)

Section LabelOpacity.
Local Open Scope R_scope.

Lemma PI_lower : 3.1415 < PI.
Proof.
pose proof (PI_2_3_7_ineq 1) as [H _].
unfold sum_f_R0, tg_alt, PI_2_3_7_tg, Ratan_seq in H.
simpl in H. lra.
Qed.

Lemma PI_upper : PI < 3.1416.
Proof.
pose proof (PI_2_3_7_ineq 2) as [_ H].
unfold sum_f_R0, tg_alt, PI_2_3_7_tg, Ratan_seq in H.
simpl in H. lra.
Qed.

Lemma sin_taylor (a : R) :
0 <= a -> a <= 4 ->
a - a ^ 3 / 6 <= sin a <= a - a ^ 3 / 6 + a ^ 5 / 120.
Proof.
intros H0 H4. pose proof (pre_sin_bound a 0 H0 H4) as H.
unfold sin_approx, sin_term, sum_f_R0 in H. simpl in H.
lra.
Qed.

Lemma cos_taylor (a : R) :
-2 <= a -> a <= 2 ->
1 - a ^ 2 / 2 <= cos a <= 1 - a ^ 2 / 2 + a ^ 4 / 24.
Proof.
intros H0 H4. pose proof (pre_cos_bound a 0 H0 H4) as H.
unfold cos_approx, cos_term, sum_f_R0 in H. simpl in H.
lra.
Qed.

Lemma sin_nonpos (w : R) : - PI <= w -> w <= 0 -> sin w <= 0.
Proof.
intros Hl Hu.
assert (H : 0 <= sin (- w)) by (apply sin_ge_0; lra).
rewrite sin_neg in H. lra.
Qed.

(** With [u = 1 - progress]: the two sines of the easing, moved to the
  origin. *)
Lemma eased_as_cos (p : R) : sin (p * PI / 2) = cos ((1 - p) * PI / 2).
Proof.
rewrite <- sin_shift. f_equal. field.
Qed.

Lemma sin_10p (p : R) : sin (p * 10) = sin (10 * (1 - p) - (10 - 3 * PI)).
Proof.
set (w := 10 * (1 - p) - (10 - 3 * PI)).
replace (p * 10) with ((PI - w) + 2 * INR 1 * PI) by (unfold w; simpl; ring).
rewrite sin_period. apply sin_PI_x.
Qed.


Lemma one_minus_cos_lower (u : R) :
0 <= u -> u <= 1 ->
1.2336 * u ^ 2 - 0.2537 * u ^ 4 <= 1 - cos (u * PI / 2).
Proof.
intros H0 H1.
pose proof PI_lower as Pl. pose proof PI_upper as Pu.
set (x := u * PI / 2).
assert (Hx0 : 1.57075 * u <= x) by (unfold x; nra).
assert (Hx1 : x <= 1.5708 * u) by (unfold x; nra).
destruct (cos_taylor x) as [_ Hc]; [lra | lra |].
set (s := x * x). set (t := u * u).
assert (Ht : 0 <= t) by (unfold t; nra).
assert (Hs0 : 2.4672 * t <= s) by (unfold s, t; nra).
assert (Hs1 : s <= 2.4675 * t) by (unfold s, t; nra).
assert (Hss : s * s <= 6.0886 * (t * t)) by nra.
replace (x ^ 2) with s in Hc by (unfold s; ring).
replace (x ^ 4) with (s * s) in Hc by (unfold s; ring).
replace (u ^ 2) with t by (unfold t; ring).
replace (u ^ 4) with (t * t) by (unfold t; ring).
assert (0 <= t * t) by nra.
lra.
Qed.

Lemma oscillatingAppear_le_1 (p : R) : 0 <= p -> p <= 1 -> Label.oscillatingAppear p <= 1.
Proof.
intros H0 H1. unfold Label.oscillatingAppear, Label.easedProgress, Label.oscillation.
pose proof PI_lower as Pl. pose proof PI_upper as Pu.
rewrite eased_as_cos, sin_10p.
set (u := 1 - p). assert (Hu0 : 0 <= u) by (unfold u; lra).
assert (Hu1 : u <= 1) by (unfold u; lra).
set (w := 10 * u - (10 - 3 * PI)).
assert (Ew : w = 10 * u - (10 - 3 * PI)) by reflexivity. clearbody w.
pose proof (one_minus_cos_lower u Hu0 Hu1) as Hc.
destruct (Rle_dec w 0) as [Hw | Hw].
- (* the oscillation is not positive *)
  assert (Hs : sin w <= 0) by (apply sin_nonpos; lra).
  pose proof (COS_bound (u * PI / 2)) as [_ Hcb]. nra.
- apply Rnot_le_lt in Hw.
  assert (Hu : 0.0575 < u) by lra.
  assert (Hwu : w <= 10 * u - 0.5752) by lra.
  assert (Hwl : 10 * u - 0.5756 <= w) by lra.
  assert (Hsw : sin w <= 1) by (apply SIN_bound).
  assert (Hpoly : 0.2 * sin w <= 1.2336 * u - 0.2537 * (u * u * u)).
  { destruct (Rle_dec u 0.148) as [Ha | Ha].
    - assert (sin w <= w) by (left; apply sin_lt_x; exact Hw).
      assert (u * u * u <= 0.148 * 0.148 * 0.148) by nra.
      nra.
    - apply Rnot_le_lt in Ha.
      destruct (Rle_dec u 0.165) as [Hb | Hb].
      + assert (Hm : sin w <= sin 1.0748).
        { apply sin_incr_1; lra. }
        destruct (sin_taylor 1.0748) as [_ Ht]; [lra | lra |].
        assert (Hk : sin 1.0748 <= 0.88) by lra.
        assert (u * u * u <= 0.165 * 0.165 * 0.165) by nra.
        nra.
      + apply Rnot_le_lt in Hb.
        assert (0 <= (u - 0.165) * (1 - u)) by nra.
        nra. }
  replace (u ^ 2) with (u * u) in Hc by ring.
  replace (u ^ 4) with (u * (u * u * u)) in Hc by ring.
  nra.
Qed.

Lemma oscillatingAppear_ge_0 (p : R) : 0 <= p -> p <= 1 -> 0 <= Label.oscillatingAppear p.
Proof.
intros H0 H1. unfold Label.oscillatingAppear, Label.easedProgress, Label.oscillation.
pose proof PI_lower as Pl. pose proof PI_upper as Pu.
assert (He : 0 <= sin (p * PI / 2)) by (apply sin_ge_0; nra).
destruct (Rle_dec p 0.3) as [Hp | Hp].
- assert (Hs : 0 <= sin (p * 10)) by (apply sin_ge_0; lra).
  nra.
- apply Rnot_le_lt in Hp.
  assert (Hm : sin 0.47 <= sin (p * PI / 2)) by (apply sin_incr_1; nra).
  destruct (sin_taylor 0.47) as [Ht _]; [lra | lra |].
  assert (Hk : 0.45 <= sin 0.47) by lra.
  pose proof (SIN_bound (p * 10)) as [Hl _].
  nra.
Qed.

Lemma updateLabelOpacity_eq (elapsed : R) :
Label.updateLabelOpacity elapsed
= Label.oscillatingAppear (Rmin (elapsed / 1000) 1).
Proof. reflexivity. Qed.

Lemma label_progress_range (elapsed : R) :
0 <= elapsed -> 0 <= Rmin (elapsed / 1000) 1 <= 1.
Proof.
intros He. split.
- apply Rmin_glb; [| lra].
  apply Rmult_le_pos; [exact He | lra].
- apply Rmin_r.
Qed.

(** C8, as the code has it. On every tick of the fade-in (elapsed time
    not negative) [updateLabelOpacity] assigns to [material.opacity] the
    value of the oscillating-appear easing at the progress, as computed;
    that value lies in [0, 1] for every progress of [0, 1], so a clamp
    into [0, 1] would leave it as it is.  The assignment itself is not
    clamped: were the clock to step back by a second, it would assign a
    negative opacity. *)
Theorem label_opacity_within_bounds :
  forall elapsed : R,
    0 <= elapsed ->
    Label.updateLabelOpacity elapsed
    = Label.oscillatingAppear (Rmin (elapsed / 1000) 1)
    /\ 0 <= Label.updateLabelOpacity elapsed <= 1
    /\ Label.clamp01 (Label.updateLabelOpacity elapsed)
       = Label.updateLabelOpacity elapsed
    /\ (forall t, 0 <= t <= 1 -> 0 <= Label.oscillatingAppear t <= 1)
    /\ Label.updateLabelOpacity (-1000) <= -0.6.
Proof.
intros elapsed He.
destruct (label_progress_range elapsed He) as [Hp0 Hp1].
assert (Hb : 0 <= Label.updateLabelOpacity elapsed <= 1).
{ rewrite updateLabelOpacity_eq. split.
  - apply oscillatingAppear_ge_0; assumption.
  - apply oscillatingAppear_le_1; assumption. }
split; [reflexivity |]. split; [exact Hb |]. split; [| split].
- unfold Label.clamp01. rewrite Rmin_left by lra. apply Rmax_right. lra.
- intros t [Ht0 Ht1]. split.
  + apply oscillatingAppear_ge_0; assumption.
  + apply oscillatingAppear_le_1; assumption.
- unfold Label.updateLabelOpacity.
  replace (-1000 / 1000) with (-1) by field.
  rewrite Rmin_left by lra.
  replace (-1 * PI / 2) with (- (PI / 2)) by field.
  rewrite sin_neg, sin_PI2.
  pose proof (SIN_bound (-1 * 10)) as [_ Hs]. lra.
Qed.

Lemma label_opacity_within_bounds_witness :
  0 <= Label.updateLabelOpacity 500 <= 1.
Proof.
refine (proj1 (proj2 (label_opacity_within_bounds 500 _))).
lra.
Defined.

(** C8, as stated, fails: no progress strictly between 0 and 1 takes the
    oscillating-appear easing out of [0, 1]. *)
Lemma oscillatingAppear_never_exceeds :
  ~ (exists t : R,
        0 < t < 1
        /\ (Label.oscillatingAppear t < 0 \/ 1 < Label.oscillatingAppear t)).
Proof.
intros [t [[Ht0 Ht1] [Hlt | Hgt]]].
- pose proof (oscillatingAppear_ge_0 t) as H. lra.
- pose proof (oscillatingAppear_le_1 t) as H. lra.
Qed.
End LabelOpacity.

(** ** The cull draws without replacement *)

Section CullSelection.
Import Cull.
Local Open Scope Q_scope.

Lemma randomIndex_range (r : Q) (length : nat) :
  0 <= r -> r < 1 -> (0 < length)%nat ->
  (Z.to_nat (randomIndex r length) < length)%nat.
Proof.
intros Hr0 Hr1 Hlen. unfold randomIndex.
set (n := inject_Z (Z.of_nat length)).
assert (Hn : 0 < n).
{ unfold n. change 0 with (inject_Z 0). rewrite <- Zlt_Qlt. lia. }
assert (Hlo : (0 <= Qfloor (r * n))%Z).
{ change 0%Z with (Qfloor (inject_Z 0)).
  apply Qfloor_resp_le. change (inject_Z 0) with 0. nra. }
assert (Hhi : (Qfloor (r * n) < Z.of_nat length)%Z).
{ rewrite Zlt_Qlt. apply Qle_lt_trans with (r * n).
  - apply Qfloor_le.
  - fold n. nra. }
lia.
Qed.

Lemma firstn_middle {A : Type} (l1 l2 : list A) (a : A) :
  firstn (List.length l1) (l1 ++ a :: l2) = l1.
Proof. induction l1 as [| b l1 IH]; simpl; [reflexivity | rewrite IH; reflexivity]. Qed.

Lemma skipn_middle {A : Type} (l1 l2 : list A) (a : A) :
  skipn (S (List.length l1)) (l1 ++ a :: l2) = l2.
Proof. induction l1 as [| b l1 IH]; simpl; [reflexivity | exact IH]. Qed.

Lemma splice1_spec {A : Type} (l : list A) (index : nat) :
  (index < List.length l)%nat ->
  exists a rest,
    splice1 l index = Some (a, rest)
    /\ Permutation (a :: rest) l
    /\ List.length rest = (List.length l - 1)%nat
    /\ (forall b, In b rest -> In b l).
Proof.
intros Hlt. unfold splice1.
destruct (nth_error l index) as [a |] eqn:E.
- exists a, (firstn index l ++ skipn (S index) l).
  destruct (nth_error_split l index E) as [l1 [l2 [El Hl1]]].
  subst l. subst index.
  rewrite firstn_middle, skipn_middle. repeat split.
  + apply Permutation_middle.
  + rewrite !length_app. simpl. lia.
  + intros b Hb. apply in_app_or in Hb. apply in_or_app.
    destruct Hb; [left | right; right]; assumption.
- apply nth_error_None in E. lia.
Qed.

Lemma selectLoop_spec (rand : nat -> Q) :
  (forall n, 0 <= rand n /\ rand n < 1) ->
  forall (count i cursor : nat) (rest kept : list shuffleCard),
    (count <= List.length rest)%nat ->
    exists kept' rest',
      selectLoop count i rand cursor rest kept
      = Some (kept ++ kept', rest', (cursor + count)%nat)
      /\ List.length kept' = count
      /\ List.length rest' = (List.length rest - count)%nat
      /\ Permutation (map name kept' ++ map name rest') (map name rest)
      /\ (forall j c, nth_error kept' j = Some c ->
                      positionIndex c = Some (i + j)%nat /\ selected c = true)
      /\ (forall c, In c rest' -> In c rest).
Proof.
intros Hrand. induction count as [| count IH]; intros i cursor rest kept Hlen.
- exists [], rest. simpl. rewrite app_nil_r, Nat.add_0_r, Nat.sub_0_r.
  split; [reflexivity |]. split; [reflexivity |]. split; [reflexivity |].
  split; [apply Permutation_refl |]. split; [| auto].
  intros j c H. destruct j; discriminate.
- destruct rest as [| c0 tl] eqn:Erest; [simpl in Hlen; lia |].
  rewrite <- Erest in *.
  assert (Hpos : (0 < List.length rest)%nat) by (rewrite Erest; simpl; lia).
  destruct (Hrand cursor) as [Hr0 Hr1].
  pose proof (randomIndex_range (rand cursor) (List.length rest) Hr0 Hr1 Hpos)
    as Hidx.
  destruct (splice1_spec rest _ Hidx) as [a [rest1 [Hsp [Hperm [Hl1 Hin1]]]]].
  assert (Hlen1 : (count <= List.length rest1)%nat) by lia.
  destruct (IH (S i) (S cursor) rest1 (kept ++ [mark i a]) Hlen1)
    as [kept'' [rest' [Hrun [Hk [Hr [Hp [Hpi Hin]]]]]]].
  exists (mark i a :: kept''), rest'.
  split; [| split; [| split; [| split; [| split]]]].
  + simpl. rewrite Erest. rewrite <- Erest. rewrite Hsp, Hrun.
    rewrite <- app_assoc. simpl. f_equal. f_equal. lia.
  + simpl. lia.
  + lia.
  + simpl. apply Permutation_trans with (name a :: map name rest1).
    * apply perm_skip. exact Hp.
    * change (name a :: map name rest1) with (map name (a :: rest1)).
      apply Permutation_map. exact Hperm.
  + intros j c Hj. destruct j as [| j]; simpl in Hj.
    * inversion Hj; subst c. simpl. rewrite Nat.add_0_r. split; reflexivity.
    * destruct (Hpi j c Hj) as [H1 H2]. split; [| exact H2].
      rewrite H1. f_equal. lia.
  + intros c Hc. apply Hin1. apply Hin. exact Hc.
Qed.

Lemma selectLoop_rand_ext (rand rand' : nat -> Q) :
  forall (count i cursor : nat) (rest kept : list shuffleCard),
    (forall n, (cursor <= n < cursor + count)%nat -> rand' n = rand n) ->
    selectLoop count i rand' cursor rest kept
    = selectLoop count i rand cursor rest kept.
Proof.
induction count as [| count IH]; intros i cursor rest kept Hext;
  [reflexivity |].
simpl. destruct rest as [| c0 tl].
- apply IH. intros n Hn. apply Hext. lia.
- rewrite (Hext cursor) by lia.
  destruct (splice1 _ _) as [[a rest1] |]; [| reflexivity].
  apply IH. intros n Hn. apply Hext. lia.
Qed.

Lemma createShuffleCards_names (n : nat) :
  map name (createShuffleCards n) = seq 0 n.
Proof.
unfold createShuffleCards. rewrite map_map. simpl. apply map_id.
Qed.

(** C4. From a pool of [N] distinct cards the selection keeps
    [K <= N] of them and leaves [N - K]: the kept cards are distinct, the
    kept and the left cards together are the pool, the card drawn [j]-th
    has position index [j], and the result depends only on the first [K]
    values of the random source.  With the 60 cards of the shuffle and
    [K = 4]: 4 kept, 56 left; drawing 0.9 then 0.1 keeps card 54 at
    position 0 before card 5 at position 1. *)
Theorem selection_with_removal :
  forall (K : nat) (pool : list shuffleCard) (rand : nat -> Q),
    NoDup (map name pool) ->
    (K <= List.length pool)%nat ->
    (forall n, 0 <= rand n /\ rand n < 1) ->
    (exists kept discarded,
        selectCards K pool rand = Some (kept, discarded, K)
        /\ List.length kept = K
        /\ NoDup (map name kept)
        /\ List.length discarded = (List.length pool - K)%nat
        /\ Permutation (map name kept ++ map name discarded) (map name pool)
        /\ (forall c, In c kept -> ~ In (name c) (map name discarded))
        /\ (forall c, In c discarded -> In c pool)
        /\ map positionIndex kept = map Some (seq 0 K)
        /\ Forall (fun c => selected c = true) kept)
    /\ (forall rand' : nat -> Q,
          (forall n, (n < K)%nat -> rand' n = rand n) ->
          selectCards K pool rand' = selectCards K pool rand)
    /\ (exists kept discarded,
          selectAndPlaceFourCards (createShuffleCards numShuffleCards) rand
          = Some (kept, discarded, 4%nat)
          /\ List.length kept = 4%nat /\ List.length discarded = 56%nat
          /\ NoDup (map name kept))
    /\ (exists discarded,
          selectAndPlaceFourCards (createShuffleCards numShuffleCards)
            (randFrom [9 # 10; 1 # 10; 1 # 2; 0])
          = Some ([mkShuffleCard 54 (Some 0%nat) true (3 # 2);
                   mkShuffleCard 5 (Some 1%nat) true (3 # 2);
                   mkShuffleCard 30 (Some 2%nat) true (3 # 2);
                   mkShuffleCard 0 (Some 3%nat) true (3 # 2)], discarded, 4%nat)).
Proof.
intros K pool rand Hnd HK Hrand.
assert (Hmain : forall K' (pool' : list shuffleCard),
           NoDup (map name pool') -> (K' <= List.length pool')%nat ->
           exists kept discarded,
             selectCards K' pool' rand = Some (kept, discarded, K')
             /\ List.length kept = K'
             /\ NoDup (map name kept)
             /\ List.length discarded = (List.length pool' - K')%nat
             /\ Permutation (map name kept ++ map name discarded) (map name pool')
             /\ (forall c, In c kept -> ~ In (name c) (map name discarded))
             /\ (forall c, In c discarded -> In c pool')
             /\ map positionIndex kept = map Some (seq 0 K')
             /\ Forall (fun c => selected c = true) kept).
{ clear K pool Hnd HK. intros K pool Hnd HK.
  destruct (selectLoop_spec rand Hrand K 0 0 pool [] HK)
    as [kept [discarded [Hrun [Hk [Hd [Hp [Hpi Hin]]]]]]].
  exists kept, discarded. simpl in Hrun.
  assert (Hnd' : NoDup (map name kept ++ map name discarded)).
  { apply Permutation_NoDup with (map name pool);
      [apply Permutation_sym; exact Hp | exact Hnd]. }
  split; [exact Hrun |]. split; [exact Hk |].
  split; [apply NoDup_app_remove_r in Hnd'; exact Hnd' |].
  split; [exact Hd |]. split; [exact Hp |].
  split; [| split; [exact Hin | split]].
  - intros c Hc Hc'.
    assert (Hc1 : In (name c) (map name kept)) by (apply in_map; exact Hc).
    clear - Hnd' Hc1 Hc'.
    induction (map name kept) as [| a l IH]; [destruct Hc1 |].
    simpl in Hnd'. inversion Hnd' as [| ? ? Hnot Hrest]; subst.
    destruct Hc1 as [-> | Hc1].
    + apply Hnot. apply in_or_app. right. exact Hc'.
    + exact (IH Hrest Hc1).
  - apply nth_error_ext. intros j.
    rewrite !nth_error_map.
    destruct (nth_error kept j) as [c |] eqn:E; simpl.
    + destruct (Hpi j c E) as [H1 _]. rewrite H1. simpl.
      assert (Hj : (j < K)%nat).
      { rewrite <- Hk. apply nth_error_Some. congruence. }
      rewrite nth_error_seq.
      destruct (Nat.ltb_spec j K); [reflexivity | lia].
    + apply nth_error_None in E. rewrite nth_error_seq.
      destruct (Nat.ltb_spec j K); [lia | reflexivity].
  - apply Forall_forall. intros c Hc.
    destruct (In_nth_error _ _ Hc) as [j Hj].
    exact (proj2 (Hpi j c Hj)). }
split; [exact (Hmain K pool Hnd HK) |].
split; [| split].
- intros rand' Hext. unfold selectCards.
  apply selectLoop_rand_ext. intros n Hn. apply Hext. lia.
- destruct (Hmain numCardsToKeep (createShuffleCards numShuffleCards))
    as [kept [discarded [Hrun [Hk [Hndk [Hd _]]]]]].
  + rewrite createShuffleCards_names. apply seq_NoDup.
  + vm_compute. lia.
  + exists kept, discarded. repeat split; assumption.
- eexists. vm_compute. reflexivity.
Qed.

Lemma selection_with_removal_witness :
  exists kept discarded,
    selectCards 2 (createShuffleCards 3) (randFrom [1 # 2; 1 # 2])
    = Some (kept, discarded, 2%nat)
    /\ List.length kept = 2%nat.
Proof.
destruct (selection_with_removal 2 (createShuffleCards 3)
            (randFrom [1 # 2; 1 # 2])) as [[kept [discarded [H1 [H2 _]]]] _].
- vm_compute. repeat constructor; simpl; intuition discriminate.
- vm_compute. lia.
- intros n. unfold randFrom.
  destruct n as [| [| [| n]]]; simpl; split; try discriminate; reflexivity.
- exists kept, discarded. split; assumption.
Defined.
End CullSelection.

(** ** The fetch retries without a bound *)

Section FetchRetry.
Import Fetch.

Lemma getRandomQuery_keeps (e : env) (st : state) :
  cards (snd (getRandomQuery e st)) = cards st
  /\ requests (snd (getRandomQuery e st)) = requests st.
Proof.
unfold getRandomQuery. destruct (queries e); simpl; split; reflexivity.
Qed.


Lemma storeCards_empty (e : env) (blocks : list block) (st : state) :
  filter hasValidImage blocks = [] ->
  cards (storeCards e blocks st) = []
  /\ requests (storeCards e blocks st) = requests st.
Proof.
intros H. unfold storeCards. rewrite H. simpl. split; reflexivity.
Qed.


Lemma fetchRandomContent_S (m : nat) (e : env) (st : state) :
  fetchRandomContent (S m) e st
  = let (randomQuery, st1) := getRandomQuery e st in
    let (searchData, st2) := request e randomQuery st1 in
    match searchData with
    | NetworkError => Threw st2
    | NoBlocks => Threw st2
    | Blocks blocks =>
        match cards (storeCards e blocks st2) with
        | [] => fetchRandomContent m e (storeCards e blocks st2)
        | _ :: _ => Returned true (storeCards e blocks st2)
        end
    end.
Proof. reflexivity. Qed.

Lemma fetchSingleCardContent_S (m : nat) (e : env) (st : state) :
  cards st = [] ->
  fetchSingleCardContent (S m) e st
  = let (randomQuery, st1) := getRandomQuery e st in
    let (searchData, st2) := request e randomQuery st1 in
    match searchData with
    | NetworkError => Threw st2
    | NoBlocks => Threw st2
    | Blocks blocks =>
        match cards (storeCards e blocks st2) with
        | [] => fetchSingleCardContent m e (storeCards e blocks st2)
        | _ :: _ =>
            let (c, st3) := randomCard e (storeCards e blocks st2) in
            Returned c st3
        end
    end.
Proof. intros H. simpl. rewrite H. reflexivity. Qed.

(** One attempt that finds no valid image: the next attempt starts from a
    state with one more request and no card. *)
Lemma fetchRandomContent_retry (e : env) (st : state) :
  (forall q, emptyResult (respond e (List.length (requests st)) q)) ->
  exists st',
    (forall m, fetchRandomContent (S m) e st = fetchRandomContent m e st')
    /\ cards st' = []
    /\ List.length (requests st') = S (List.length (requests st)).
Proof.
intros Hempty.
destruct (getRandomQuery e st) as [q st1] eqn:Eq.
destruct (getRandomQuery_keeps e st) as [_ Hreq]. rewrite Eq in Hreq.
simpl in Hreq.
specialize (Hempty q). rewrite <- Hreq in Hempty.
destruct (respond e (List.length (requests st1)) q) as [| | blocks] eqn:Er;
  try contradiction.
simpl in Hempty.
set (st2 := mkState (cards st1) (cursor st1) (requests st1 ++ [q])).
destruct (storeCards_empty e blocks st2 Hempty) as [Hc Hr].
exists (storeCards e blocks st2). split; [| split].
- intros m. rewrite fetchRandomContent_S, Eq. unfold request.
  rewrite Er. fold st2. rewrite Hc. reflexivity.
- exact Hc.
- rewrite Hr. unfold st2. simpl. rewrite length_app, Hreq. simpl. lia.
Qed.






End FetchRetry.

(** ** The reading *)

Section ReadingFacts.
Import Reading.
Local Open Scope Q_scope.

Lemma nth_error_updateNth {A : Type} (f : A -> A) (l : list A) (i : nat) :
  nth_error (updateNth i f l) i = option_map f (nth_error l i).
Proof.
revert i. induction l as [| a l IH]; intros [| i]; simpl; auto.
Qed.

Lemma updateNth_updateNth {A : Type} (f g : A -> A) (l : list A) (i : nat) :
  updateNth i f (updateNth i g l) = updateNth i (fun a => f (g a)) l.
Proof.
revert i. induction l as [| a l IH]; intros [| i]; simpl; auto.
rewrite IH. reflexivity.
Qed.

Lemma map_updateNth_same {A B : Type} (h : A -> B) (f : A -> A)
  (l : list A) (i : nat) :
  (forall a, nth_error l i = Some a -> h (f a) = h a) ->
  map h (updateNth i f l) = map h l.
Proof.
revert i. induction l as [| a l IH]; intros [| i] H; simpl; auto.
- rewrite H by reflexivity. reflexivity.
- rewrite IH; [reflexivity |]. intros b Hb. apply H. exact Hb.
Qed.

Lemma Forall_updateNth {A : Type} (P : A -> Prop) (f : A -> A)
  (l : list A) (i : nat) :
  (forall a, P a -> P (f a)) -> Forall P l -> Forall P (updateNth i f l).
Proof.
intros Hf. revert i. induction l as [| a l IH]; intros [| i] H; simpl; auto;
  inversion H; subst; constructor; auto.
Qed.

Lemma nth_error_app_last {A : Type} (l : list A) (a : A) :
  nth_error (l ++ [a]) (List.length l) = Some a.
Proof. induction l as [| b l IH]; simpl; auto. Qed.

Lemma removeNth_app_last {A : Type} (l : list A) (a : A) :
  removeNth (List.length l) (l ++ [a]) = l.
Proof. induction l as [| b l IH]; simpl; auto. rewrite IH. reflexivity. Qed.

(** *** A failed flip *)

Lemma revealState_failFlip_after_flip (cardIndex : nat) (st : state)
  (cs : list card) (f : card -> card) (count : Z) (c : card) :
  nth_error cs cardIndex = Some c ->
  flagsOf c = (false, false) ->
  (forall a, flagsOf (f a) = flagsOf a) ->
  cardMeshes st = updateNth cardIndex (fun a => f (setFlags true true a)) cs ->
  revealedCardCount st = (count + 1)%Z ->
  revealState (failFlip cardIndex st) = (count, map flagsOf cs).
Proof.
intros Hc Hflags Hf Hcards Hcount.
unfold revealState, failFlip, updateCard. simpl. rewrite Hcards, Hcount.
f_equal; [lia |].
rewrite updateNth_updateNth.
apply map_updateNth_same. intros a Ha.
rewrite Hc in Ha. inversion Ha; subst a. rewrite Hflags. reflexivity.
Qed.

(** The failure branches on their own.  When [flipCard] gets past its
    guards it sets [selected] and [revealed] of the card and increments
    [revealedCardCount]; each of its failure branches (the fetch rejects,
    the card data has no valid image, the texture fails to load) sets the
    two flags to false and decrements the counter.  Run on the state that
    [flipCard] left, with no other event in between, that gives back the
    flags of every card and the counter the reading had before the
    flip. *)
Theorem failed_flip_restores_reveal_state :
  forall (st : state) (cardIndex : nat),
    flipAccepted cardIndex st ->
    flagsAgree st ->
    let st1 := flipCard cardIndex st in
    let k := List.length (fetching st) in
    revealState st1
    = ((revealedCardCount st + 1)%Z,
       map flagsOf
           (updateNth cardIndex (setFlags true true) (cardMeshes st)))
    /\ nth_error (fetching st1) k
       = Some (cardIndex, labelFor (revealedCardCount st + 1))
    /\ revealState (onFetchSettled k FetchRejected st1) = revealState st
    /\ revealState (onFetchSettled k (Fetched None) st1) = revealState st
    /\ (forall cardData,
          Fetch.hasValidImage cardData = false ->
          revealState (onFetchSettled k (Fetched (Some cardData)) st1)
          = revealState st)
    /\ (forall cardData now,
          Fetch.hasValidImage cardData = true ->
          let st2 := onFetchSettled k (Fetched (Some cardData)) st1 in
          nth_error (loading st2) (List.length (loading st))
          = Some (cardIndex, labelFor (revealedCardCount st + 1),
                  Fetch.id cardData)
          /\ revealState st2 = revealState st1
          /\ revealState
               (onTextureSettled (List.length (loading st)) false now st2)
             = revealState st).
Proof.
intros st cardIndex [Hidle [c [Hc [Hrev [Hmesh Hmax]]]]] Hagree st1 k.
assert (Hsel : selected c = false).
{ unfold flagsAgree in Hagree. rewrite Forall_forall in Hagree.
  rewrite (Hagree c (nth_error_In _ _ Hc)). exact Hrev. }
assert (Hflags : flagsOf c = (false, false))
  by (unfold flagsOf; rewrite Hrev, Hsel; reflexivity).
assert (Hst1 : st1
  = setFetching (fetching st ++ [(cardIndex, labelFor (revealedCardCount st + 1))])
      (setCount (revealedCardCount st + 1)
         (updateCard cardIndex (setFlags true true) st))).
{ unfold st1, flipCard. rewrite Hidle, Hc, Hrev, Hmesh.
  assert (Hle : (MAX_REVEALED_CARDS <=? revealedCardCount st)%Z = false)
    by (apply Z.leb_gt; exact Hmax).
  rewrite Hle. reflexivity. }
assert (Hnth : nth_error (fetching st1) k
               = Some (cardIndex, labelFor (revealedCardCount st + 1))).
{ rewrite Hst1. simpl. apply nth_error_app_last. }
assert (Hfail : revealState
                  (failFlip cardIndex
                     (setFetching (removeNth k (fetching st1)) st1))
                = revealState st).
{ apply (revealState_failFlip_after_flip cardIndex _ (cardMeshes st)
           (fun a => a) (revealedCardCount st) c Hc Hflags).
  - reflexivity.
  - rewrite Hst1. reflexivity.
  - rewrite Hst1. reflexivity. }
split; [rewrite Hst1; reflexivity |].
split; [exact Hnth |].
split; [unfold onFetchSettled; rewrite Hnth; exact Hfail |].
split; [unfold onFetchSettled; rewrite Hnth; exact Hfail |].
split.
- intros cardData Hinvalid. unfold onFetchSettled.
  rewrite Hnth, Hinvalid. exact Hfail.
- intros cardData now Hvalid st2.
  assert (Hst2 : st2
    = setLoading (loading st ++ [(cardIndex, labelFor (revealedCardCount st + 1),
                                  Fetch.id cardData)])
        (updateCard cardIndex (setArenaUrl (Fetch.id cardData))
           (setFetching (removeNth k (fetching st1)) st1))).
  { unfold st2, onFetchSettled. rewrite Hnth, Hvalid.
    rewrite Hst1. reflexivity. }
  assert (Hload : nth_error (loading st2) (List.length (loading st))
                  = Some (cardIndex, labelFor (revealedCardCount st + 1),
                          Fetch.id cardData)).
  { rewrite Hst2. simpl. apply nth_error_app_last. }
  split; [exact Hload |]. split.
  + rewrite Hst2. unfold revealState, updateCard. simpl.
    f_equal. apply map_updateNth_same. intros a _. reflexivity.
  + unfold onTextureSettled. rewrite Hload.
    apply (revealState_failFlip_after_flip cardIndex _ (cardMeshes st)
             (setArenaUrl (Fetch.id cardData)) (revealedCardCount st) c Hc Hflags).
    * reflexivity.
    * rewrite Hst2, Hst1. unfold updateCard. simpl.
      apply updateNth_updateNth.
    * rewrite Hst2, Hst1. reflexivity.
Qed.

Lemma failed_flip_restores_reveal_state_witness :
  revealState (onFetchSettled 0 FetchRejected (flipCard 0 createCards))
  = revealState createCards.
Proof.
refine (proj1 (proj2 (proj2
          (failed_flip_restores_reveal_state createCards 0 _ _)))).
- split; [reflexivity |]. exists newCard. repeat split; reflexivity.
- repeat constructor.
Defined.

(** C10: a failed flip leaves the reveal state as it was before the
    flip.  The code departs from that when a reset runs while the fetch or
    the texture load of the flip is pending.  Card 0 is clicked at 0; the
    reset is clicked at 100 and is accepted, the flag being raised only
    once the texture has loaded; the flip-back of card 0 completes at the
    frame of 700, where the counter is set to 0; the fetch is rejected at
    800 (or, the content having come at 10, the texture fails to load at
    800) and the failure branch decrements the counter once more.  The
    counter was 0 before the flip and is -1 after its failure. *)
Theorem failed_flip_after_reset_miscounts :
  let reset := [(100, ResetClick); (116, Frame); (700, Frame)] in
  let failedFetch :=
    (0, Click 0%nat) :: reset ++ [(800, FetchSettled 0 FetchRejected)] in
  let failedTexture :=
    (0, Click 0%nat) :: (10, FetchSettled 0 (Fetched (Some block1)))
    :: reset ++ [(800, TextureSettled 0 false)] in
  revealState createCards
  = (0%Z, [(false, false); (false, false); (false, false); (false, false)])
  /\ fetching (run ((0, Click 0%nat) :: reset) createCards)
     = [(0%nat, "Past"%string)]
  /\ revealedCardCount (run ((0, Click 0%nat) :: reset) createCards) = 0%Z
  /\ revealState (run failedFetch createCards)
     = ((-1)%Z, [(false, false); (false, false); (false, false); (false, false)])
  /\ revealState (run failedFetch createCards) <> revealState createCards
  /\ revealState (run failedTexture createCards)
     = ((-1)%Z, [(false, false); (false, false); (false, false); (false, false)])
  /\ revealState (run failedTexture createCards) <> revealState createCards.
Proof.
vm_compute. repeat split; discriminate.
Qed.

(** The url that the fetch wrote to [userData.arenaUrl] before the texture
    failed to load stays: it is not part of what the failure branch
    resets. *)
Remark failed_texture_keeps_arenaUrl :
  map arenaUrl
      (cardMeshes
         (run [(0, Click 0%nat); (10, FetchSettled 0 (Fetched (Some block1)));
               (20, TextureSettled 0 false)] createCards))
  = [Some 11%nat; None; None; None]
  /\ revealState
       (run [(0, Click 0%nat); (10, FetchSettled 0 (Fetched (Some block1)));
             (20, TextureSettled 0 false)] createCards)
     = revealState createCards.
Proof. vm_compute. split; reflexivity. Qed.

(** *** [selected] and [revealed] agree in every state of a reading *)

Lemma flagsAgree_updateCard (i : nat) (f : card -> card) (st : state) :
  (forall c, selected c = revealed c -> selected (f c) = revealed (f c)) ->
  flagsAgree st -> flagsAgree (updateCard i f st).
Proof.
intros Hf H. unfold flagsAgree, updateCard. simpl.
apply Forall_updateNth; assumption.
Qed.

Lemma flagsAgree_same_cards (st st' : state) :
  cardMeshes st' = cardMeshes st -> flagsAgree st -> flagsAgree st'.
Proof. unfold flagsAgree. intros ->. auto. Qed.

Ltac agree_step :=
  match goal with
  | |- flagsAgree (updateCard _ _ _) =>
      apply flagsAgree_updateCard; [intros ? ?; simpl; auto |]
  | |- flagsAgree (if ?b then _ else _) => destruct b
  | |- flagsAgree (match ?o with _ => _ end) => destruct o
  | |- flagsAgree (_ _ ?st) =>
      apply (flagsAgree_same_cards st); [reflexivity |]
  end.

Lemma failFlip_agree (i : nat) (st : state) :
  flagsAgree st -> flagsAgree (failFlip i st).
Proof. intros H. unfold failFlip. repeat agree_step. exact H. Qed.

Lemma flipCard_agree (i : nat) (st : state) :
  flagsAgree st -> flagsAgree (flipCard i st).
Proof.
intros H. unfold flipCard.
destruct (animating st); [exact H |].
destruct (nth_error (cardMeshes st) i) as [c |]; [| exact H].
destruct (revealed c); [exact H |].
destruct (MAX_REVEALED_CARDS <=? revealedCardCount st)%Z; [exact H |].
destruct (negb (cardMesh c)); [exact H |].
repeat agree_step. exact H.
Qed.

Lemma onFetchSettled_agree (k : nat) (r : fetchResult) (st : state) :
  flagsAgree st -> flagsAgree (onFetchSettled k r st).
Proof.
intros H. unfold onFetchSettled.
destruct (nth_error (fetching st) k) as [[i l] |]; [| exact H].
destruct r as [| [cardData |]]; try (apply failFlip_agree; exact H).
destruct (Fetch.hasValidImage cardData); [| apply failFlip_agree; exact H].
repeat agree_step. exact H.
Qed.

Lemma resolveFlipBack_agree (st : state) :
  flagsAgree st -> flagsAgree (resolveFlipBack st).
Proof.
intros H. unfold resolveFlipBack.
destruct (reset st) as [| [| [| n]] |]; exact H.
Qed.

Lemma flipTick_agree i s0 t0 tex changed l now (st : state) :
  flagsAgree st -> flagsAgree (flipTick i s0 t0 tex changed l now st).
Proof.
intros H. unfold flipTick.
destruct (Qlt_le_dec _ 1);
  destruct (Qle_bool _ _ && negb changed && _);
  try destruct (String.eqb l "");
  unfold createLabelForCard; repeat agree_step; exact H.
Qed.

Lemma flipBackTick_agree i s0 t0 now (st : state) :
  flagsAgree st -> flagsAgree (flipBackTick i s0 t0 now st).
Proof.
intros H. unfold flipBackTick.
destruct (Qlt_le_dec _ 1).
- repeat agree_step. exact H.
- apply resolveFlipBack_agree. repeat agree_step. exact H.
Qed.

Lemma runTick_agree t now (st : state) :
  flagsAgree st -> flagsAgree (runTick t now st).
Proof.
destruct t; simpl; [apply flipTick_agree | apply flipBackTick_agree].
Qed.

Lemma animateCardFlip_agree i now (st : state) :
  flagsAgree st -> flagsAgree (animateCardFlip i now st).
Proof.
intros H. unfold animateCardFlip.
destruct (nth_error (cardMeshes st) i); [| exact H].
apply flipTick_agree. exact H.
Qed.

Lemma onTextureSettled_agree k loaded now (st : state) :
  flagsAgree st -> flagsAgree (onTextureSettled k loaded now st).
Proof.
intros H. unfold onTextureSettled.
destruct (nth_error (loading st) k) as [[[i l] tex] |]; [| exact H].
destruct loaded; [| apply failFlip_agree; exact H].
assert (H' : flagsAgree
               (animateCardFlip i now
                  (updateCard i (setTarget tex l)
                     (setLoading (removeNth k (loading st)) st)))).
{ apply animateCardFlip_agree. repeat agree_step. exact H. }
destruct (MAX_REVEALED_CARDS <=? _)%Z; [| exact H'].
exact H'.
Qed.

Lemma flipBackTimers_cards (cs : list card) (now : Q) :
  forall (i : nat) (st : state),
    cardMeshes (fst (flipBackTimers i cs now st)) = cardMeshes st.
Proof.
induction cs as [| c cs IH]; intros i st; simpl; [reflexivity |].
destruct (revealed c).
- specialize (IH (S i)
    (setTimeout (FlipBackTimer i (rotationX c) now)
                (inject_Z (Z.of_nat i) * 200) now st)).
  destruct (flipBackTimers _ _ _ _) as [st' n]. simpl in *. exact IH.
- apply IH.
Qed.

Lemma resetTarotReading_agree now (st : state) :
  flagsAgree st -> flagsAgree (resetTarotReading now st).
Proof.
intros H. unfold resetTarotReading.
destruct (animating st); [exact H |].
pose proof (flipBackTimers_cards
              (cardMeshes (setHighlighted false (setAnimating true st)))
              now 0 (setHighlighted false (setAnimating true st))) as Hc.
destruct (flipBackTimers _ _ _ _) as [st' n]. simpl in Hc.
assert (H' : flagsAgree st') by (apply (flagsAgree_same_cards st); assumption).
destruct n; exact H'.
Qed.

Lemma runTimer_agree t due (st : state) :
  flagsAgree st -> flagsAgree (runTimer t due st).
Proof.
destruct t; simpl; [auto | apply flipBackTick_agree].
Qed.

Lemma fold_agree {A : Type} (f : state -> A -> state) (l : list A) :
  (forall st a, flagsAgree st -> flagsAgree (f st a)) ->
  forall st, flagsAgree st -> flagsAgree (fold_left f l st).
Proof.
intros Hf. induction l as [| a l IH]; intros st H; simpl; auto.
Qed.

Lemma fireTimers_agree now (st : state) :
  flagsAgree st -> flagsAgree (fireTimers now st).
Proof.
intros H. unfold fireTimers. apply fold_agree.
- intros st' dt. apply runTimer_agree.
- exact H.
Qed.

Lemma frame_agree now (st : state) :
  flagsAgree st -> flagsAgree (frame now st).
Proof.
intros H. unfold frame. apply fold_agree.
- intros st' t. apply runTick_agree.
- exact H.
Qed.

Lemma handle_agree (st : state) (timed : Q * event) :
  flagsAgree st -> flagsAgree (handle st timed).
Proof.
intros H. unfold handle.
pose proof (fireTimers_agree (fst timed) st H) as H'.
destruct (snd timed).
- apply flipCard_agree; exact H'.
- apply resetTarotReading_agree; exact H'.
- apply onFetchSettled_agree; exact H'.
- apply onTextureSettled_agree; exact H'.
- apply frame_agree; exact H'.
Qed.

(** In every state a reading reaches from the new cards, [selected] and
    [revealed] agree on every card. *)
Lemma run_flagsAgree (events : list (Q * event)) :
  flagsAgree (run events createCards).
Proof.
unfold run. apply fold_agree.
- apply handle_agree.
- repeat constructor.
Qed.

(** *** The busy flag *)

Lemma flipTick_running i s0 t0 tex changed l now (st : state) :
  now - t0 < 800 ->
  animating (flipTick i s0 t0 tex changed l now st) = animating st
  /\ exists changed',
       rafQueue (flipTick i s0 t0 tex changed l now st)
       = rafQueue st ++ [FlipTick i s0 t0 tex changed' l].
Proof.
intros Hlt.
destruct (progressOf_running (now - t0) 800) as [_ Hp]; [reflexivity | exact Hlt |].
unfold Tween.progressOf in Hp. unfold flipTick.
destruct (Qlt_le_dec (Qmin ((now - t0) / 800) 1) 1) as [L | L]; [| lra].
destruct (Qle_bool _ _ && negb changed && _); simpl; split; eauto.
Qed.

Lemma flipTick_done i s0 t0 tex changed l now (st : state) :
  800 <= now - t0 ->
  animating (flipTick i s0 t0 tex changed l now st) = false
  /\ rafQueue (flipTick i s0 t0 tex changed l now st) = rafQueue st.
Proof.
intros Hge.
pose proof (progressOf_done (now - t0) 800) as Hp.
unfold Tween.progressOf in Hp. unfold flipTick.
destruct (Qlt_le_dec (Qmin ((now - t0) / 800) 1) 1) as [L | L].
- rewrite Hp in L; [lra | reflexivity | exact Hge].
- destruct (Qle_bool _ _ && negb changed && _);
    destruct (String.eqb l ""); simpl; split; reflexivity.
Qed.

Lemma failFlip_animating (i : nat) (st : state) :
  animating (failFlip i st) = animating st.
Proof. reflexivity. Qed.

Lemma flipCard_animating (i : nat) (st : state) :
  animating (flipCard i st) = animating st.
Proof.
unfold flipCard. destruct (animating st) eqn:E; [exact E |].
destruct (nth_error (cardMeshes st) i) as [c |]; [| exact E].
destruct (revealed c); [exact E |].
destruct (MAX_REVEALED_CARDS <=? revealedCardCount st)%Z; [exact E |].
destruct (negb (cardMesh c)); exact E.
Qed.

Lemma onFetchSettled_animating (k : nat) (r : fetchResult) (st : state) :
  animating (onFetchSettled k r st) = animating st.
Proof.
unfold onFetchSettled.
destruct (nth_error (fetching st) k) as [[i l] |]; [| reflexivity].
destruct r as [| [cardData |]]; try reflexivity.
destruct (Fetch.hasValidImage cardData); reflexivity.
Qed.

Lemma flipBackTimers_animating (cs : list card) (now : Q) :
  forall (i : nat) (st : state),
    animating (fst (flipBackTimers i cs now st)) = animating st.
Proof.
induction cs as [| c cs IH]; intros i st; simpl; [reflexivity |].
destruct (revealed c).
- specialize (IH (S i)
    (setTimeout (FlipBackTimer i (rotationX c) now)
                (inject_Z (Z.of_nat i) * 200) now st)).
  destruct (flipBackTimers _ _ _ _) as [st' n]. simpl in *. exact IH.
- apply IH.
Qed.

Lemma resetTarotReading_raises (now : Q) (st : state) :
  animating st = false -> animating (resetTarotReading now st) = true.
Proof.
intros Hidle. unfold resetTarotReading. rewrite Hidle.
pose proof (flipBackTimers_animating
              (cardMeshes (setHighlighted false (setAnimating true st)))
              now 0 (setHighlighted false (setAnimating true st))) as Ha.
destruct (flipBackTimers _ _ _ _) as [st' n]. simpl in Ha.
destruct n; simpl; exact Ha.
Qed.

(** The guard of the busy flag, step by step.  While [animating] is true,
    [flipCard] and [resetTarotReading] return the state as it is.  The flag
    is raised by the animations: [resetTarotReading], when it is false, and
    [animateCardFlip]; [flipCard] and the settling of its fetch leave it as
    it is.  The tick of a flip keeps the flag and asks for another frame
    while less than 800 ms have elapsed, and lowers the flag, asking for no
    frame, at the first tick after that; then [flipCard] gets past its
    guard again. *)
Theorem busy_flag_guard :
  forall (st : state) (now : Q) (cardIndex : nat),
    (animating st = true ->
     flipCard cardIndex st = st /\ resetTarotReading now st = st)
    /\ (animating st = false ->
        animating (resetTarotReading now st) = true)
    /\ animating (flipCard cardIndex st) = animating st
    /\ (forall k r, animating (onFetchSettled k r st) = animating st)
    /\ (nth_error (cardMeshes st) cardIndex <> None ->
        animating (animateCardFlip cardIndex now st) = true
        /\ flipInFlight cardIndex (animateCardFlip cardIndex now st))
    /\ (forall s0 t0 tex changed l,
          (now - t0 < 800 ->
           animating (flipTick cardIndex s0 t0 tex changed l now st)
           = animating st
           /\ exists changed',
                rafQueue (flipTick cardIndex s0 t0 tex changed l now st)
                = rafQueue st ++ [FlipTick cardIndex s0 t0 tex changed' l])
          /\ (800 <= now - t0 ->
              animating (flipTick cardIndex s0 t0 tex changed l now st) = false
              /\ rafQueue (flipTick cardIndex s0 t0 tex changed l now st)
                 = rafQueue st))
    /\ (flipAccepted cardIndex st ->
        fetching (flipCard cardIndex st)
        = fetching st ++ [(cardIndex, labelFor (revealedCardCount st + 1))]).
Proof.
intros st now cardIndex.
split; [| split; [| split; [| split; [| split; [| split]]]]].
- intros Hbusy. unfold flipCard, resetTarotReading. rewrite Hbusy.
  split; reflexivity.
- apply resetTarotReading_raises.
- apply flipCard_animating.
- intros k r. apply onFetchSettled_animating.
- intros Hsome. unfold animateCardFlip.
  destruct (nth_error (cardMeshes st) cardIndex) as [c |]; [| congruence].
  destruct (flipTick_running cardIndex (rotationX c) now (targetTexture c)
              false (label c) now (setAnimating true st)) as [Ha [ch Hq]].
  { assert (E : now - now == 0) by ring. rewrite E. reflexivity. }
  split; [exact Ha |].
  unfold flipInFlight. exists (rotationX c), now, (targetTexture c), ch, (label c).
  rewrite Hq. apply in_or_app. right. left. reflexivity.
- intros s0 t0 tex changed l. split.
  + apply flipTick_running.
  + apply flipTick_done.
- intros [Hidle [c [Hc [Hrev [Hmesh Hmax]]]]].
  unfold flipCard. rewrite Hidle, Hc, Hrev, Hmesh.
  assert (Hle : (MAX_REVEALED_CARDS <=? revealedCardCount st)%Z = false)
    by (apply Z.leb_gt; exact Hmax).
  rewrite Hle. reflexivity.
Qed.

(** One flip on its own: the card is clicked at 0 and its texture is there
    at 20; a click and a reset at 120 change nothing; the tick at 820
    lowers the flag, and the click at 821 is taken. *)
Example busy_flag_single_flip :
  let during := run singleFlipStart createCards in
  let after := run (singleFlipStart ++ [(420, Frame); (820, Frame)]) createCards in
  animating during = true
  /\ handle during (120, Click 1%nat) = during
  /\ handle during (120, ResetClick) = during
  /\ animating after = false
  /\ rafQueue after = []
  /\ fetching (handle after (821, Click 1%nat)) = [(1%nat, "Present"%string)].
Proof. vm_compute. repeat split. Qed.

(** C2: while a phase is in flight a request to start another one is
    rejected, and the flag is lowered only after every item has completed.
    The code departs from that on [overlappingFlips].  Cards 0 and 1 are
    clicked before either texture has loaded, so both clicks pass the
    guard of [flipCard], which tests a flag that only [animateCardFlip]
    raises; the two flips start at 20 and at 120.  At the frame of 820 the
    first flip completes and lowers the flag while the second is still in
    flight: the reset clicked at 830 is accepted, against the comment of
    its own guard (line 2132, only allow reset if not currently
    animating), and so is a click on a third card. *)
Theorem busy_flag_lowered_during_flip :
  animating afterOverlappingFlips = false
  /\ flipInFlight 1 afterOverlappingFlips
  /\ animating (handle afterOverlappingFlips (830, ResetClick)) = true
  /\ reset (handle afterOverlappingFlips (830, ResetClick)) = FlippingBack 2
  /\ handle afterOverlappingFlips (830, ResetClick) <> afterOverlappingFlips
  /\ fetching (handle afterOverlappingFlips (830, Click 2%nat))
     = [(2%nat, "Future"%string)].
Proof.
vm_compute. repeat split.
- do 5 eexists. left. reflexivity.
- discriminate.
Qed.

(** *** The stagger of the reset

    C3 on the reset: cards 0 and 1 are face up and at rest when the reset
    is clicked at 2000.  The tween of card 1 first runs at 2200, 200 ms
    after the start of the phase, but its clock was started at 2000: that
    first tick already writes two ninths of the turn, and at 2600 both
    tweens complete and the promises of the phase are resolved, 200 ms
    before [1 * 200 + 600] ms have elapsed. *)
Theorem reset_stagger_shares_phase_clock :
  timers (run resetAt2000 createCards)
  = [(2000 + inject_Z 0 * 200,
      FlipBackTimer 0 (rotationOf 0 (run twoFlips createCards)) 2000);
     (2000 + inject_Z 1 * 200,
      FlipBackTimer 1 (rotationOf 1 (run twoFlips createCards)) 2000)]
  /\ rotationOf 1 (run twoFlips createCards) == 0
  /\ reset (run resetAt2000 createCards) = FlippingBack 2
  /\ rotationOf 1 (run (resetAt2000 ++ [(2199, Frame)]) createCards) == 0
  /\ rotationOf 1 (run (resetAt2000 ++ [(2200, Frame)]) createCards)
     == (2 # 9) * Math_PI
  /\ rafQueue (run (resetAt2000 ++ [(2200, Frame)]) createCards)
     = [FlipBackTick 0 (rotationOf 0 (run twoFlips createCards)) 2000;
        FlipBackTick 1 (rotationOf 1 (run twoFlips createCards)) 2000]
  /\ reset (run (resetAt2000 ++ [(2200, Frame); (2599, Frame)]) createCards)
     = FlippingBack 2
  /\ reset (run (resetAt2000 ++ [(2200, Frame); (2600, Frame)]) createCards)
     = FlyingAway
  /\ rafQueue (run (resetAt2000 ++ [(2200, Frame); (2600, Frame)]) createCards)
     = []
  /\ revealState (run (resetAt2000 ++ [(2200, Frame); (2600, Frame)]) createCards)
     = (0%Z, [(false, false); (false, false); (false, false); (false, false)]).
Proof. vm_compute. repeat split. Qed.
End ReadingFacts.

(** ** The staggered entry *)

Section EntryStagger.
Import Entry.
Local Open Scope Q_scope.

Lemma setNth_length (i : nat) (v : Q) (l : list Q) :
  List.length (setNth i v l) = List.length l.
Proof.
revert i. induction l as [| a l IH]; intros [| i]; simpl; auto.
Qed.

Lemma running_iff (now : Q) (k : nat * Q) :
  running now k = true <-> now - snd k < 600.
Proof.
unfold running.
destruct (Qlt_le_dec (Qmin ((now - snd k) / 600) 1) 1) as [L | L]; split;
  intros H; try reflexivity; try discriminate.
- destruct (Qlt_le_dec (now - snd k) 600) as [Hlt | Hge]; [exact Hlt |].
  pose proof (progressOf_done (now - snd k) 600) as Hp.
  unfold Tween.progressOf in Hp. rewrite Hp in L; [lra | reflexivity | exact Hge].
- destruct (progressOf_running (now - snd k) 600) as [_ Hp];
    [reflexivity | exact H |].
  unfold Tween.progressOf in Hp. lra.
Qed.

Lemma running_start (due : Q) (i : nat) : running due (i, due) = true.
Proof.
apply running_iff. simpl. assert (E : due - due == 0) by ring.
rewrite E. reflexivity.
Qed.

Lemma updateCardPosition_effect (i : nat) (y s now : Q) (st : state) :
  timers (updateCardPosition i y s now st) = timers st
  /\ List.length (positionY (updateCardPosition i y s now st))
     = List.length (positionY st)
  /\ rafQueue (updateCardPosition i y s now st)
     = rafQueue st ++ (if running now (i, s) then [(i, y, s)] else [])
  /\ animating (updateCardPosition i y s now st)
     = (if running now (i, s) then animating st
        else if Nat.eqb i (List.length (positionY st) - 1) then false
             else animating st).
Proof.
unfold updateCardPosition, running. simpl snd.
destruct (Qlt_le_dec (Qmin ((now - s) / 600) 1) 1) as [L | L]; simpl.
- rewrite setNth_length. repeat split; reflexivity.
- rewrite setNth_length.
  destruct (Nat.eqb i (List.length (positionY st) - 1)); simpl;
    rewrite ?setNth_length, ?app_nil_r; repeat split; reflexivity.
Qed.

Lemma ticks_effect (now : Q) (q : list (nat * Q * Q)) :
  forall st : state,
    timers (fold_left (runTick now) q st) = timers st
    /\ List.length (positionY (fold_left (runTick now) q st))
       = List.length (positionY st)
    /\ map keyOf (rafQueue (fold_left (runTick now) q st))
       = map keyOf (rafQueue st) ++ filter (running now) (map keyOf q)
    /\ animating (fold_left (runTick now) q st)
       = animating st
         && forallb (keeps now (List.length (positionY st))) (map keyOf q).
Proof.
induction q as [| [[i y] s] q IH]; intros st.
- simpl. rewrite app_nil_r, andb_true_r. repeat split; reflexivity.
- cbn [fold_left map].
  change (runTick now st (i, y, s)) with (updateCardPosition i y s now st).
  change (keyOf (i, y, s)) with (i, s).
  destruct (IH (updateCardPosition i y s now st)) as [Ht [Hl [Hq Ha]]].
  destruct (updateCardPosition_effect i y s now st) as [Ht1 [Hl1 [Hq1 Ha1]]].
  rewrite Ht, Hl, Hq, Ha, Ht1, Hl1, Hq1, Ha1.
  cbn [filter forallb]. unfold keeps at 2. cbn [fst].
  destruct (running now (i, s)); cbn [orb andb].
  + rewrite map_app, <- app_assoc. repeat split; reflexivity.
  + rewrite app_nil_r.
    destruct (Nat.eqb i (List.length (positionY st) - 1)); cbn [negb andb];
      rewrite ?andb_false_r; repeat split; reflexivity.
Qed.

Lemma starts_effect (l : list (Q * nat)) :
  forall st : state,
    timers (fold_left startCard l st) = timers st
    /\ List.length (positionY (fold_left startCard l st))
       = List.length (positionY st)
    /\ map keyOf (rafQueue (fold_left startCard l st))
       = map keyOf (rafQueue st) ++ map swap l
    /\ animating (fold_left startCard l st) = animating st.
Proof.
induction l as [| [d i] l IH]; intros st.
- simpl. rewrite app_nil_r. repeat split; reflexivity.
- cbn [fold_left map].
  change (startCard st (d, i))
    with (updateCardPosition i (nth i (positionY st) 0) d d st).
  destruct (IH (updateCardPosition i (nth i (positionY st) 0) d d st))
    as [Ht [Hl [Hq Ha]]].
  destruct (updateCardPosition_effect i (nth i (positionY st) 0) d d st)
    as [Ht1 [Hl1 [Hq1 Ha1]]].
  rewrite running_start in Hq1, Ha1.
  rewrite Ht, Hl, Hq, Ha, Ht1, Hl1, Hq1, Ha1.
  rewrite map_app, <- app_assoc. repeat split; reflexivity.
Qed.

Lemma frame_effect (st : state) (now : Q) :
  let ks := map keyOf (rafQueue st)
            ++ map swap (filter (isDue now) (timers st)) in
  timers (frame st now) = filter (fun dt => negb (isDue now dt)) (timers st)
  /\ List.length (positionY (frame st now)) = List.length (positionY st)
  /\ map keyOf (rafQueue (frame st now)) = filter (running now) ks
  /\ animating (frame st now)
     = animating st && forallb (keeps now (List.length (positionY st))) ks.
Proof.
intros ks. unfold frame, fireTimers.
set (st0 := mkState (animating st) (positionY st) (rafQueue st)
                    (filter (fun dt => negb (isDue now dt)) (timers st))).
destruct (starts_effect (filter (isDue now) (timers st)) st0)
  as [Ht [Hl [Hq Ha]]].
set (st1 := fold_left startCard (filter (isDue now) (timers st)) st0) in *.
destruct (ticks_effect now (rafQueue st1)
            (mkState (animating st1) (positionY st1) [] (timers st1)))
  as [Ht2 [Hl2 [Hq2 Ha2]]].
cbn [timers positionY rafQueue animating map app] in Ht2, Hl2, Hq2, Ha2.
rewrite Ht2, Hl2, Hq2, Ha2, Ht, Hl, Hq, Ha. repeat split; reflexivity.
Qed.

Lemma forEachCard_effect (remaining : nat) :
  forall (i : nat) (now : Q) (st : state),
    animating (forEachCard remaining i now st) = animating st
    /\ List.length (positionY (forEachCard remaining i now st))
       = List.length (positionY st)
    /\ rafQueue (forEachCard remaining i now st) = rafQueue st
    /\ timers (forEachCard remaining i now st)
       = timers st ++ map (fun j => (dueOf now j, j)) (seq i remaining).
Proof.
induction remaining as [| r IH]; intros i now st.
- simpl. rewrite app_nil_r. repeat split; reflexivity.
- cbn [forEachCard seq map].
  destruct (IH (S i) now
              (setTimeout i (inject_Z (Z.of_nat i) * 150) now
                          (setPositionY i 5 st))) as [Ha [Hl [Hq Ht]]].
  rewrite Ha, Hl, Hq, Ht. simpl. rewrite setNth_length, <- app_assoc.
  repeat split; reflexivity.
Qed.

Lemma dueOf_mono (start : Q) (i j : nat) :
  (i <= j)%nat -> dueOf start i <= dueOf start j.
Proof.
intros Hij. unfold dueOf.
assert (H : inject_Z (Z.of_nat i) <= inject_Z (Z.of_nat j))
  by (rewrite <- Zle_Qle; lia).
lra.
Qed.

Section Phase.
Variable start : Q.
Variable N : nat.
Hypothesis N_pos : (1 <= N)%nat.

#[local] Abbreviation last := (N - 1)%nat.
#[local] Abbreviation finish := (dueOf start (N - 1) + 600).

#[local] Abbreviation okKey := (Entry.okKey start N).
#[local] Abbreviation phase_inv := (Entry.phase_inv start N).

Lemma okKey_running (now : Q) (k : nat * Q) :
  okKey k -> fst k = last -> now < finish -> running now k = true.
Proof.
intros [Hs _] Hl Hnow. apply running_iff. rewrite Hs, Hl.
lra.
Qed.

Lemma okKey_over (now : Q) (k : nat * Q) :
  okKey k -> finish <= now -> running now k = false.
Proof.
intros [Hs Hlt] Hnow.
destruct (running now k) eqn:E; [| reflexivity].
apply running_iff in E. rewrite Hs in E.
assert (Hm : dueOf start (fst k) <= dueOf start last)
  by (apply dueOf_mono; lia).
lra.
Qed.

Lemma okKey_due (now : Q) (dt : Q * nat) :
  okKey (swap dt) -> finish <= now -> isDue now dt = true.
Proof.
intros [Hs Hlt] Hnow. unfold swap in *. simpl in *.
unfold isDue. apply Qle_bool_iff. rewrite Hs.
assert (Hm : dueOf start (snd dt) <= dueOf start last)
  by (apply dueOf_mono; lia).
lra.
Qed.

Lemma Forall_filter {A : Type} (P : A -> Prop) (f : A -> bool) (l : list A) :
  Forall P l -> Forall P (filter f l).
Proof.
intros H. apply Forall_forall. intros a Ha. apply filter_In in Ha.
rewrite Forall_forall in H. apply H. tauto.
Qed.

Lemma filter_none {A : Type} (f : A -> bool) (l : list A) :
  (forall a, In a l -> f a = false) -> filter f l = [].
Proof.
induction l as [| a l IH]; intros H; simpl; [reflexivity |].
rewrite (H a) by (left; reflexivity). apply IH.
intros b Hb. apply H. right. exact Hb.
Qed.

Lemma frame_phase_inv (seen : list Q) (st : state) (now : Q) :
  phase_inv seen st -> phase_inv (seen ++ [now]) (frame st now).
Proof.
intros Hinv.
destruct (frame_effect st now) as [Ht [Hl [Hq Ha]]].
destruct Hinv as [Hlen Hqk Htk Hbusy [k [Hk Hklast]] Hseen
                 | Hlen Hidle Hq0 Ht0 Hseen].
- set (ks := map keyOf (rafQueue st)
             ++ map swap (filter (isDue now) (timers st))) in *.
  assert (Hks : Forall okKey ks).
  { apply Forall_app. split; [exact Hqk |].
    rewrite Forall_forall in *. intros k' Hk'. apply Htk.
    apply in_map_iff in Hk'. destruct Hk' as [dt [<- Hdt]].
    apply in_map. apply filter_In in Hdt. tauto. }
  destruct (Qlt_le_dec now finish) as [Hnow | Hnow].
  + apply Busy.
    * rewrite Hl. exact Hlen.
    * rewrite Hq. apply Forall_filter. exact Hks.
    * rewrite Ht. rewrite Forall_forall in *. intros k' Hk'. apply Htk.
      apply in_map_iff in Hk'. destruct Hk' as [dt [<- Hdt]].
      apply in_map. apply filter_In in Hdt. tauto.
    * rewrite Ha, Hbusy. simpl. apply forallb_forall. intros k' Hk'.
      unfold keeps. rewrite Hlen.
      destruct (Nat.eqb_spec (fst k') last) as [E | E]; [| apply orb_true_r].
      rewrite Forall_forall in Hks.
      rewrite (okKey_running now k' (Hks k' Hk') E Hnow). reflexivity.
    * apply in_app_or in Hk. destruct Hk as [Hk | Hk].
      -- exists k. split; [| exact Hklast].
         apply in_or_app. left. rewrite Hq. apply filter_In. split.
         ++ apply in_or_app. left. exact Hk.
         ++ rewrite Forall_forall in Hqk.
            apply (okKey_running now k (Hqk k Hk) Hklast Hnow).
      -- apply in_map_iff in Hk. destruct Hk as [dt [Edt Hdt]].
         exists k. split; [| exact Hklast].
         destruct (isDue now dt) eqn:Edue.
         ++ apply in_or_app. left. rewrite Hq. apply filter_In. split.
            ** apply in_or_app. right. rewrite <- Edt. apply in_map.
               apply filter_In. split; assumption.
            ** rewrite Forall_forall in Htk.
               apply (okKey_running now k); [| exact Hklast | exact Hnow].
               apply Htk. rewrite <- Edt. apply in_map. exact Hdt.
         ++ apply in_or_app. right. rewrite Ht, <- Edt. apply in_map.
            apply filter_In. split; [exact Hdt | rewrite Edue; reflexivity].
    * apply Forall_app. split; [exact Hseen | constructor; [exact Hnow | constructor]].
  + assert (Hdue : forall dt, In dt (timers st) -> isDue now dt = true).
    { intros dt Hdt. apply okKey_due; [| exact Hnow].
      rewrite Forall_forall in Htk. apply Htk. apply in_map. exact Hdt. }
    assert (Hkin : In k ks).
    { apply in_app_or in Hk. apply in_or_app. destruct Hk as [Hk | Hk];
        [left; exact Hk | right].
      apply in_map_iff in Hk. destruct Hk as [dt [Edt Hdt]].
      rewrite <- Edt. apply in_map. apply filter_In. split; [exact Hdt |].
      apply Hdue. exact Hdt. }
    apply Over.
    * rewrite Hl. exact Hlen.
    * rewrite Ha, Hbusy. simpl.
      destruct (forallb (keeps now (List.length (positionY st))) ks) eqn:E;
        [| reflexivity].
      rewrite forallb_forall in E. specialize (E k Hkin).
      unfold keeps in E. rewrite Hlen in E.
      rewrite Forall_forall in Hks.
      rewrite (okKey_over now k (Hks k Hkin) Hnow) in E.
      rewrite Hklast, Nat.eqb_refl in E. discriminate.
    * apply map_eq_nil with (f := keyOf). rewrite Hq. apply filter_none.
      intros k' Hk'. rewrite Forall_forall in Hks.
      apply okKey_over; [apply Hks; exact Hk' | exact Hnow].
    * rewrite Ht. apply filter_none. intros dt Hdt.
      rewrite (Hdue dt Hdt). reflexivity.
    * apply Exists_app. right. constructor. exact Hnow.
- apply Over.
  + rewrite Hl. exact Hlen.
  + rewrite Ha, Hidle. reflexivity.
  + apply map_eq_nil with (f := keyOf). rewrite Hq, Hq0, Ht0. reflexivity.
  + rewrite Ht, Ht0. reflexivity.
  + apply Exists_app. left. exact Hseen.
Qed.

Lemma frames_phase_inv (frames seen : list Q) (st : state) :
  phase_inv seen st -> phase_inv (seen ++ frames) (fold_left frame frames st).
Proof.
revert seen st. induction frames as [| now frames IH]; intros seen st Hinv.
- rewrite app_nil_r. exact Hinv.
- simpl. replace (seen ++ now :: frames) with ((seen ++ [now]) ++ frames)
    by (rewrite <- app_assoc; reflexivity).
  apply IH. apply frame_phase_inv. exact Hinv.
Qed.

Lemma entry_phase_inv (positions : list Q) (frames : list Q) :
  List.length positions = N ->
  phase_inv frames (run start positions frames).
Proof.
intros Hlen. unfold run. apply (frames_phase_inv frames []).
unfold animateCardsEntry.
destruct (forEachCard_effect (List.length positions) 0 start
            (mkState true positions [] [])) as [Ha [Hl [Hq Ht]]].
simpl in Ha, Hl, Hq, Ht. rewrite Hlen in *.
apply Busy.
- exact Hl.
- rewrite Hq. constructor.
- rewrite Ht. apply Forall_forall. intros k Hk.
  apply in_map_iff in Hk. destruct Hk as [dt [<- Hdt]].
  apply in_map_iff in Hdt. destruct Hdt as [j [<- Hj]].
  apply in_seq in Hj. split; simpl; [reflexivity | lia].
- exact Ha.
- exists (last, dueOf start last). split; [| reflexivity].
  rewrite Hq, Ht. simpl. apply in_map_iff.
  exists (dueOf start last, last). split; [reflexivity |].
  apply in_map_iff. exists last. split; [reflexivity |].
  apply in_seq. lia.
- constructor.
Qed.
End Phase.

(** C3 on the entry.  With [N >= 1] cards, the phase starting at [start]:
    the tween of card [i] has [start + i * 150] as its start time, whatever
    the other cards do; [animating] stays true while no frame has reached
    [start + (N - 1) * 150 + 600]; it is lowered at the first frame that
    has, and then no tween and no timer of the phase is left. *)
Lemma entry_stagger :
  forall (positions : list Q) (start : Q) (frames : list Q),
    (1 <= List.length positions)%nat ->
    let N := List.length positions in
    let st := run start positions frames in
    let finish := start + inject_Z (Z.of_nat (N - 1)) * 150 + 600 in
    (forall i y s, In (i, y, s) (rafQueue st) ->
                   s = start + inject_Z (Z.of_nat i) * 150)
    /\ (forall d i, In (d, i) (timers st) ->
                    d = start + inject_Z (Z.of_nat i) * 150)
    /\ (Forall (fun now => now < finish) frames -> animating st = true)
    /\ (Exists (fun now => finish <= now) frames ->
        animating st = false /\ rafQueue st = [] /\ timers st = [])
    /\ (animating st = false -> Exists (fun now => finish <= now) frames).
Proof.
intros positions start frames Hpos N st finish.
pose proof (entry_phase_inv start N Hpos positions frames eq_refl) as Hinv.
fold st in Hinv.
assert (Hno : Forall (fun now => now < finish) frames ->
              Exists (fun now => finish <= now) frames -> False).
{ intros Hf He. apply Exists_exists in He. destruct He as [now [Hin Hge]].
  rewrite Forall_forall in Hf. specialize (Hf now Hin). simpl in Hf. lra. }
destruct Hinv as [Hlen Hqk Htk Hbusy _ Hseen | Hlen Hidle Hq0 Ht0 Hseen].
- split; [| split; [| split; [| split]]].
  + intros i y s Hin. rewrite Forall_forall in Hqk.
    destruct (Hqk (i, s)) as [Hs _]; [| exact Hs].
    change (i, s) with (keyOf (i, y, s)). apply in_map. exact Hin.
  + intros d i Hin. rewrite Forall_forall in Htk.
    destruct (Htk (i, d)) as [Hs _]; [| exact Hs].
    change (i, d) with (swap (d, i)). apply in_map. exact Hin.
  + intros _. exact Hbusy.
  + intros He. destruct (Hno Hseen He).
  + intros Hidle. rewrite Hbusy in Hidle. discriminate.
- split; [| split; [| split; [| split]]].
  + intros i y s Hin. rewrite Hq0 in Hin. destruct Hin.
  + intros d i Hin. rewrite Ht0 in Hin. destruct Hin.
  + intros Hf. destruct (Hno Hf Hseen).
  + intros _. repeat split; assumption.
  + intros _. exact Hseen.
Qed.

(** Five cards (the entry of [script.js] has four): the flag is still
    raised at 1199 ms and is lowered by the frame at [4 * 150 + 600] ms. *)
Example entry_stagger_five :
  animating (run 0 [0; 0; 0; 0; 0] [16; 160; 600; 1199]) = true
  /\ animating (run 0 [0; 0; 0; 0; 0] [16; 160; 600; 1199; 1200]) = false
  /\ map keyOf (rafQueue (run 0 [0; 0; 0; 0; 0] [16; 160; 320]))
     = [(0%nat, dueOf 0 0); (1%nat, dueOf 0 1); (2%nat, dueOf 0 2)].
Proof. vm_compute. repeat split. Qed.
End EntryStagger.

(* ================================================================== *)
(** * Part III: further properties of the code *)
(* ================================================================== *)

From Stdlib Require Import Sorted.

(** ** The shape of the easings and the end of a tween *)

Section TweenShape.
Import Easing Tween.
Local Open Scope Q_scope.

Lemma cube_mono (a b : Q) : 0 <= a -> a <= b -> a * (a * a) <= b * (b * b).
Proof.
intros Ha Hab. assert (a * a <= b * b) by nra. assert (0 <= a * a) by nra. nra.
Qed.

Lemma easeOutQuad_form (p : Q) : easeOutQuad p == 1 - (1 - p) * (1 - p).
Proof. unfold easeOutQuad. simpl. ring. Qed.

Lemma easeOutCubic_form (p : Q) :
  easeOutCubic p == 1 - (1 - p) * ((1 - p) * (1 - p)).
Proof. unfold easeOutCubic. simpl. ring. Qed.

Lemma easeInOutQuad_form (p : Q) :
  easeInOutQuad p
  == if Qlt_le_dec p (1 # 2) then 2 * (p * p)
     else 1 - 2 * ((1 - p) * (1 - p)).
Proof.
unfold easeInOutQuad. destruct (Qlt_le_dec p (1 # 2)); simpl; field.
Qed.

Lemma easeInOutCubic_form (p : Q) :
  easeInOutCubic p
  == if Qlt_le_dec p (1 # 2) then 4 * (p * (p * p))
     else 1 - 4 * ((1 - p) * ((1 - p) * (1 - p))).
Proof.
unfold easeInOutCubic. destruct (Qlt_le_dec p (1 # 2)); simpl; field.
Qed.

Lemma ease_mono (e : easing) (p q : Q) :
  0 <= p -> p <= q -> q <= 1 -> ease e p <= ease e q.
Proof.
intros H0 Hpq H1. destruct e; simpl.
- rewrite !easeOutCubic_form.
  pose proof (cube_mono (1 - q) (1 - p)). lra.
- rewrite !easeOutQuad_form. nra.
- rewrite !easeInOutQuad_form.
  destruct (Qlt_le_dec p (1 # 2)), (Qlt_le_dec q (1 # 2)); try nra.
- rewrite !easeInOutCubic_form.
  destruct (Qlt_le_dec p (1 # 2)), (Qlt_le_dec q (1 # 2)).
  + pose proof (cube_mono p q). lra.
  + pose proof (cube_mono p (1 # 2)). pose proof (cube_mono (1 - q) (1 # 2)).
    lra.
  + lra.
  + pose proof (cube_mono (1 - q) (1 - p)). lra.
- unfold linear. exact Hpq.
Qed.

Lemma ease_0 (e : easing) : ease e 0 == 0.
Proof. destruct e; vm_compute; reflexivity. Qed.

Lemma ease_1 (e : easing) : ease e 1 == 1.
Proof. destruct e; vm_compute; reflexivity. Qed.

Lemma ease_range (e : easing) (p : Q) :
  0 <= p -> p <= 1 -> 0 <= ease e p /\ ease e p <= 1.
Proof.
intros H0 H1. split.
- rewrite <- (ease_0 e). apply ease_mono; lra.
- rewrite <- (ease_1 e). apply ease_mono; lra.
Qed.

Lemma progressOf_range (elapsed duration : Q) :
  0 < duration -> 0 <= elapsed ->
  0 <= progressOf elapsed duration /\ progressOf elapsed duration <= 1.
Proof.
intros Hd He. split; [| apply progressOf_le_1].
unfold progressOf. apply Q.min_glb; [| discriminate].
apply Qle_shift_div_l; lra.
Qed.

Lemma progressOf_mono (e1 e2 duration : Q) :
  0 < duration -> e1 <= e2 ->
  progressOf e1 duration <= progressOf e2 duration.
Proof.
intros Hd He. unfold progressOf. apply Q.min_le_compat_r.
apply Qle_shift_div_l; [exact Hd |].
assert (E : e1 / duration * duration == e1) by (field; lra).
rewrite E. exact He.
Qed.

Lemma valueAt_monotone (e : easing) (start target duration e1 e2 : Q) :
  0 < duration -> 0 <= e1 -> e1 <= e2 ->
  (start <= target ->
   start <= valueAt e start target duration e1
   /\ valueAt e start target duration e1
      <= valueAt e start target duration e2
   /\ valueAt e start target duration e2 <= target)
  /\ (target <= start ->
      target <= valueAt e start target duration e2
      /\ valueAt e start target duration e2
         <= valueAt e start target duration e1
      /\ valueAt e start target duration e1 <= start).
Proof.
intros Hd H1 H12.
destruct (progressOf_range e1 duration Hd H1) as [Hp1 Hp1'].
assert (H2 : 0 <= e2) by lra.
destruct (progressOf_range e2 duration Hd H2) as [Hp2 Hp2'].
pose proof (progressOf_mono e1 e2 duration Hd H12) as Hm.
destruct (ease_range e _ Hp1 Hp1') as [Ha1 Hb1].
destruct (ease_range e _ Hp2 Hp2') as [Ha2 Hb2].
pose proof (ease_mono e _ _ Hp1 Hm Hp2') as Hem.
unfold valueAt, interpolate.
set (a := ease e (progressOf e1 duration)) in *.
set (b := ease e (progressOf e2 duration)) in *.
split; intros Hst; repeat split; nra.
Qed.

(** X2. The quantities that a tick writes as
    [start + (target - start) * easedProgress] never overshoot and never
    go back: the rotation of a flip ([updateCardRotation]) goes down from
    its start to 0, the height of an entering card ([updateCardPosition])
    goes from its start to 0, and each component of a hover scale
    ([updateScale]) goes from its start to its target, a later tick
    writing a value at least as far along. *)
Theorem tween_value_monotone :
  forall e1 e2 : Q,
    0 <= e1 -> e1 <= e2 ->
    (forall startRotX : Q,
       0 <= startRotX ->
       0 <= updateCardRotation startRotX e2
       /\ updateCardRotation startRotX e2 <= updateCardRotation startRotX e1
       /\ updateCardRotation startRotX e1 <= startRotX)
    /\ (forall startY : Q,
          (0 <= startY ->
           0 <= updateCardPosition startY e2
           /\ updateCardPosition startY e2 <= updateCardPosition startY e1
           /\ updateCardPosition startY e1 <= startY)
          /\ (startY <= 0 ->
              startY <= updateCardPosition startY e1
              /\ updateCardPosition startY e1 <= updateCardPosition startY e2
              /\ updateCardPosition startY e2 <= 0))
    /\ (forall startScale targetScale : vec3,
          (x startScale <= x targetScale ->
           x startScale <= x (updateScale startScale targetScale e1)
           /\ x (updateScale startScale targetScale e1)
              <= x (updateScale startScale targetScale e2)
           /\ x (updateScale startScale targetScale e2) <= x targetScale)
          /\ (x targetScale <= x startScale ->
              x targetScale <= x (updateScale startScale targetScale e2)
              /\ x (updateScale startScale targetScale e2)
                 <= x (updateScale startScale targetScale e1)
              /\ x (updateScale startScale targetScale e1) <= x startScale)).
Proof.
intros e1 e2 H1 H12. split; [| split].
- intros startRotX Hs. rewrite !updateCardRotation_valueAt.
  apply (valueAt_monotone EaseInOutQuad startRotX 0 800 e1 e2);
    [reflexivity | exact H1 | exact H12 | exact Hs].
- intros startY. rewrite !updateCardPosition_valueAt. split; intros Hs.
  + apply (valueAt_monotone EaseOutCubic startY 0 600 e1 e2);
      [reflexivity | exact H1 | exact H12 | exact Hs].
  + apply (valueAt_monotone EaseOutCubic startY 0 600 e1 e2);
      [reflexivity | exact H1 | exact H12 | exact Hs].
- intros s g. rewrite !updateScale_valueAt. cbn [x].
  apply (valueAt_monotone EaseOutQuad (x s) (x g) 200 e1 e2);
    [reflexivity | exact H1 | exact H12].
Qed.

Lemma tween_value_monotone_witness :
  0 <= updateCardRotation (22 # 7) 600
  /\ updateCardRotation (22 # 7) 600 <= updateCardRotation (22 # 7) 200
  /\ updateCardRotation (22 # 7) 200 <= 22 # 7.
Proof.
refine (proj1 (tween_value_monotone 200 600 _ _) (22 # 7) _); discriminate.
Defined.

(** X3. The two ease-in-out curves have no jump where their two branches
    meet, at one half, and each is its own mirror image about that point:
    the second half of the motion is the first half reversed. *)
Theorem ease_in_out_symmetric :
  forall p : Q,
    easeInOutQuad (1 - p) == 1 - easeInOutQuad p
    /\ easeInOutCubic (1 - p) == 1 - easeInOutCubic p
    /\ 2 * (1 # 2) * (1 # 2) == 1 - (-2 * (1 # 2) + 2) ^ 2 / 2
    /\ 4 * (1 # 2) * (1 # 2) * (1 # 2) == 1 - (-2 * (1 # 2) + 2) ^ 3 / 2
    /\ easeInOutQuad (1 # 2) == 1 # 2
    /\ easeInOutCubic (1 # 2) == 1 # 2.
Proof.
intros p. split; [| split].
- rewrite !easeInOutQuad_form.
  destruct (Qlt_le_dec (1 - p) (1 # 2)), (Qlt_le_dec p (1 # 2)); try ring.
  + lra.
  + assert (E : p == 1 # 2) by lra. rewrite E. reflexivity.
- rewrite !easeInOutCubic_form.
  destruct (Qlt_le_dec (1 - p) (1 # 2)), (Qlt_le_dec p (1 # 2)); try ring.
  + lra.
  + assert (E : p == 1 # 2) by lra. rewrite E. reflexivity.
- repeat split; vm_compute; reflexivity.
Qed.

Lemma update_lands (tw : tween) (now : Q) (cs : list call) :
  queued (update tw now (mkDriver false cs)) = true
  \/ exists v,
       calls (update tw now (mkDriver false cs))
       = cs ++ [OnUpdate v; OnComplete]
       /\ v == tTarget tw.
Proof.
unfold update.
destruct (Qlt_le_dec (Qmin ((now - tStartTime tw) / tDuration tw) 1) 1)
  as [L | L]; [left; reflexivity | right].
eexists. split.
- unfold emit. simpl. rewrite <- app_assoc. reflexivity.
- assert (Hp : Qmin ((now - tStartTime tw) / tDuration tw) 1 == 1).
  { apply Qle_antisym; [apply Q.le_min_r | exact L]. }
  assert (E : ease (tEasing tw)
                (Qmin ((now - tStartTime tw) / tDuration tw) 1)
              == ease (tEasing tw) 1) by (apply ease_compat; exact Hp).
  rewrite E, ease_1. ring.
Qed.

Lemma frames_land (tw : tween) (frames : list Q) :
  forall d : driver,
    (queued d = false ->
     exists pre v, calls d = pre ++ [OnUpdate v; OnComplete]
                   /\ v == tTarget tw) ->
    queued (fold_left (frame tw) frames d) = false ->
    exists pre v,
      calls (fold_left (frame tw) frames d) = pre ++ [OnUpdate v; OnComplete]
      /\ v == tTarget tw.
Proof.
induction frames as [| now frames IH]; intros d Hd Hq; simpl in *.
- apply Hd. exact Hq.
- apply IH; [| exact Hq].
  unfold frame. destruct (queued d) eqn:Eq.
  + intros Hq'.
    destruct (update_lands tw now (calls d)) as [Ht | [v [Hc Hv]]];
      [congruence |].
    exists (calls d), v. split; assumption.
  + intros _. apply Hd. reflexivity.
Qed.

Lemma frames_keep_prefix (tw : tween) (frames : list Q) :
  forall d : driver,
    exists more, calls (fold_left (frame tw) frames d) = calls d ++ more.
Proof.
induction frames as [| now frames IH]; intros d; simpl.
- exists []. rewrite app_nil_r. reflexivity.
- destruct (IH (frame tw d now)) as [more Hm]. rewrite Hm.
  unfold frame. destruct (queued d).
  + destruct (update_calls tw now (mkDriver false (calls d))) as [rest Hr].
    rewrite Hr. simpl. eexists. rewrite <- app_assoc. reflexivity.
  + exists more. reflexivity.
Qed.

(** X1. Whether or not it ever completes, a tween that is called when
    it is created first writes its start value; and a tween that has
    completed wrote its target with its last update, right before the
    completion: whatever the frame times, the animated quantity ends
    exactly on the target. *)
Theorem tween_lands_on_target :
  forall (tw : tween) (firstCall : Q) (frames : list Q),
    0 < tDuration tw ->
    (firstCall == tStartTime tw ->
     exists v rest,
       calls (run tw firstCall frames) = OnUpdate v :: rest
       /\ v == tStart tw)
    /\ (completions (run tw firstCall frames) = 1%nat ->
        exists pre v,
          calls (run tw firstCall frames) = pre ++ [OnUpdate v; OnComplete]
          /\ v == tTarget tw).
Proof.
intros tw firstCall frames Hd. split.
- intros Hstart. unfold run.
  destruct (frames_keep_prefix tw frames (update tw firstCall (mkDriver false [])))
    as [more Hm].
  destruct (update_calls tw firstCall (mkDriver false [])) as [rest Hr].
  rewrite Hm, Hr. simpl. eexists. eexists. split; [reflexivity |].
  unfold valueAt, interpolate, progressOf.
  assert (E0 : (firstCall - tStartTime tw) / tDuration tw == 0).
  { rewrite Hstart. field. lra. }
  assert (Hp : Qmin ((firstCall - tStartTime tw) / tDuration tw) 1 == 0).
  { rewrite E0. reflexivity. }
  assert (E : ease (tEasing tw)
                (Qmin ((firstCall - tStartTime tw) / tDuration tw) 1)
              == ease (tEasing tw) 0) by (apply ease_compat; exact Hp).
  rewrite E, ease_0. ring.
- intros Hc. unfold run. apply frames_land.
  + intros Hq.
    destruct (update_lands tw firstCall []) as [Ht | [v [Hcs Hv]]];
      [congruence |].
    exists [], v. split; assumption.
  + destruct (run_inv tw firstCall frames) as [_ Hc0 _ | Hq _ _];
      [rewrite Hc0 in Hc; discriminate | exact Hq].
Qed.

Lemma tween_lands_on_target_witness :
  (exists v rest,
      calls (run (mkTween EaseOutCubic 5 0 600 0) 0 [300]) = OnUpdate v :: rest
      /\ v == 5)
  /\ exists pre v,
       calls (run (mkTween EaseOutCubic 5 0 600 0) 0 [300; 600])
       = pre ++ [OnUpdate v; OnComplete]
       /\ v == 0.
Proof.
split.
- refine (proj1 (tween_lands_on_target (mkTween EaseOutCubic 5 0 600 0) 0
                   [300] _) _); reflexivity.
- refine (proj2 (tween_lands_on_target (mkTween EaseOutCubic 5 0 600 0) 0
                   [300; 600] _) _); reflexivity.
Defined.
End TweenShape.

(** ** The cull with any number of cards, and where the cards land *)

Section CullMore.
Import Cull.
Local Open Scope Q_scope.

Lemma selectLoop_any (rand : nat -> Q) :
  (forall n, 0 <= rand n /\ rand n < 1) ->
  forall (count i cursor : nat) (rest kept : list shuffleCard),
    exists kept' rest',
      selectLoop count i rand cursor rest kept
      = Some (kept ++ kept', rest',
              (cursor + Nat.min count (List.length rest))%nat)
      /\ List.length kept' = Nat.min count (List.length rest)
      /\ List.length rest'
         = (List.length rest - Nat.min count (List.length rest))%nat
      /\ Permutation (map name kept' ++ map name rest') (map name rest).
Proof.
intros Hrand. induction count as [| count IH]; intros i cursor rest kept.
- exists [], rest. simpl. rewrite app_nil_r, Nat.add_0_r, Nat.sub_0_r.
  repeat split. apply Permutation_refl.
- destruct rest as [| c0 tl] eqn:Erest.
  + destruct (IH (S i) cursor [] kept) as [kept' [rest' [Hrun [Hk [Hr Hp]]]]].
    exists kept', rest'. simpl in *. rewrite Nat.min_0_r in *.
    repeat split; assumption.
  + rewrite <- Erest in *.
    assert (Hpos : (0 < List.length rest)%nat) by (rewrite Erest; simpl; lia).
    destruct (Hrand cursor) as [Hr0 Hr1].
    pose proof (randomIndex_range (rand cursor) (List.length rest) Hr0 Hr1 Hpos)
      as Hidx.
    destruct (splice1_spec rest _ Hidx) as [a [rest1 [Hsp [Hperm [Hl1 _]]]]].
    destruct (IH (S i) (S cursor) rest1 (kept ++ [mark i a]))
      as [kept'' [rest' [Hrun [Hk [Hr Hp]]]]].
    exists (mark i a :: kept''), rest'.
    assert (Hmin : Nat.min (S count) (List.length rest)
                   = S (Nat.min count (List.length rest1))) by lia.
    split; [| split; [| split]].
    * simpl selectLoop. rewrite Erest. rewrite <- Erest. rewrite Hsp, Hrun.
      rewrite <- app_assoc. simpl app. rewrite Hmin.
      f_equal. f_equal. lia.
    * rewrite Hmin. simpl. lia.
    * rewrite Hmin. lia.
    * simpl. apply Permutation_trans with (name a :: map name rest1).
      -- apply perm_skip. exact Hp.
      -- change (name a :: map name rest1) with (map name (a :: rest1)).
         apply Permutation_map. exact Hperm.
Qed.

(** X4. The selection never fails, whatever the size of the pool: it
    keeps [min K N] cards and leaves the other [N - min K N], using one
    random value per kept card; with fewer than [K] cards it keeps them
    all, and with none it keeps none. *)
Theorem selection_never_fails :
  forall (K : nat) (pool : list shuffleCard) (rand : nat -> Q),
    (forall n, 0 <= rand n /\ rand n < 1) ->
    exists kept discarded,
      selectCards K pool rand
      = Some (kept, discarded, Nat.min K (List.length pool))
      /\ List.length kept = Nat.min K (List.length pool)
      /\ List.length discarded
         = (List.length pool - Nat.min K (List.length pool))%nat
      /\ Permutation (map name kept ++ map name discarded) (map name pool)
      /\ ((List.length pool <= K)%nat ->
          discarded = [] /\ Permutation (map name kept) (map name pool))
      /\ (pool = [] -> kept = []).
Proof.
intros K pool rand Hrand.
destruct (selectLoop_any rand Hrand K 0 0 pool [])
  as [kept [discarded [Hrun [Hk [Hd Hp]]]]].
exists kept, discarded. simpl in Hrun.
split; [exact Hrun |]. split; [exact Hk |]. split; [exact Hd |].
split; [exact Hp |]. split.
- intros Hle.
  assert (Hnil : discarded = []).
  { apply length_zero_iff_nil. rewrite Hd. lia. }
  split; [exact Hnil |]. rewrite Hnil in Hp. simpl in Hp.
  rewrite app_nil_r in Hp. exact Hp.
- intros ->. apply length_zero_iff_nil. rewrite Hk. simpl. lia.
Qed.

Lemma selection_never_fails_witness :
  exists kept discarded,
    selectCards 4 (createShuffleCards 2) (randFrom [1 # 2; 1 # 2])
    = Some (kept, discarded, Nat.min 4 (List.length (createShuffleCards 2)))
    /\ List.length kept = Nat.min 4 (List.length (createShuffleCards 2)).
Proof.
destruct (selection_never_fails 4 (createShuffleCards 2)
            (randFrom [1 # 2; 1 # 2])) as [kept [discarded [H1 [H2 _]]]].
- intros n. unfold randFrom.
  destruct n as [| [| [| n]]]; simpl; split; try discriminate; reflexivity.
- exists kept, discarded. split; assumption.
Defined.

(** X5. The four kept cards are sent to the very places where
    [createCards] then puts the cards of the reading, so the hand-over
    does not move them.  In the doubles of the program the row is
    -4.800000000000001, -1.6000000000000005, 1.5999999999999996,
    4.800000000000001: it runs from left to right, and it is centred
    only up to rounding, the two inner cards being 8.9e-16 off. *)
Theorem final_positions_row :
  (forall i : nat, finalPositionX numCardsToKeep i = Layout.createCardsX i)
  /\ map (finalPositionX numCardsToKeep) [0; 1; 2; 3]%nat
     = [(-4.800000000000001)%float; (-1.6000000000000005)%float;
        1.5999999999999996%float; 4.800000000000001%float]
  /\ (forall i : nat,
        (i < 3)%nat ->
        PrimFloat.ltb (finalPositionX numCardsToKeep i)
                      (finalPositionX numCardsToKeep (S i)) = true)
  /\ (finalPositionX numCardsToKeep 1 + finalPositionX numCardsToKeep 2)%float
     = (-8.881784197001252e-16)%float.
Proof.
split; [| split; [| split]].
- intros i. unfold finalPositionX, Layout.createCardsX, numCardsToKeep.
  reflexivity.
- vm_compute. reflexivity.
- intros i Hi.
  destruct i as [| [| [| i]]]; [vm_compute; reflexivity .. | lia].
- vm_compute. reflexivity.
Qed.
End CullMore.

(** ** What the fetch stores and returns *)

Section FetchMore.
Import Fetch Stored.
Local Open Scope Q_scope.

Lemma insert_perm (c : card) (l : list card) : Permutation (insert c l) (c :: l).
Proof.
induction l as [| d l IH]; simpl; [apply Permutation_refl |].
destruct (Qle_bool (position c) (position d)); [apply Permutation_refl |].
apply Permutation_trans with (d :: c :: l);
  [apply perm_skip; exact IH | apply perm_swap].
Qed.

Lemma sort_perm (l : list card) : Permutation (sort l) l.
Proof.
induction l as [| c l IH]; simpl; [apply Permutation_refl |].
apply Permutation_trans with (c :: sort l);
  [apply insert_perm | apply perm_skip; exact IH].
Qed.

Lemma insert_sorted (c : card) (l : list card) :
  Sorted byPosition l -> Sorted byPosition (insert c l).
Proof.
induction l as [| d l IH]; intros Hs; simpl.
- repeat constructor.
- destruct (Qle_bool (position c) (position d)) eqn:E.
  + constructor; [exact Hs |]. constructor. apply Qle_bool_iff. exact E.
  + inversion Hs as [| ? ? Hs' Hd]; subst.
    assert (Hdc : position d <= position c).
    { destruct (Qlt_le_dec (position d) (position c)) as [L | L];
        [apply Qlt_le_weak; exact L |].
      apply Qle_bool_iff in L. congruence. }
    constructor; [apply IH; exact Hs' |].
    destruct l as [| d' l]; simpl.
    * constructor. exact Hdc.
    * destruct (Qle_bool (position c) (position d')); constructor;
        [exact Hdc |].
      inversion Hd; assumption.
Qed.

Lemma sort_sorted (l : list card) : Sorted byPosition (sort l).
Proof.
induction l as [| c l IH]; simpl; [constructor | apply insert_sorted; exact IH].
Qed.

Lemma withPositions_content (rand : nat -> Q) (blocks : list block) :
  forall cursor, map content (withPositions rand cursor blocks) = blocks.
Proof.
induction blocks as [| b blocks IH]; intros cursor; simpl;
  [reflexivity | rewrite IH; reflexivity].
Qed.

Lemma stored_cards_are_the_valid_blocks_aux (e : env) (blocks : list block)
  (st : state) : allValid (cards (storeCards e blocks st)).
Proof.
unfold storeCards. simpl.
set (valid := filter hasValidImage blocks).
unfold allValid. apply Forall_forall. intros c Hc.
assert (Hin : In (content c) valid).
{ apply (Permutation_in (l := map content (sort (withPositions (rand e) (cursor st) valid)))).
  - apply Permutation_trans with (map content (withPositions (rand e) (cursor st) valid)).
    + apply Permutation_map. apply sort_perm.
    + rewrite withPositions_content. apply Permutation_refl.
  - apply in_map. exact Hc. }
unfold valid in Hin. apply filter_In in Hin. tauto.
Qed.

(** X6. After a search the global [cards] holds exactly the blocks of the
    result that have a valid image, each once, in the order of their
    random positions; nothing else of the state changes but the count of
    random values used. *)
Theorem stored_cards_are_the_valid_blocks :
  forall (e : env) (blocks : list block) (st : state),
    Permutation (map content (cards (storeCards e blocks st)))
                (filter hasValidImage blocks)
    /\ Sorted byPosition (cards (storeCards e blocks st))
    /\ allValid (cards (storeCards e blocks st))
    /\ List.length (cards (storeCards e blocks st))
       = List.length (filter hasValidImage blocks)
    /\ cursor (storeCards e blocks st)
       = (cursor st + List.length (filter hasValidImage blocks))%nat
    /\ requests (storeCards e blocks st) = requests st.
Proof.
intros e blocks st. unfold storeCards. simpl.
set (valid := filter hasValidImage blocks).
set (ws := withPositions (rand e) (cursor st) valid).
assert (Hperm : Permutation (map content (sort ws)) valid).
{ apply Permutation_trans with (map content ws).
  - apply Permutation_map. apply sort_perm.
  - unfold ws. rewrite withPositions_content. apply Permutation_refl. }
split; [exact Hperm |]. split; [apply sort_sorted |].
split; [| split; [| split; reflexivity]].
- unfold allValid. apply Forall_forall. intros c Hc.
  assert (Hin : In (content c) valid).
  { apply (Permutation_in _ Hperm). apply in_map. exact Hc. }
  unfold valid in Hin. apply filter_In in Hin. tauto.
- rewrite <- (length_map content). apply Permutation_length. exact Hperm.
Qed.

Lemma list_eq_dec_nil {A : Type} (l : list A) : {l = []} + {l <> []}.
Proof. destruct l; [left; reflexivity | right; discriminate]. Qed.

Lemma randomIndex_lt (r : Q) (length : nat) :
  0 <= r -> r < 1 -> (0 < length)%nat -> (randomIndex r length < length)%nat.
Proof.
intros H0 H1 Hl. unfold randomIndex.
exact (randomIndex_range r length H0 H1 Hl).
Qed.

Lemma randomCard_some (e : env) (st : state) :
  (forall n, 0 <= rand e n /\ rand e n < 1) ->
  cards st <> [] ->
  exists c, fst (randomCard e st) = Some c /\ In c (cards st)
            /\ cards (snd (randomCard e st)) = cards st.
Proof.
intros Hrand Hne. unfold randomCard. simpl.
destruct (Hrand (cursor st)) as [H0 H1].
assert (Hl : (0 < List.length (cards st))%nat).
{ destruct (cards st); [congruence | simpl; lia]. }
pose proof (randomIndex_lt _ _ H0 H1 Hl) as Hi.
destruct (nth_error (cards st) _) as [c |] eqn:E.
- exists c. repeat split. apply (nth_error_In _ _ E).
- apply nth_error_None in E. lia.
Qed.

Lemma fetchSingleCardContent_valid (e : env) :
  (forall n, 0 <= rand e n /\ rand e n < 1) ->
  forall (attempts : nat) (st st' : state) (v : option card),
    allValid (cards st) ->
    fetchSingleCardContent attempts e st = Returned v st' ->
    exists c, v = Some c /\ hasValidImage (content c) = true
              /\ In c (cards st') /\ allValid (cards st').
Proof.
intros Hrand.
assert (Hpick : forall st st' v,
           allValid (cards st) -> cards st <> [] ->
           (let (c, st1) := randomCard e st in Returned c st1)
           = Returned v st' ->
           exists c, v = Some c /\ hasValidImage (content c) = true
                     /\ In c (cards st') /\ allValid (cards st')).
{ intros st st' v Hv Hne Hret.
  destruct (randomCard_some e st Hrand Hne) as [c [Hc [Hin Hcs]]].
  destruct (randomCard e st) as [c' st1]. simpl in Hc, Hcs.
  inversion Hret; subst. exists c. rewrite Hcs.
  repeat split; try assumption.
  unfold allValid in Hv. rewrite Forall_forall in Hv. apply Hv. exact Hin. }
assert (Hcached : forall a st,
           cards st <> [] ->
           fetchSingleCardContent a e st
           = (let (c, st1) := randomCard e st in Returned c st1)).
{ intros a st Hne. destruct a; simpl; destruct (cards st) eqn:E;
    try congruence; reflexivity. }
induction attempts as [| m IH]; intros st st' v Hv Hret.
- destruct (list_eq_dec_nil (cards st)) as [Ec | Ec].
  + simpl in Hret. rewrite Ec in Hret. discriminate.
  + rewrite (Hcached 0%nat st Ec) in Hret. exact (Hpick st st' v Hv Ec Hret).
- destruct (list_eq_dec_nil (cards st)) as [Ec | Ec].
  + rewrite (fetchSingleCardContent_S m e st Ec) in Hret.
    destruct (getRandomQuery e st) as [q st1].
    destruct (request e q st1) as [r st2].
    destruct r as [| | blocks]; try discriminate.
    pose proof (stored_cards_are_the_valid_blocks_aux e blocks st2) as Hall.
    destruct (list_eq_dec_nil (cards (storeCards e blocks st2))) as [Es | Es].
    * rewrite Es in Hret. apply (IH _ _ _ Hall Hret).
    * apply (Hpick (storeCards e blocks st2) st' v Hall Es).
      destruct (cards (storeCards e blocks st2)); [congruence | exact Hret].
  + rewrite (Hcached (S m) st Ec) in Hret. exact (Hpick st st' v Hv Ec Hret).
Qed.

(** X7. Whenever [fetchSingleCardContent] resolves, it resolves with a
    card, never with [undefined], and the card has a valid image: so the
    branch "No valid image found in card data" of [flipCard] is never
    taken on what it returns; the flip goes on to load the texture, and
    the flags and the counter of the reading stay as they are. *)
Theorem fetched_card_is_valid :
  forall (e : env) (attempts : nat) (st st' : state) (v : option card),
    (forall n, 0 <= rand e n /\ rand e n < 1) ->
    allValid (cards st) ->
    fetchSingleCardContent attempts e st = Returned v st' ->
    exists c,
      v = Some c
      /\ hasValidImage (content c) = true
      /\ In c (cards st')
      /\ allValid (cards st')
      /\ forall (reading : Reading.state) (k i : nat) (l : string),
           nth_error (Reading.fetching reading) k = Some (i, l) ->
           Reading.loading
             (Reading.onFetchSettled k
                (Reading.Fetched (option_map content v)) reading)
           = Reading.loading reading ++ [(i, l, id (content c))]
           /\ Reading.revealState
                (Reading.onFetchSettled k
                   (Reading.Fetched (option_map content v)) reading)
              = Reading.revealState reading.
Proof.
intros e attempts st st' v Hrand Hv Hret.
destruct (fetchSingleCardContent_valid e Hrand attempts st st' v Hv Hret)
  as [c [Hsome [Hvalid [Hin Hall]]]].
exists c. repeat split; try assumption.
- subst v. unfold Reading.onFetchSettled. rewrite H. simpl option_map.
  cbv beta iota. rewrite Hvalid. reflexivity.
- subst v. unfold Reading.onFetchSettled. rewrite H. simpl option_map.
  cbv beta iota. rewrite Hvalid. unfold Reading.revealState, Reading.updateCard. simpl.
  f_equal. apply map_updateNth_same. intros a _. reflexivity.
Qed.

Lemma fetched_card_is_valid_witness :
  exists c st',
    fetchSingleCardContent 1 oneImage (mkState [] 0 []) = Returned (Some c) st'
    /\ hasValidImage (content c) = true.
Proof.
edestruct (fun v st' =>
             fetched_card_is_valid oneImage 1 (mkState [] 0 []) st' v)
  as [c [Hsome [Hvalid _]]].
- intros n. split; [discriminate | reflexivity].
- constructor.
- vm_compute. reflexivity.
- exists c. eexists. inversion Hsome; subst c.
  split; [vm_compute; reflexivity | exact Hvalid].
Defined.

Lemma fetchRandomContent_retries_cards (e : env) (n : nat) :
  forall st : state,
    (forall k q, (k < n)%nat ->
                 emptyResult (respond e (List.length (requests st) + k) q)) ->
    exists st',
      (forall m, fetchRandomContent (n + m) e st = fetchRandomContent m e st')
      /\ List.length (requests st') = (List.length (requests st) + n)%nat
      /\ ((0 < n)%nat -> cards st' = [])
      /\ (n = 0%nat -> st' = st).
Proof.
induction n as [| n IH]; intros st Hempty.
- exists st. repeat split; [lia | lia].
- destruct (fetchRandomContent_retry e st) as [st1 [Hstep [Hnil Hlen]]].
  { intros q. specialize (Hempty 0%nat q). rewrite Nat.add_0_r in Hempty.
    apply Hempty. lia. }
  destruct (IH st1) as [st' [Hrun [Hlen' [Hc Hz]]]].
  { intros k q Hk. rewrite Hlen.
    replace (S (List.length (requests st)) + k)%nat
      with (List.length (requests st) + S k)%nat by lia.
    apply Hempty. lia. }
  exists st'. split; [| split; [| split]].
  + intros m. change (S n + m)%nat with (S (n + m)). rewrite Hstep. apply Hrun.
  + lia.
  + intros _. destruct n; [rewrite (Hz eq_refl); exact Hnil | apply Hc; lia].
  + discriminate.
Qed.

(** X8. A search that fails ends the retries: after [n] searches without
    a valid image, a rejected request or a body without blocks makes
    [fetchRandomContent] reject, after [n + 1] requests in all; [cards] is
    left empty by the searches before it, or untouched when the first
    search fails. *)
Theorem fetch_error_ends_retry :
  forall (e : env) (st : state) (n attempts : nat),
    (forall k q, (k < n)%nat ->
                 emptyResult (respond e (List.length (requests st) + k) q)) ->
    (forall q, errorResult (respond e (List.length (requests st) + n) q)) ->
    (n < attempts)%nat ->
    exists st',
      fetchRandomContent attempts e st = Threw st'
      /\ List.length (requests st') = (List.length (requests st) + n + 1)%nat
      /\ ((0 < n)%nat -> cards st' = [])
      /\ (n = 0%nat -> cards st' = cards st).
Proof.
intros e st n attempts Hempty Herr Hlt.
destruct (fetchRandomContent_retries_cards e n st Hempty)
  as [st1 [Hrun [Hlen [Hc Hz]]]].
replace attempts with (n + S (attempts - n - 1))%nat by lia.
rewrite Hrun, fetchRandomContent_S.
destruct (getRandomQuery e st1) as [q st2] eqn:Eq.
destruct (getRandomQuery_keeps e st1) as [Hcards Hreq]. rewrite Eq in Hcards, Hreq.
simpl in Hcards, Hreq.
specialize (Herr q). rewrite <- Hlen, <- Hreq in Herr.
unfold request.
destruct (respond e (List.length (requests st2)) q) as [| | blocks] eqn:Er.
- eexists. split; [reflexivity |]. simpl. rewrite length_app, Hreq. simpl.
  split; [lia |]. rewrite Hcards. split; [exact Hc |].
  intros Hn. rewrite (Hz Hn). reflexivity.
- eexists. split; [reflexivity |]. simpl. rewrite length_app, Hreq. simpl.
  split; [lia |]. rewrite Hcards. split; [exact Hc |].
  intros Hn. rewrite (Hz Hn). reflexivity.
- destruct Herr; discriminate.
Qed.

Lemma fetch_error_ends_retry_witness :
  exists st',
    fetchRandomContent 5 emptyThenError (mkState [] 0 []) = Threw st'
    /\ List.length (requests st') = 2%nat.
Proof.
destruct (fetch_error_ends_retry emptyThenError (mkState [] 0 []) 1 5)
  as [st' [H1 [H2 _]]].
- intros k q Hk. destruct k; [reflexivity | lia].
- intros q. left. reflexivity.
- lia.
- exists st'. split; assumption.
Defined.

(** X9. After [loadQueriesFromJson] the list of queries is never empty:
    it is the queries of [data.json], all categories together, or the five
    defaults when the file cannot be read or holds no query; so
    [getRandomQuery] then always draws one of the loaded queries. *)
Theorem queries_never_empty :
  forall (data : option (list (string * list string))) (e : env) (st : state),
    queries e = snd (Startup.loadQueriesFromJson data) ->
    0 <= rand e (cursor st) /\ rand e (cursor st) < 1 ->
    queries e <> []
    /\ In (fst (getRandomQuery e st)) (queries e)
    /\ cursor (snd (getRandomQuery e st)) = S (cursor st)
    /\ (fst (Startup.loadQueriesFromJson data) = true ->
        exists categories,
          data = Some categories
          /\ queries e = List.concat (map snd categories))
    /\ (fst (Startup.loadQueriesFromJson data) = false ->
        queries e = Startup.defaultQueries).
Proof.
intros data e st Hq [H0 H1].
assert (Hne : queries e <> []).
{ rewrite Hq. unfold Startup.loadQueriesFromJson.
  destruct data as [categories |]; [| discriminate].
  destruct (List.concat (map snd categories)); discriminate. }
split; [exact Hne |]. split; [| split; [| split]].
- assert (Hin : In (nth (randomIndex (rand e (cursor st))
                                      (List.length (queries e)))
                         (queries e) ""%string) (queries e)).
  { apply nth_In. apply randomIndex_lt; [exact H0 | exact H1 |].
    destruct (queries e); [congruence | simpl; lia]. }
  unfold getRandomQuery. destruct (queries e); [congruence | exact Hin].
- unfold getRandomQuery. destruct (queries e); [congruence | reflexivity].
- rewrite Hq. unfold Startup.loadQueriesFromJson.
  destruct data as [categories |]; [| discriminate].
  destruct (List.concat (map snd categories)) eqn:E; [discriminate |].
  intros _. exists categories. split; [reflexivity | simpl; congruence].
- rewrite Hq. unfold Startup.loadQueriesFromJson.
  destruct data as [categories |]; [| reflexivity].
  destruct (List.concat (map snd categories)); [reflexivity | discriminate].
Qed.

Lemma queries_never_empty_witness :
  In (fst (getRandomQuery
             (mkEnv Startup.defaultQueries (fun _ => 1 # 2)
                    (fun _ _ => NetworkError))
             (mkState [] 0 [])))
     Startup.defaultQueries.
Proof.
refine (proj1 (proj2 (queries_never_empty None
          (mkEnv Startup.defaultQueries (fun _ => 1 # 2)
                 (fun _ _ => NetworkError))
          (mkState [] 0 []) _ _))).
- reflexivity.
- split; [discriminate | reflexivity].
Defined.
End FetchMore.

(** ** More on the reading *)

Section ReadingMore.
Import Reading.
Local Open Scope Q_scope.

Lemma fold_left_inv {A S : Type} (P : S -> Prop) (f : S -> A -> S)
  (l : list A) :
  (forall s a, P s -> P (f s a)) -> forall s, P s -> P (fold_left f l s).
Proof.
intros Hf. induction l as [| a l IH]; intros s H; simpl; auto.
Qed.

(** X10. [flipCard] is idempotent.  A click on the canvas reaches
    [clickHandler] twice, from the [mouseup] listener and from the [click]
    listener; the second [flipCard(cardIndex)] changes nothing: the card
    is revealed by then, or the reset button is highlighted already. *)
Theorem flipCard_idempotent :
  forall (cardIndex : nat) (st : state),
    flipCard cardIndex (flipCard cardIndex st) = flipCard cardIndex st.
Proof.
intros i st.
destruct (animating st) eqn:Ea.
{ unfold flipCard. rewrite Ea. rewrite Ea. reflexivity. }
destruct (nth_error (cardMeshes st) i) as [c |] eqn:Ec.
2:{ unfold flipCard. rewrite Ea, Ec. rewrite Ea, Ec. reflexivity. }
destruct (revealed c) eqn:Er.
{ unfold flipCard. rewrite Ea, Ec, Er. rewrite Ea, Ec, Er. reflexivity. }
destruct (MAX_REVEALED_CARDS <=? revealedCardCount st)%Z eqn:Em.
{ assert (E : flipCard i st = highlightResetButton st).
  { unfold flipCard. rewrite Ea, Ec, Er, Em. reflexivity. }
  rewrite E. unfold flipCard, highlightResetButton. simpl.
  rewrite Ea, Ec, Er, Em. reflexivity. }
destruct (negb (cardMesh c)) eqn:Eg.
{ unfold flipCard. rewrite Ea, Ec, Er, Em, Eg. rewrite Ea, Ec, Er, Em, Eg.
  reflexivity. }
assert (E : flipCard i st
            = setFetching
                (fetching st ++ [(i, labelFor (revealedCardCount st + 1))])
                (setCount (revealedCardCount st + 1)
                   (updateCard i (setFlags true true) st))).
{ unfold flipCard. rewrite Ea, Ec, Er, Em, Eg. reflexivity. }
rewrite E. unfold flipCard. simpl.
rewrite Ea, nth_error_updateNth, Ec. simpl. reflexivity.
Qed.

Lemma failFlip_count (i : nat) (st : state) :
  revealedCardCount (failFlip i st) = (revealedCardCount st - 1)%Z.
Proof. reflexivity. Qed.

Lemma flipCard_count (i : nat) (st : state) :
  (revealedCardCount st <= MAX_REVEALED_CARDS)%Z ->
  (revealedCardCount (flipCard i st) <= MAX_REVEALED_CARDS)%Z.
Proof.
intros H. unfold flipCard.
destruct (animating st); [exact H |].
destruct (nth_error (cardMeshes st) i) as [c |]; [| exact H].
destruct (revealed c); [exact H |].
destruct (MAX_REVEALED_CARDS <=? revealedCardCount st)%Z eqn:Em; [exact H |].
destruct (negb (cardMesh c)); [exact H |].
simpl. apply Z.leb_gt in Em. unfold MAX_REVEALED_CARDS in *. lia.
Qed.

Lemma onFetchSettled_count (k : nat) (r : fetchResult) (st : state) :
  (revealedCardCount (onFetchSettled k r st) <= revealedCardCount st)%Z.
Proof.
unfold onFetchSettled.
destruct (nth_error (fetching st) k) as [[i l] |]; [| lia].
destruct r as [| [cardData |]]; try (rewrite failFlip_count; simpl; lia).
destruct (Fetch.hasValidImage cardData);
  [simpl; lia | rewrite failFlip_count; simpl; lia].
Qed.

Lemma flipTick_count i s0 t0 tex changed l now (st : state) :
  revealedCardCount (flipTick i s0 t0 tex changed l now st)
  = revealedCardCount st.
Proof.
unfold flipTick.
destruct (Qlt_le_dec _ 1);
  destruct (Qle_bool _ _ && negb changed && _);
  try destruct (String.eqb l ""); reflexivity.
Qed.

Lemma resolveFlipBack_count (st : state) :
  (revealedCardCount st <= MAX_REVEALED_CARDS)%Z ->
  (revealedCardCount (resolveFlipBack st) <= MAX_REVEALED_CARDS)%Z.
Proof.
intros H. unfold resolveFlipBack.
destruct (reset st) as [| [| [| n]] |]; try exact H.
simpl. unfold MAX_REVEALED_CARDS. lia.
Qed.

Lemma flipBackTick_count i s0 t0 now (st : state) :
  (revealedCardCount st <= MAX_REVEALED_CARDS)%Z ->
  (revealedCardCount (flipBackTick i s0 t0 now st) <= MAX_REVEALED_CARDS)%Z.
Proof.
intros H. unfold flipBackTick.
destruct (Qlt_le_dec _ 1); [exact H |].
apply resolveFlipBack_count. exact H.
Qed.

Lemma animateCardFlip_count i now (st : state) :
  revealedCardCount (animateCardFlip i now st) = revealedCardCount st.
Proof.
unfold animateCardFlip.
destruct (nth_error (cardMeshes st) i); [| reflexivity].
rewrite flipTick_count. reflexivity.
Qed.

Lemma onTextureSettled_count k loaded now (st : state) :
  (revealedCardCount (onTextureSettled k loaded now st)
   <= revealedCardCount st)%Z.
Proof.
unfold onTextureSettled.
destruct (nth_error (loading st) k) as [[[i l] tex] |]; [| lia].
destruct loaded; [| rewrite failFlip_count; simpl; lia].
destruct (MAX_REVEALED_CARDS <=? _)%Z; simpl;
  rewrite animateCardFlip_count; simpl; lia.
Qed.

Lemma flipBackTimers_count (cs : list card) (now : Q) :
  forall (i : nat) (st : state),
    revealedCardCount (fst (flipBackTimers i cs now st))
    = revealedCardCount st.
Proof.
induction cs as [| c cs IH]; intros i st; simpl; [reflexivity |].
destruct (revealed c).
- specialize (IH (S i)
    (setTimeout (FlipBackTimer i (rotationX c) now)
                (inject_Z (Z.of_nat i) * 200) now st)).
  destruct (flipBackTimers _ _ _ _) as [st' n]. simpl in *. exact IH.
- apply IH.
Qed.

Lemma resetTarotReading_count now (st : state) :
  (revealedCardCount st <= MAX_REVEALED_CARDS)%Z ->
  (revealedCardCount (resetTarotReading now st) <= MAX_REVEALED_CARDS)%Z.
Proof.
intros H. unfold resetTarotReading.
destruct (animating st); [exact H |].
pose proof (flipBackTimers_count
              (cardMeshes (setHighlighted false (setAnimating true st)))
              now 0 (setHighlighted false (setAnimating true st))) as Hc.
destruct (flipBackTimers _ _ _ _) as [st' n]. simpl in Hc.
destruct n; simpl; [unfold MAX_REVEALED_CARDS; lia | rewrite Hc; exact H].
Qed.

Lemma handle_count (st : state) (timed : Q * event) :
  (revealedCardCount st <= MAX_REVEALED_CARDS)%Z ->
  (revealedCardCount (handle st timed) <= MAX_REVEALED_CARDS)%Z.
Proof.
intros H. unfold handle.
assert (H' : (revealedCardCount (fireTimers (fst timed) st)
              <= MAX_REVEALED_CARDS)%Z).
{ unfold fireTimers.
  apply (fold_left_inv
           (fun s => (revealedCardCount s <= MAX_REVEALED_CARDS)%Z)).
  - intros s [due [| i s0 t0]] Hs; simpl; [exact Hs |].
    apply flipBackTick_count. exact Hs.
  - exact H. }
destruct (snd timed) as [i | | k r | k loaded |].
- apply flipCard_count. exact H'.
- apply resetTarotReading_count. exact H'.
- pose proof (onFetchSettled_count k r (fireTimers (fst timed) st)). lia.
- pose proof (onTextureSettled_count k loaded (fst timed)
                (fireTimers (fst timed) st)). lia.
- unfold frame.
  apply (fold_left_inv
           (fun s => (revealedCardCount s <= MAX_REVEALED_CARDS)%Z)).
  + intros s [i s0 t0 tex changed l | i s0 t0] Hs; simpl.
    * rewrite flipTick_count. exact Hs.
    * apply flipBackTick_count. exact Hs.
  + exact H'.
Qed.

(** X11. No more than three cards are counted as revealed, whatever the
    clicks, the resets, the ways the fetches and the texture loads settle,
    and the frames: [revealedCardCount] never exceeds
    [MAX_REVEALED_CARDS]. *)
Theorem revealed_count_bounded :
  forall (events : list (Q * event)) (st : state),
    (revealedCardCount st <= MAX_REVEALED_CARDS)%Z ->
    (revealedCardCount (run events st) <= MAX_REVEALED_CARDS)%Z.
Proof.
intros events st H. unfold run.
apply (fold_left_inv
         (fun s => (revealedCardCount s <= MAX_REVEALED_CARDS)%Z));
  [apply handle_count | exact H].
Qed.

Lemma revealed_count_bounded_witness :
  (revealedCardCount (run twoFlips createCards) <= MAX_REVEALED_CARDS)%Z.
Proof.
apply (revealed_count_bounded twoFlips createCards).
vm_compute. discriminate.
Defined.

End ReadingMore.

Section FlipMore.
Import Reading Flip.
Local Open Scope Q_scope.

Lemma fold_left_inv_in {A S : Type} (P : S -> Prop) (f : S -> A -> S)
  (l : list A) :
  (forall s a, In a l -> P s -> P (f s a)) ->
  forall s, P s -> P (fold_left f l s).
Proof.
induction l as [| a l IH]; intros Hf s H; simpl; auto.
apply IH.
- intros s' a' Hin. apply Hf. right. exact Hin.
- apply Hf; [left; reflexivity | exact H].
Qed.

(** With no flip-back waiting, the timers that fire touch the highlight of
    the reset button only. *)
Lemma fireTimers_highlights (now : Q) (st : state) :
  onlyHighlights st ->
  onlyHighlights (fireTimers now st)
  /\ animating (fireTimers now st) = animating st
  /\ rafQueue (fireTimers now st) = rafQueue st
  /\ cardMeshes (fireTimers now st) = cardMeshes st
  /\ loading (fireTimers now st) = loading st.
Proof.
intros H. unfold fireTimers, onlyHighlights in *.
set (later := filter (fun dt => negb (Qle_bool (fst dt) now)) (timers st)).
assert (Hlater : Forall (fun dt : Q * timer => snd dt = HighlightTimer) later).
{ apply Forall_forall. intros dt Hin. apply filter_In in Hin.
  rewrite Forall_forall in H. apply H. tauto. }
apply (fold_left_inv_in
         (fun s => Forall (fun dt : Q * timer => snd dt = HighlightTimer)
                          (timers s)
                   /\ animating s = animating st
                   /\ rafQueue s = rafQueue st
                   /\ cardMeshes s = cardMeshes st
                   /\ loading s = loading st)).
- intros s dt Hin Hs. apply filter_In in Hin. destruct Hin as [Hin _].
  rewrite Forall_forall in H. rewrite (H dt Hin). simpl. exact Hs.
- simpl. repeat split; try reflexivity. exact Hlater.
Qed.

Lemma flipTick_spec (i : nat) (s0 t0 : Q) (tex : nat) (changed : bool)
  (l : string) (now : Q) (st : state) (c : card) :
  nth_error (cardMeshes st) i = Some c ->
  (changed = true -> frontMap c = Some tex) ->
  timers (flipTick i s0 t0 (Some tex) changed l now st) = timers st
  /\ ((now - t0 < 800
       /\ animating (flipTick i s0 t0 (Some tex) changed l now st)
          = animating st
       /\ exists changed' c',
            rafQueue (flipTick i s0 t0 (Some tex) changed l now st)
            = rafQueue st ++ [FlipTick i s0 t0 (Some tex) changed' l]
            /\ nth_error
                 (cardMeshes (flipTick i s0 t0 (Some tex) changed l now st)) i
               = Some c'
            /\ flagsOf c' = flagsOf c
            /\ (changed' = true -> frontMap c' = Some tex))
      \/ (800 <= now - t0
          /\ animating (flipTick i s0 t0 (Some tex) changed l now st) = false
          /\ rafQueue (flipTick i s0 t0 (Some tex) changed l now st)
             = rafQueue st
          /\ exists c',
               nth_error
                 (cardMeshes (flipTick i s0 t0 (Some tex) changed l now st)) i
               = Some c'
               /\ rotationX c' == 0
               /\ frontMap c' = Some tex
               /\ flagsOf c' = flagsOf c
               /\ (l <> ""%string -> textLabel c' = Some l))).
Proof.
intros Hc Hch. unfold flipTick.
set (p := Qmin ((now - t0) / 800) 1).
destruct (Qlt_le_dec p 1) as [L | L].
- split.
  { destruct (Qle_bool (1 # 2) p && negb changed && true); reflexivity. }
  left. split.
  { destruct (Qlt_le_dec (now - t0) 800) as [H | H]; [exact H |].
    pose proof (progressOf_done (now - t0) 800 eq_refl H) as Hp.
    unfold Tween.progressOf in Hp. fold p in Hp. lra. }
  split.
  { destruct (Qle_bool (1 # 2) p && negb changed && true); reflexivity. }
  destruct (Qle_bool (1 # 2) p && negb changed && true) eqn:Ech.
  + exists (changed || true)%bool. eexists. split; [reflexivity |].
    simpl. rewrite !nth_error_updateNth, Hc. simpl.
    split; [reflexivity |]. split; reflexivity.
  + exists (changed || false)%bool. eexists. split; [reflexivity |].
    simpl. rewrite !nth_error_updateNth, Hc. simpl.
    split; [reflexivity |]. split; [reflexivity |].
    rewrite orb_false_r. exact Hch.
- assert (Hp : p == 1).
  { apply Qle_antisym; [apply Q.le_min_r | exact L]. }
  split.
  { destruct (Qle_bool (1 # 2) p && negb changed && true);
      destruct (String.eqb l ""); reflexivity. }
  right. split.
  { destruct (Qlt_le_dec (now - t0) 800) as [H | H]; [| exact H].
    destruct (progressOf_running (now - t0) 800 eq_refl H) as [_ Hlt].
    unfold Tween.progressOf in Hlt. fold p in Hlt. lra. }
  split.
  { destruct (Qle_bool (1 # 2) p && negb changed && true);
      destruct (String.eqb l ""); reflexivity. }
  split.
  { destruct (Qle_bool (1 # 2) p && negb changed && true);
      destruct (String.eqb l ""); reflexivity. }
  assert (Hhalf : Qle_bool (1 # 2) p = true).
  { apply Qle_bool_iff. rewrite Hp. discriminate. }
  assert (Hrot : s0 + (0 - s0)
                      * (if Qlt_le_dec p (1 # 2)
                         then 2 * p * p
                         else 1 - (-2 * p + 2) ^ 2 / 2) == 0).
  { destruct (Qlt_le_dec p (1 # 2)) as [H | H]; [lra |].
    rewrite Hp. field. }
  rewrite Hhalf. simpl andb.
  destruct changed; simpl negb; cbv iota.
  + specialize (Hch eq_refl).
    destruct (String.eqb l "") eqn:El.
    * eexists. split; [simpl; rewrite nth_error_updateNth, Hc; reflexivity |].
      simpl. repeat split; try assumption.
      intros Hl. apply String.eqb_eq in El. contradiction.
    * eexists. split.
      { unfold createLabelForCard. simpl.
        rewrite !nth_error_updateNth, Hc. reflexivity. }
      simpl. repeat split; try assumption.
  + destruct (String.eqb l "") eqn:El.
    * eexists. split; [simpl; rewrite !nth_error_updateNth, Hc; reflexivity |].
      simpl. repeat split; try assumption.
      intros Hl. apply String.eqb_eq in El. contradiction.
    * eexists. split.
      { unfold createLabelForCard. simpl.
        rewrite !nth_error_updateNth, Hc. reflexivity. }
      simpl. repeat split; try assumption.
Qed.

Lemma insertTimer_Forall (P : Q * timer -> Prop) (due : Q) (t : timer)
  (l : list (Q * timer)) :
  P (due, t) -> Forall P l -> Forall P (insertTimer due t l).
Proof.
intros Hp. induction l as [| [d t'] l IH]; intros H; simpl.
- constructor; [exact Hp | constructor].
- inversion H; subst. destruct (Qle_bool d due).
  + constructor; [assumption | apply IH; assumption].
  + constructor; [exact Hp | exact H].
Qed.

Lemma flip_starts (st : state) (k i : nat) (l : string) (tex : nat)
  (c : card) (t0 : Q) :
  nth_error (loading st) k = Some (i, l, tex) ->
  nth_error (cardMeshes st) i = Some c ->
  rafQueue st = [] ->
  onlyHighlights st ->
  onlyHighlights (handle st (t0, TextureSettled k true))
  /\ flipping i tex l t0 (flagsOf c) (handle st (t0, TextureSettled k true)).
Proof.
intros Hk Hc Hq Hh. unfold handle. simpl fst. simpl snd.
destruct (fireTimers_highlights t0 st Hh) as [Hh' [Ha [Hq' [Hc' Hl]]]].
set (st0 := fireTimers t0 st) in *.
unfold onTextureSettled. rewrite Hl, Hk.
set (st2 := updateCard i (setTarget tex l)
              (setLoading (removeNth k (loading st)) st0)).
assert (Hc2 : nth_error (cardMeshes st2) i = Some (setTarget tex l c)).
{ unfold st2. simpl. rewrite nth_error_updateNth, Hc', Hc. reflexivity. }
unfold animateCardFlip. rewrite Hc2. simpl rotationX. simpl targetTexture.
simpl label.
destruct (flipTick_spec i (rotationX c) t0 tex false l t0
            (setAnimating true st2) (setTarget tex l c) Hc2)
  as [Ht [[_ [Han [changed' [c' [Hraf [Hn [Hf Hm]]]]]]] | [Hge _]]];
  [discriminate | | lra].
set (st3 := flipTick i (rotationX c) t0 (Some tex) false l t0
              (setAnimating true st2)) in *.
assert (Hh3 : onlyHighlights st3).
{ unfold onlyHighlights. rewrite Ht. exact Hh'. }
assert (Hflip : flipping i tex l t0 (flagsOf c) st3).
{ split; [exact Han |].
  exists (rotationX c), changed', c'. split; [| split; [| split]].
  - rewrite Hraf. simpl. rewrite Hq', Hq. reflexivity.
  - exact Hn.
  - rewrite Hf. reflexivity.
  - exact Hm. }
destruct (MAX_REVEALED_CARDS <=? revealedCardCount st3)%Z.
- split.
  + unfold onlyHighlights, setTimeout. simpl.
    apply insertTimer_Forall; [reflexivity | exact Hh3].
  + exact Hflip.
- split; assumption.
Qed.

Lemma flip_frame (st : state) (i : nat) (l : string) (tex : nat)
  (flags : bool * bool) (t0 now : Q) :
  onlyHighlights st ->
  flipping i tex l t0 flags st \/ flipped i tex l flags st ->
  onlyHighlights (handle st (now, Frame))
  /\ (flipping i tex l t0 flags (handle st (now, Frame))
      \/ flipped i tex l flags (handle st (now, Frame)))
  /\ (t0 + 800 <= now -> flipped i tex l flags (handle st (now, Frame))).
Proof.
intros Hh H. unfold handle. simpl fst. simpl snd.
destruct (fireTimers_highlights now st Hh) as [Hh' [Ha [Hq [Hc _]]]].
set (st0 := fireTimers now st) in *.
unfold frame. rewrite Hq.
destruct H as [[Han [s0 [changed [c [Hraf [Hn [Hf Hm]]]]]]]
              | [Han [Hraf [c [Hn Hrest]]]]].
- rewrite Hraf. simpl fold_left.
  assert (Hn0 : nth_error (cardMeshes (setRafQueue [] st0)) i = Some c).
  { simpl. rewrite Hc. exact Hn. }
  destruct (flipTick_spec i s0 t0 tex changed l now (setRafQueue [] st0) c
              Hn0 Hm)
    as [Ht [[Hlt [Han' [changed' [c' [Hraf' [Hn' [Hf' Hm']]]]]]]
           | [Hge [Han' [Hraf' [c' [Hn' [Hrot [Hmap [Hf' Hlab]]]]]]]]]].
  + split; [unfold onlyHighlights; rewrite Ht; exact Hh' |].
    split; [| intros; lra].
    left. split; [rewrite Han'; simpl; rewrite Ha; exact Han |].
    exists s0, changed', c'. split; [exact Hraf' |].
    split; [exact Hn' |]. split; [congruence | exact Hm'].
  + assert (Hdone : flipped i tex l flags
                      (flipTick i s0 t0 (Some tex) changed l now
                         (setRafQueue [] st0))).
    { split; [exact Han' |]. split; [exact Hraf' |].
      exists c'. split; [exact Hn' |]. split; [exact Hrot |].
      split; [exact Hmap |]. split; [congruence | exact Hlab]. }
    split; [unfold onlyHighlights; rewrite Ht; exact Hh' |].
    split; [right; exact Hdone | intros _; exact Hdone].
- rewrite Hraf. simpl fold_left.
  assert (Hdone : flipped i tex l flags (setRafQueue [] st0)).
  { split; [simpl; rewrite Ha; exact Han |]. split; [reflexivity |].
    exists c. split; [simpl; rewrite Hc; exact Hn | exact Hrest]. }
  split; [exact Hh' |].
  split; [right; exact Hdone | intros _; exact Hdone].
Qed.

(** The flip from the loading of the texture to the first frame at
    800 ms or later, as states of [Flip]. *)
Lemma flip_phase :
  forall (st : state) (k cardIndex : nat) (label : string) (texture : nat)
         (cardGroup : card) (startTime : Q) (frames : list Q) (final : Q),
    nth_error (loading st) k = Some (cardIndex, label, texture) ->
    nth_error (cardMeshes st) cardIndex = Some cardGroup ->
    rafQueue st = [] ->
    onlyHighlights st ->
    startTime + 800 <= final ->
    flipped cardIndex texture label (flagsOf cardGroup)
            (run (flipEvents k startTime (frames ++ [final])) st).
Proof.
intros st k i l tex c t0 frames final Hk Hc Hq Hh Hfinal.
unfold run, flipEvents. simpl fold_left.
destruct (flip_starts st k i l tex c t0 Hk Hc Hq Hh) as [Hh1 Hf1].
set (st1 := handle st (t0, TextureSettled k true)) in *.
rewrite map_app, fold_left_app. simpl.
assert (Hinv : onlyHighlights
                 (fold_left handle (map (fun now => (now, Frame)) frames) st1)
               /\ (flipping i tex l t0 (flagsOf c)
                     (fold_left handle (map (fun now => (now, Frame)) frames)
                                st1)
                   \/ flipped i tex l (flagsOf c)
                        (fold_left handle
                                   (map (fun now => (now, Frame)) frames)
                                   st1))).
{ assert (H1 : onlyHighlights st1
               /\ (flipping i tex l t0 (flagsOf c) st1
                   \/ flipped i tex l (flagsOf c) st1)) by tauto.
  clearbody st1. clear Hh1 Hf1. revert st1 H1.
  induction frames as [| now frames IH]; intros st1 H1; simpl; [exact H1 |].
  apply IH. destruct H1 as [Ha Hb].
  destruct (flip_frame st1 i l tex (flagsOf c) t0 now Ha Hb) as [H2 [H3 _]].
  split; assumption. }
destruct Hinv as [Ha Hb].
destruct (flip_frame _ i l tex (flagsOf c) t0 final Ha Hb) as [_ [_ H]].
exact (H Hfinal).
Qed.

(** X13. A flip runs to its end.  From the moment the texture of a card
    is loaded, and whatever the times of the display frames in between,
    the first frame at 800 ms or later leaves the card face up
    ([rotation.x] is 0), with the loaded texture on its front, with its
    label attached, and with the flags it had; [animating] is false again
    and the tick of the flip is not requested any more.  (The label then
    fades in on frames of its own, which the model leaves out.) *)
Theorem flip_completes :
  forall (st : state) (k cardIndex : nat) (label : string) (texture : nat)
         (cardGroup : card) (startTime : Q) (frames : list Q) (final : Q),
    nth_error (loading st) k = Some (cardIndex, label, texture) ->
    nth_error (cardMeshes st) cardIndex = Some cardGroup ->
    rafQueue st = [] ->
    onlyHighlights st ->
    startTime + 800 <= final ->
    animating (run (flipEvents k startTime (frames ++ [final])) st) = false
    /\ ~ flipInFlight cardIndex
           (run (flipEvents k startTime (frames ++ [final])) st)
    /\ exists flippedGroup,
         nth_error
           (cardMeshes (run (flipEvents k startTime (frames ++ [final])) st))
           cardIndex
         = Some flippedGroup
         /\ rotationX flippedGroup == 0
         /\ frontMap flippedGroup = Some texture
         /\ flagsOf flippedGroup = flagsOf cardGroup
         /\ (label <> ""%string -> textLabel flippedGroup = Some label).
Proof.
intros st k i l tex c t0 frames final Hk Hc Hq Hh Hfinal.
destruct (flip_phase st k i l tex c t0 frames final Hk Hc Hq Hh Hfinal)
  as [Ha [Hq' Hcard]].
split; [exact Ha |]. split; [| exact Hcard].
intros [s0 [t1 [tex' [ch [l' Hin]]]]]. rewrite Hq' in Hin. destruct Hin.
Qed.

Lemma flip_completes_witness :
  animating (run (flipEvents 0 20 ([100; 500] ++ [820])) awaitingTexture)
  = false.
Proof.
refine (proj1 (flip_completes awaitingTexture 0 0 "Past" 11
                 (mkCard true true true (Some 11%nat) None "" Math_PI None None)
                 20 [100; 500] 820 _ _ _ _ _)).
- reflexivity.
- reflexivity.
- reflexivity.
- constructor.
- discriminate.
Defined.
End FlipMore.

(** ** The pointer *)

Section PointerFacts.
Import Tween Pointer.
Local Open Scope Q_scope.

Lemma updateScale_gesture (tw : scaleTween) (now : Q) (st : state) :
  gesture (updateScale tw now st) = gesture st.
Proof. unfold updateScale. destruct (Qlt_le_dec _ 1); reflexivity. Qed.

Lemma gsapLikeScale_gesture (obj : nat) (tx ty tz now : Q) (st : state) :
  gesture (gsapLikeScale obj tx ty tz now st) = gesture st.
Proof.
unfold gsapLikeScale. destruct (nth_error (scales st) obj); [| reflexivity].
apply updateScale_gesture.
Qed.

Lemma resetHover_gesture (now : Q) (st : state) :
  gesture (resetHover now st) = gesture st.
Proof.
unfold resetHover. destruct (hoveredCard st); [| reflexivity].
exact (gsapLikeScale_gesture n 1 1 1 now st).
Qed.

Lemma hover_gesture (h : hit) (now : Q) (st : state) :
  gesture (hover h now st) = gesture st.
Proof.
destruct h as [| i u | i]; simpl.
- apply (resetHover_gesture now (setCursor false st)).
- apply (resetHover_gesture now (setCursor true st)).
- set (st1 := match hoveredCard st with
              | Some h' => if Nat.eqb h' i then setCursor true st
                           else resetHover now (setCursor true st)
              | None => setCursor true st
              end).
  assert (H1 : gesture st1 = gesture st).
  { unfold st1. destruct (hoveredCard st) as [h' |]; [| reflexivity].
    destruct (Nat.eqb h' i); [reflexivity |].
    apply (resetHover_gesture now (setCursor true st)). }
  destruct (hoveredCard st1); [exact H1 |].
  rewrite gsapLikeScale_gesture. exact H1.
Qed.

Lemma frame_gesture (now : Q) (st : state) :
  gesture (frame now st) = gesture st.
Proof.
unfold frame.
apply (fold_left_inv (fun s => gesture s = gesture st)).
- intros s tw Hs. rewrite updateScale_gesture. exact Hs.
- reflexivity.
Qed.

Lemma run_drag (c : container) (x0 y0 t0 : Q) (moves : list (Q * event)) :
  0 < t0 ->
  Forall (fun e => moveOrFrame (snd e)) moves ->
  forall st : state,
    mouseDownTime st = t0 ->
    mouseDownPosition st = (x0, y0) ->
    gesture (run c moves st)
    = (isDragging st || existsb (fun e => dragMove x0 y0 (snd e)) moves,
       t0, (x0, y0)).
Proof.
intros Ht0 Hall. induction Hall as [| [now e] moves He _ IH]; intros st Ht Hp.
- simpl. unfold gesture. rewrite Ht, Hp, orb_false_r. reflexivity.
- unfold run. simpl fold_left. fold (run c moves (handle c st (now, e))).
  destruct e as [| a x y h | | |]; simpl in He; try contradiction.
  + assert (Hg : gesture (handle c st (now, MouseMove a x y h))
                 = (isDragging st || dragMove x0 y0 (MouseMove a x y h),
                    t0, (x0, y0))).
    { unfold handle, mousemove. simpl fst. simpl snd.
      destruct a.
      - simpl. unfold gesture. rewrite Ht, Hp, orb_false_r. reflexivity.
      - assert (Hpos : Qle_bool t0 0 = false).
        { destruct (Qle_bool t0 0) eqn:E; [| reflexivity].
          apply Qle_bool_iff in E. lra. }
        rewrite hover_gesture. unfold trackDrag. rewrite Ht, Hp, Hpos.
        cbn [fst snd].
        change (dragMove x0 y0 (MouseMove false x y h))
          with (negb (Qle_bool (Qabs (x - x0)) 5)
                || negb (Qle_bool (Qabs (y - y0)) 5)).
        destruct (negb (Qle_bool (Qabs (x - x0)) 5)
                  || negb (Qle_bool (Qabs (y - y0)) 5));
          unfold gesture;
          cbn [isDragging mouseDownTime mouseDownPosition setDragging
               setMouse];
          rewrite ?Ht, ?Hp; destruct (isDragging st); reflexivity. }
    unfold gesture in Hg. injection Hg as Hd Ht' Hp'.
    rewrite (IH _ Ht' Hp'). rewrite Hd. simpl existsb.
    rewrite orb_assoc. reflexivity.
  + assert (Hg : gesture (handle c st (now, Frame)) = gesture st).
    { unfold handle. simpl. apply frame_gesture. }
    unfold gesture in Hg. injection Hg as Hd Ht' Hp'.
    rewrite (IH _ (eq_trans Ht' Ht) (eq_trans Hp' Hp)). rewrite Hd.
    reflexivity.
Qed.

(** X14. Which releases count as clicks.  After a press at ([x0], [y0])
    at time [t0], a release at [t1] is taken for a click exactly when it
    comes less than 300 ms after the press and no [mousemove] in between,
    of those that arrive while [animating] is false, is more than 5 pixels
    away from the press in [x] or in [y].  The moves that arrive while
    [animating] is true are not looked at. *)
Theorem click_iff_no_drag :
  forall (c : container) (st : state) (x0 y0 t0 t1 : Q)
         (moves : list (Q * event)),
    0 < t0 ->
    Forall (fun e => moveOrFrame (snd e)) moves ->
    isClick t1 (run c moves (mousedown x0 y0 t0 st)) = true
    <-> (t1 - t0 < 300
         /\ forall now clientX clientY h,
              In (now, MouseMove false clientX clientY h) moves ->
              Qabs (clientX - x0) <= 5 /\ Qabs (clientY - y0) <= 5).
Proof.
intros c st x0 y0 t0 t1 moves Ht0 Hall.
pose proof (run_drag c x0 y0 t0 moves Ht0 Hall (mousedown x0 y0 t0 st)
              eq_refl eq_refl) as Hg.
unfold gesture in Hg. injection Hg as Hd Ht Hp.
unfold isClick. rewrite Hd, Ht. simpl orb.
rewrite andb_true_iff, !negb_true_iff.
split.
- intros [Hno Hdur]. split.
  + destruct (Qlt_le_dec (t1 - t0) 300) as [H | H]; [exact H |].
    apply Qle_bool_iff in H. congruence.
  + intros now x y h Hin.
    assert (Hm : dragMove x0 y0 (MouseMove false x y h) = false).
    { destruct (dragMove x0 y0 (MouseMove false x y h)) eqn:E;
        [| reflexivity].
      assert (Hex : existsb (fun e => dragMove x0 y0 (snd e)) moves = true).
      { apply existsb_exists. exists (now, MouseMove false x y h).
        split; [exact Hin | exact E]. }
      congruence. }
    cbn [dragMove] in Hm. apply orb_false_iff in Hm. destruct Hm as [Hx Hy].
    apply negb_false_iff in Hx, Hy.
    apply Qle_bool_iff in Hx. apply Qle_bool_iff in Hy. split; assumption.
- intros [Hdur Hmoves]. split.
  + destruct (existsb (fun e => dragMove x0 y0 (snd e)) moves) eqn:E;
      [| reflexivity].
    apply existsb_exists in E. destruct E as [[now e] [Hin He]].
    destruct e as [| a x y h | | |]; cbn [snd dragMove] in He;
      try discriminate.
    destruct a; [discriminate |].
    destruct (Hmoves now x y h Hin) as [Hx Hy].
    apply Qle_bool_iff in Hx. apply Qle_bool_iff in Hy.
    rewrite Hx, Hy in He. discriminate.
  + destruct (Qle_bool 300 (t1 - t0)) eqn:E; [| reflexivity].
    apply Qle_bool_iff in E. lra.
Qed.

Lemma click_iff_no_drag_witness :
  isClick 1100 (run (mkContainer 0 0 800 600) smallMoves
                    (mousedown 100 100 1000 (init 4))) = true.
Proof.
apply (click_iff_no_drag (mkContainer 0 0 800 600) (init 4)
         100 100 1000 1100 smallMoves).
- reflexivity.
- repeat constructor.
- split; [reflexivity |].
  intros now x y h [H | [H | [H | []]]]; inversion H; subst;
    split; discriminate.
Defined.

(** *** The hover scale *)

Lemma nth_error_updateNth_other {A : Type} (f : A -> A) (l : list A)
  (i j : nat) :
  i <> j -> nth_error (Reading.updateNth i f l) j = nth_error l j.
Proof.
revert i j. induction l as [| a l IH]; intros [| i] [| j] H; simpl; auto;
  congruence.
Qed.

Lemma length_updateNth {A : Type} (f : A -> A) (l : list A) (i : nat) :
  List.length (Reading.updateNth i f l) = List.length l.
Proof.
revert i. induction l as [| a l IH]; intros [| i]; simpl; auto.
Qed.

Lemma running_true (now : Q) (tw : scaleTween) :
  running now tw = true <-> now - startTime tw < 200.
Proof.
unfold running.
destruct (Qlt_le_dec (Qmin ((now - startTime tw) / 200) 1) 1) as [L | L].
- split; [intros _ | reflexivity].
  destruct (Qlt_le_dec (now - startTime tw) 200) as [H | H]; [exact H |].
  pose proof (progressOf_done (now - startTime tw) 200 eq_refl H) as Hp.
  unfold progressOf in Hp. lra.
- split; [discriminate |]. intros H.
  destruct (progressOf_running (now - startTime tw) 200 eq_refl H) as [_ Hp].
  unfold progressOf in Hp. lra.
Qed.

Lemma scaleAt_done (now : Q) (tw : scaleTween) :
  running now tw = false -> sameScale (scaleAt tw now) (targetScale tw).
Proof.
intros H.
assert (Hge : 200 <= now - startTime tw).
{ destruct (Qlt_le_dec (now - startTime tw) 200) as [L | L]; [| exact L].
  apply running_true in L. congruence. }
pose proof (progressOf_done (now - startTime tw) 200 eq_refl Hge) as Hp.
unfold progressOf in Hp.
unfold scaleAt, Tween.updateScale, sameScale. cbn [x y z].
rewrite Hp. repeat split; ring.
Qed.

Lemma updateScale_fields (tw : scaleTween) (now : Q) (st : state) :
  rafQueue (updateScale tw now st)
  = rafQueue st ++ (if running now tw then [tw] else [])
  /\ hoveredCard (updateScale tw now st) = hoveredCard st
  /\ scales (updateScale tw now st)
     = Reading.updateNth (object tw) (fun _ => scaleAt tw now) (scales st).
Proof.
unfold updateScale, running.
destruct (Qlt_le_dec (Qmin ((now - startTime tw) / 200) 1) 1); simpl;
  rewrite ?app_nil_r; repeat split; reflexivity.
Qed.

Lemma ticks_spec (now : Q) (q : list scaleTween) :
  forall st : state,
    rafQueue (fold_left (fun st tw => updateScale tw now st) q st)
    = rafQueue st ++ filter (running now) q
    /\ hoveredCard (fold_left (fun st tw => updateScale tw now st) q st)
       = hoveredCard st
    /\ List.length
         (scales (fold_left (fun st tw => updateScale tw now st) q st))
       = List.length (scales st)
    /\ forall i s,
         nth_error (scales st) i = Some s ->
         nth_error
           (scales (fold_left (fun st tw => updateScale tw now st) q st)) i
         = Some match lastTweenOf i q with
                | Some tw => scaleAt tw now
                | None => s
                end.
Proof.
induction q as [| tw q IH]; intros st.
- simpl. rewrite app_nil_r. repeat split; auto.
- simpl fold_left.
  destruct (updateScale_fields tw now st) as [Hq [Hh Hs]].
  destruct (IH (updateScale tw now st)) as [IHq [IHh [IHl IHs]]].
  split; [| split; [| split]].
  + rewrite IHq, Hq, <- app_assoc. simpl filter.
    destruct (running now tw); reflexivity.
  + rewrite IHh. exact Hh.
  + rewrite IHl, Hs. apply length_updateNth.
  + intros i s Hi. simpl lastTweenOf.
    destruct (Nat.eqb (object tw) i) eqn:E.
    * apply Nat.eqb_eq in E.
      assert (H1 : nth_error (scales (updateScale tw now st)) i
                   = Some (scaleAt tw now)).
      { rewrite Hs, <- E, nth_error_updateNth. rewrite E, Hi. reflexivity. }
      rewrite (IHs i _ H1). destruct (lastTweenOf i q); reflexivity.
    * apply Nat.eqb_neq in E.
      assert (H1 : nth_error (scales (updateScale tw now st)) i = Some s).
      { rewrite Hs, nth_error_updateNth_other by exact E. exact Hi. }
      rewrite (IHs i _ H1). destruct (lastTweenOf i q); reflexivity.
Qed.

Lemma lastTweenOf_some (i : nat) (q : list scaleTween) (tw : scaleTween) :
  lastTweenOf i q = Some tw -> In tw q /\ object tw = i.
Proof.
induction q as [| a q IH]; simpl; [discriminate |].
destruct (lastTweenOf i q) as [t |].
- intros H. injection H as ->. destruct (IH eq_refl). tauto.
- destruct (Nat.eqb (object a) i) eqn:E; [| discriminate].
  intros H. injection H as ->. apply Nat.eqb_eq in E. tauto.
Qed.

Lemma lastTweenOf_none (i : nat) (q : list scaleTween) :
  lastTweenOf i q = None <-> (forall tw, In tw q -> object tw <> i).
Proof.
induction q as [| a q IH]; simpl.
- split; [intros _ tw [] | reflexivity].
- destruct (lastTweenOf i q) as [t |].
  + split; [discriminate |]. intros H.
    assert (Hn : Some t = None).
    { apply IH. intros tw Hin. apply H. right. exact Hin. }
    discriminate.
  + destruct (Nat.eqb (object a) i) eqn:E.
    * split; [discriminate |]. intros H. apply Nat.eqb_eq in E.
      exfalso. apply (H a); [left; reflexivity | exact E].
    * split; [| reflexivity]. intros _ tw [<- | Hin].
      -- apply Nat.eqb_neq. exact E.
      -- apply IH; [reflexivity | exact Hin].
Qed.

Lemma lastTweenOf_app (i : nat) (q : list scaleTween) (tw : scaleTween) :
  lastTweenOf i (q ++ [tw])
  = if Nat.eqb (object tw) i then Some tw else lastTweenOf i q.
Proof.
induction q as [| a q IH]; simpl.
- destruct (Nat.eqb (object tw) i); reflexivity.
- rewrite IH. destruct (Nat.eqb (object tw) i); reflexivity.
Qed.

Lemma lastTweenOf_filter_keeps (f : scaleTween -> bool) (i : nat)
  (q : list scaleTween) (tw : scaleTween) :
  lastTweenOf i q = Some tw -> f tw = true ->
  lastTweenOf i (filter f q) = Some tw.
Proof.
intros H Hf. induction q as [| a q IH]; simpl in *; [discriminate |].
destruct (lastTweenOf i q) as [t |] eqn:El.
- injection H as ->. specialize (IH eq_refl).
  destruct (f a); simpl; rewrite IH; reflexivity.
- destruct (Nat.eqb (object a) i) eqn:E; [| discriminate].
  injection H as ->. rewrite Hf. simpl. rewrite E.
  assert (Hn : lastTweenOf i (filter f q) = None).
  { apply lastTweenOf_none. intros tw' Hin. apply filter_In in Hin.
    destruct Hin as [Hin _].
    apply (proj1 (lastTweenOf_none i q) El). exact Hin. }
  rewrite Hn. reflexivity.
Qed.

Lemma lastTweenOf_filter_drops (f : scaleTween -> bool) (i : nat)
  (q : list scaleTween) :
  (forall tw, In tw q -> object tw = i -> f tw = false) ->
  lastTweenOf i (filter f q) = None.
Proof.
intros H. apply lastTweenOf_none. intros tw Hin Ho.
apply filter_In in Hin. destruct Hin as [Hin Hf].
rewrite (H tw Hin Ho) in Hf. discriminate.
Qed.

Lemma sameScale_trans (a b c : vec3) :
  sameScale a b -> sameScale b c -> sameScale a c.
Proof.
unfold sameScale. intros [H1 [H2 H3]] [H4 [H5 H6]].
repeat split; etransitivity; eassumption.
Qed.

Lemma sameScale_refl (a : vec3) : sameScale a a.
Proof. unfold sameScale. repeat split; reflexivity. Qed.

(** A frame keeps the relation between the tweens and the scales. *)
Lemma frame_scale_inv (want : nat -> Q) (t now : Q) (st : state) :
  scale_inv want t st ->
  scale_inv want t (frame now st)
  /\ hoveredCard (frame now st) = hoveredCard st
  /\ List.length (scales (frame now st)) = List.length (scales st)
  /\ rafQueue (frame now st) = filter (running now) (rafQueue st).
Proof.
intros [Hstart Hsc]. unfold frame.
destruct (ticks_spec now (rafQueue st) (setRafQueue [] st))
  as [Hq [Hh [Hl Hs]]].
simpl in Hq, Hh, Hl.
split; [| repeat split; assumption].
split.
- intros tw Hin. rewrite Hq in Hin. apply filter_In in Hin.
  apply Hstart. tauto.
- intros i s' Hi. rewrite Hq.
  assert (Hex : exists s, nth_error (scales st) i = Some s).
  { destruct (nth_error (scales st) i) as [s |] eqn:E; [eauto |].
    apply nth_error_None in E.
    assert (Hlt : (i < List.length (scales st))%nat).
    { rewrite <- Hl. apply nth_error_Some. congruence. }
    lia. }
  destruct Hex as [s Hsi].
  specialize (Hs i s Hsi). simpl in Hs. rewrite Hs in Hi.
  injection Hi as <-.
  specialize (Hsc i s Hsi).
  destruct (lastTweenOf i (rafQueue st)) as [tw |] eqn:El.
  + destruct Hsc as [Htarget Hlast].
    destruct (running now tw) eqn:Er.
    * rewrite (lastTweenOf_filter_keeps _ i _ tw El Er).
      split; [exact Htarget |].
      intros tw' Hin. apply filter_In in Hin. apply Hlast. tauto.
    * rewrite lastTweenOf_filter_drops.
      -- rewrite <- Htarget. apply scaleAt_done. exact Er.
      -- intros tw' Hin Ho.
         destruct (running now tw') eqn:Er'; [| reflexivity].
         apply running_true in Er'.
         specialize (Hlast tw' Hin Ho).
         assert (Hlt : now - startTime tw < 200) by lra.
         apply running_true in Hlt. congruence.
  + rewrite lastTweenOf_filter_drops; [exact Hsc |].
    intros tw' Hin Ho. exfalso.
    exact (proj1 (lastTweenOf_none i _) El tw' Hin Ho).
Qed.

(** [gsapLikeScale] makes its tween the last one of its card. *)
Lemma gsapLikeScale_scale_inv (want : nat -> Q) (t now v : Q) (obj : nat)
  (st : state) :
  scale_inv want t st ->
  t <= now ->
  scale_inv (fun i => if Nat.eqb obj i then v else want i) now
            (gsapLikeScale obj v v v now st)
  /\ hoveredCard (gsapLikeScale obj v v v now st) = hoveredCard st
  /\ List.length (scales (gsapLikeScale obj v v v now st))
     = List.length (scales st).
Proof.
intros [Hstart Hsc] Hle. unfold gsapLikeScale.
destruct (nth_error (scales st) obj) as [s0 |] eqn:E0.
- set (tw := mkScaleTween obj s0 (mkVec3 v v v) now).
  destruct (updateScale_fields tw now st) as [Hq [Hh Hs]].
  assert (Hrun : running now tw = true).
  { apply running_true. simpl. lra. }
  rewrite Hrun in Hq.
  split; [| split; [exact Hh | rewrite Hs; apply length_updateNth]].
  split.
  + intros tw' Hin. rewrite Hq in Hin. apply in_app_or in Hin.
    destruct Hin as [Hin | [<- | []]]; [| simpl; lra].
    specialize (Hstart tw' Hin). lra.
  + intros i s Hi. rewrite Hq, lastTweenOf_app. simpl object.
    destruct (Nat.eqb obj i) eqn:E.
    * split; [reflexivity |].
      intros tw' Hin _. apply in_app_or in Hin.
      destruct Hin as [Hin | [<- | []]]; [| simpl; lra].
      specialize (Hstart tw' Hin). simpl. lra.
    * apply Nat.eqb_neq in E.
      rewrite Hs, nth_error_updateNth_other in Hi by exact E.
      specialize (Hsc i s Hi).
      destruct (lastTweenOf i (rafQueue st)) as [tw0 |]; [| exact Hsc].
      destruct Hsc as [Htarget Hlast]. split; [exact Htarget |].
      intros tw' Hin Ho. apply in_app_or in Hin.
      destruct Hin as [Hin | [<- | []]]; [apply Hlast; assumption |].
      simpl in Ho. contradiction.
- split; [| split; reflexivity].
  split.
  + intros tw Hin. specialize (Hstart tw Hin). lra.
  + intros i s Hi. specialize (Hsc i s Hi).
    assert (Hne : Nat.eqb obj i = false).
    { apply Nat.eqb_neq. intros ->. congruence. }
    rewrite Hne. exact Hsc.
Qed.

Lemma scale_inv_later (want : nat -> Q) (t t' : Q) (st : state) :
  scale_inv want t st -> t <= t' -> scale_inv want t' st.
Proof.
intros [Hstart Hsc] Hle. split; [| exact Hsc].
intros tw Hin. specialize (Hstart tw Hin). lra.
Qed.

Lemma scale_inv_ext (want want' : nat -> Q) (t : Q) (st : state) :
  (forall i, want i = want' i) -> scale_inv want t st -> scale_inv want' t st.
Proof.
intros Hw [Hstart Hsc]. split; [exact Hstart |].
intros i s Hi. specialize (Hsc i s Hi). rewrite <- Hw. exact Hsc.
Qed.

Lemma hover_inv_later (n : nat) (t t' : Q) (st : state) :
  hover_inv n t st -> t <= t' -> hover_inv n t' st.
Proof.
intros [Hl [Hh Hs]] Hle. split; [exact Hl |]. split; [exact Hh |].
exact (scale_inv_later _ t t' st Hs Hle).
Qed.

Lemma hover_inv_fields (n : nat) (t : Q) (st st' : state) :
  scales st' = scales st ->
  rafQueue st' = rafQueue st ->
  hoveredCard st' = hoveredCard st ->
  hover_inv n t st -> hover_inv n t st'.
Proof.
unfold hover_inv, scale_inv, wanted. intros -> -> ->. auto.
Qed.

Lemma resetHover_inv (n : nat) (t now : Q) (st : state) :
  hover_inv n t st -> t <= now ->
  hover_inv n now (resetHover now st)
  /\ hoveredCard (resetHover now st) = None.
Proof.
intros Hinv Hle. pose proof Hinv as [Hl [Hh Hs]]. unfold resetHover.
destruct (hoveredCard st) as [h |] eqn:E.
- destruct (gsapLikeScale_scale_inv (wanted st) t now 1 h st Hs Hle)
    as [Hs' [Hh' Hl']].
  split; [| reflexivity].
  split; [simpl; rewrite Hl'; exact Hl |].
  split; [discriminate |].
  apply (scale_inv_ext (fun i => if Nat.eqb h i then 1 else wanted st i)).
  + intros i. unfold wanted. simpl. rewrite E.
    destruct (Nat.eqb h i); reflexivity.
  + exact Hs'.
- split; [| exact E].
  apply (hover_inv_later n t now); assumption.
Qed.

Lemma hover_enter (n : nat) (t now : Q) (i : nat) (st : state) :
  hover_inv n t st -> t <= now -> (i < n)%nat -> hoveredCard st = None ->
  hover_inv n now
    (gsapLikeScale i (102 # 100) (102 # 100) (102 # 100) now
                   (setHovered (Some i) st)).
Proof.
intros [Hl [Hh Hs]] Hle Hi Hnone.
destruct (gsapLikeScale_scale_inv (wanted st) t now (102 # 100) i
            (setHovered (Some i) st) Hs Hle) as [Hs' [Hh' Hl']].
split; [rewrite Hl'; exact Hl |].
split.
- intros h Hsome. rewrite Hh' in Hsome. simpl in Hsome.
  injection Hsome as <-. exact Hi.
- apply (scale_inv_ext
           (fun j => if Nat.eqb i j then 102 # 100 else wanted st j)).
  + intros j. unfold wanted. rewrite Hh', Hnone. reflexivity.
  + exact Hs'.
Qed.

Lemma hover_hover_inv (n : nat) (t now : Q) (h : hit) (st : state) :
  hover_inv n t st -> t <= now -> validHit n h ->
  hover_inv n now (hover h now st).
Proof.
intros Hinv Hle Hv. destruct h as [| i u | i]; simpl.
- apply (resetHover_inv n t now (setCursor false st)); [| exact Hle].
  apply (hover_inv_fields n t st); auto.
- apply (resetHover_inv n t now (setCursor true st)); [| exact Hle].
  apply (hover_inv_fields n t st); auto.
- assert (H0 : hover_inv n t (setCursor true st)).
  { apply (hover_inv_fields n t st); auto. }
  destruct (hoveredCard st) as [h' |] eqn:E.
  + destruct (Nat.eqb h' i) eqn:Eh.
    * simpl. rewrite E.
      apply (hover_inv_later n t now); assumption.
    * destruct (resetHover_inv n t now (setCursor true st) H0 Hle)
        as [H1 Hnone].
      rewrite Hnone.
      apply (hover_enter n now now i); [exact H1 | lra | exact Hv
                                        | exact Hnone].
  + simpl. rewrite E.
    apply (hover_enter n t now i); assumption.
Qed.

Lemma handle_hover_inv (c : container) (n : nat) (t now : Q) (e : event)
  (st : state) :
  hover_inv n t st -> t <= now -> validEvent n e ->
  hover_inv n (match e with Frame => t | _ => now end)
            (handle c st (now, e)).
Proof.
intros Hinv Hle Hv. unfold handle. simpl fst. simpl snd.
destruct e as [x y | a x y h | a x y h | |].
- apply (hover_inv_fields n now st); auto.
  apply (hover_inv_later n t now); assumption.
- unfold mousemove. destruct a.
  + apply (hover_inv_later n t now); assumption.
  + apply (hover_hover_inv n t now); [| exact Hle | exact Hv].
    apply (hover_inv_fields n t st); auto;
      unfold trackDrag;
      destruct (Qle_bool (mouseDownTime st) 0); try reflexivity;
      destruct (negb _ || negb _); reflexivity.
- apply (hover_inv_fields n now st).
  + unfold mouseup, clickHandler.
    destruct (isClick now st); [| reflexivity].
    destruct a; [reflexivity |]. destruct h as [| i [|] | i]; reflexivity.
  + unfold mouseup, clickHandler.
    destruct (isClick now st); [| reflexivity].
    destruct a; [reflexivity |]. destruct h as [| i [|] | i]; reflexivity.
  + unfold mouseup, clickHandler.
    destruct (isClick now st); [| reflexivity].
    destruct a; [reflexivity |]. destruct h as [| i [|] | i]; reflexivity.
  + apply (hover_inv_later n t now); assumption.
- unfold mouseleave.
  destruct (resetHover_inv n t now st Hinv Hle) as [H1 _].
  apply (hover_inv_fields n now (resetHover now st)); auto.
- destruct Hinv as [Hl [Hh Hs]].
  destruct (frame_scale_inv (wanted st) t now st Hs) as [Hs' [Hh' [Hl' _]]].
  split; [rewrite Hl'; exact Hl |].
  split; [intros h; rewrite Hh'; apply Hh |].
  apply (scale_inv_ext (wanted st)); [| exact Hs'].
  intros i. unfold wanted. rewrite Hh'. reflexivity.
Qed.

Lemma run_hover_inv (c : container) (n : nat) (bound : Q)
  (events : list (Q * event)) :
  forall (st : state) (t tcur : Q),
    hover_inv n t st -> t <= tcur -> t <= bound ->
    ascendingFrom tcur events ->
    (forall now e, In (now, e) events -> e <> Frame -> now <= bound) ->
    Forall (fun e => validEvent n (snd e)) events ->
    exists t', t' <= bound /\ hover_inv n t' (run c events st).
Proof.
induction events as [| [now e] events IH];
  intros st t tcur Hinv Hcur Hb Hasc Hbound Hvalid.
- exists t. split; [exact Hb | exact Hinv].
- destruct Hasc as [Hnow Hasc]. inversion Hvalid as [| ? ? Hv Hvs]; subst.
  assert (Hle : t <= now) by lra.
  pose proof (handle_hover_inv c n t now e st Hinv Hle Hv) as H1.
  unfold run. simpl fold_left. fold (run c events (handle c st (now, e))).
  assert (Ht1 : (match e with Frame => t | _ => now end) <= now
                /\ (match e with Frame => t | _ => now end) <= bound).
  { destruct e; try (split; [lra | apply (Hbound now _ (or_introl eq_refl));
                                     discriminate]).
    split; assumption. }
  destruct Ht1 as [Ha Hb'].
  apply (IH _ _ now H1 Ha Hb' Hasc).
  + intros now' e' Hin. apply Hbound. right. exact Hin.
  + exact Hvs.
Qed.

(** X15. The hover scale settles on the hovered card.  [gsapLikeScale]
    never cancels a tween: when the pointer goes from card to card, the
    tweens of a card that are still running all write its scale at every
    frame.  Yet, whatever the moves, the presses and the frames, the
    first frame that comes 200 ms or more after the last pointer event
    leaves no tween running, the hovered card at scale 1.02 and every
    other card at scale 1. *)
Theorem hover_settles :
  forall (c : container) (n : nat) (events : list (Q * event))
         (t0 final : Q),
    ascendingFrom t0 events ->
    Forall (fun e => validEvent n (snd e)) events ->
    (forall now e, In (now, e) events -> e <> Frame -> now + 200 <= final) ->
    rafQueue (frame final (run c events (init n))) = []
    /\ hoveredCard (frame final (run c events (init n)))
       = hoveredCard (run c events (init n))
    /\ forall i s,
         nth_error (scales (frame final (run c events (init n)))) i = Some s ->
         sameScale s (uniform (wanted (run c events (init n)) i)).
Proof.
intros c n events t0 final Hasc Hvalid Hlast.
assert (Hinit : hover_inv n (Qmin t0 (final - 200)) (init n)).
{ split; [apply repeat_length |]. split; [discriminate |].
  split; [intros tw [] |].
  intros i s Hi. simpl. apply nth_error_In in Hi. apply repeat_spec in Hi.
  subst s. apply sameScale_refl. }
destruct (run_hover_inv c n (final - 200) events (init n)
            (Qmin t0 (final - 200)) t0 Hinit (Q.le_min_l _ _)
            (Q.le_min_r _ _) Hasc)
  as [t' [Hb [Hl [Hh Hs]]]].
{ intros now e Hin Hne. specialize (Hlast now e Hin Hne). lra. }
{ exact Hvalid. }
destruct (frame_scale_inv _ t' final _ Hs) as [[Hstart Hsc] [Hh' [Hl' Hq]]].
assert (Hempty : rafQueue (frame final (run c events (init n))) = []).
{ rewrite Hq.
  destruct (filter (running final) (rafQueue (run c events (init n))))
    as [| tw q] eqn:E; [reflexivity |].
  assert (Hin : In tw (filter (running final)
                              (rafQueue (run c events (init n))))).
  { rewrite E. left. reflexivity. }
  apply filter_In in Hin. destruct Hin as [Hin Hrun].
  apply running_true in Hrun.
  assert (Hst : startTime tw <= t').
  { destruct Hs as [Hs0 _]. apply Hs0. exact Hin. }
  lra. }
split; [exact Hempty |]. split; [exact Hh' |].
intros i s Hi. specialize (Hsc i s Hi). rewrite Hempty in Hsc. exact Hsc.
Qed.

Lemma hover_settles_witness :
  rafQueue (frame 1400 (run (mkContainer 0 0 800 600) hoverTwoCards (init 4)))
  = [].
Proof.
refine (proj1 (hover_settles (mkContainer 0 0 800 600) 4 hoverTwoCards
                             1000 1400 _ _ _)).
- simpl. repeat split; discriminate.
- repeat constructor.
- intros now e Hin Hne. simpl in Hin.
  repeat (destruct Hin as [Hin | Hin];
          [injection Hin as <- <-; try discriminate; try congruence |]).
  contradiction.
Defined.

(** *** The mouse position *)

Lemma ratio_in_unit (a w : Q) :
  0 < w -> 0 <= a -> a <= w ->
  0 <= a / w /\ a / w <= 1 /\ a / w * w == a.
Proof.
intros Hw H0 H1. split; [| split].
- apply Qle_shift_div_l; [exact Hw | lra].
- apply Qle_shift_div_r; [exact Hw | lra].
- field. intros H. rewrite H in Hw. discriminate.
Qed.

(** X16. The mouse position that [clickHandler] hands to the ray caster
    is normalized: for a pointer inside the container, both coordinates
    lie between -1 and 1, [y] pointing up, and the pointer position is
    recovered from them. *)
Theorem click_position_normalized :
  forall (c : container) (st : state) (clientX clientY : Q) (h : hit),
    0 < clientWidth c ->
    0 < clientHeight c ->
    rectLeft c <= clientX /\ clientX <= rectLeft c + clientWidth c ->
    rectTop c <= clientY /\ clientY <= rectTop c + clientHeight c ->
    let m := mouse (snd (clickHandler c false clientX clientY h st)) in
    (-1 <= fst m /\ fst m <= 1)
    /\ (-1 <= snd m /\ snd m <= 1)
    /\ clientX == rectLeft c + (fst m + 1) / 2 * clientWidth c
    /\ clientY == rectTop c + (1 - snd m) / 2 * clientHeight c.
Proof.
intros c st x y h Hw Hh [Hx0 Hx1] [Hy0 Hy1].
assert (Hm : mouse (snd (clickHandler c false x y h st)) = toNDC c x y).
{ unfold clickHandler. destruct h as [| i [|] | i]; reflexivity. }
rewrite Hm. unfold toNDC. cbn [fst snd].
destruct (ratio_in_unit (x - rectLeft c) (clientWidth c) Hw)
  as [Hu0 [Hu1 Hu]]; [lra | lra |].
destruct (ratio_in_unit (y - rectTop c) (clientHeight c) Hh)
  as [Hv0 [Hv1 Hv]]; [lra | lra |].
set (u := (x - rectLeft c) / clientWidth c) in *.
set (v := (y - rectTop c) / clientHeight c) in *.
split; [split; lra |]. split; [split; lra |].
split.
- setoid_replace ((u * 2 - 1 + 1) / 2) with u by field. lra.
- setoid_replace ((1 - (- v * 2 + 1)) / 2) with v by field. lra.
Qed.

Lemma click_position_normalized_witness :
  let m := mouse (snd (clickHandler (mkContainer 10 20 800 600) false
                                    410 320 (CardMesh 1) (init 4))) in
  fst m == 0 /\ snd m == 0.
Proof.
destruct (click_position_normalized (mkContainer 10 20 800 600) (init 4)
            410 320 (CardMesh 1)) as [_ [_ [Hx Hy]]].
- reflexivity.
- reflexivity.
- split; discriminate.
- split; discriminate.
- split; reflexivity.
Defined.
End PointerFacts.

(** ** The sphere of the shuffle cards *)

Section SphereFacts.
Import Sphere.
Local Open Scope R_scope.

Lemma phi_argument (i : nat) :
  (i < numShuffleCards)%nat ->
  -1 <= -1 + (2 * INR i) / INR numShuffleCards <= 1.
Proof.
intros Hi. unfold numShuffleCards in *.
assert (H0 : 0 <= INR i) by apply pos_INR.
assert (H1 : INR i < INR 60) by (apply lt_INR; exact Hi).
assert (H60 : INR 60 = 60) by (simpl; lra).
rewrite H60 in *. lra.
Qed.

(** X17. The shuffle cards are set on a sphere.  Each of the 60 cards of
    [createShuffleAnimation] is at distance 20 from the origin; card [i]
    is at height [-20 + 2 i / 3], so the cards climb from the south pole,
    none reaches the north pole, and no two cards are at the same
    place. *)
Theorem shuffle_cards_on_sphere :
  forall i : nat,
    (i < numShuffleCards)%nat ->
    lengthSq (position i) = radius * radius
    /\ snd (fst (position i)) = -20 + 2 * INR i / 3
    /\ snd (fst (position i)) < 20
    /\ forall j : nat,
         (j < numShuffleCards)%nat -> position j = position i -> j = i.
Proof.
intros i Hi.
assert (Hy : forall k, (k < numShuffleCards)%nat ->
                       snd (fst (position k)) = -20 + 2 * INR k / 3).
{ intros k Hk. unfold position, phi, radius. cbn [fst snd].
  rewrite cos_acos by (apply phi_argument; exact Hk).
  unfold numShuffleCards. replace (INR 60) with 60 by (simpl; lra). lra. }
split; [| split; [| split]].
- unfold lengthSq, position.
  pose proof (sin2_cos2 (phi i)) as Hp.
  pose proof (sin2_cos2 (theta i)) as Ht.
  unfold Rsqr in Hp, Ht.
  set (sp := sin (phi i)) in *. set (cp := cos (phi i)) in *.
  set (st := sin (theta i)) in *. set (ct := cos (theta i)) in *.
  replace (radius * sp * ct * (radius * sp * ct) + radius * cp * (radius * cp)
           + radius * sp * st * (radius * sp * st))
    with (radius * radius * (sp * sp * (st * st + ct * ct) + cp * cp))
    by ring.
  rewrite Ht. replace (sp * sp * 1 + cp * cp) with 1 by lra. ring.
- apply Hy. exact Hi.
- rewrite (Hy i Hi).
  assert (H1 : INR i < INR 60) by (apply lt_INR; exact Hi).
  replace (INR 60) with 60 in H1 by (simpl; lra). lra.
- intros j Hj Heq.
  assert (H : snd (fst (position j)) = snd (fst (position i)))
    by (rewrite Heq; reflexivity).
  rewrite (Hy j Hj), (Hy i Hi) in H.
  apply INR_eq. lra.
Qed.

Lemma shuffle_cards_on_sphere_witness :
  lengthSq (position 30) = radius * radius
  /\ snd (fst (position 30)) = 0.
Proof.
destruct (shuffle_cards_on_sphere 30) as [H1 [H2 _]].
- unfold numShuffleCards. lia.
- split; [exact H1 |]. rewrite H2. simpl. lra.
Defined.
End SphereFacts.

(** ** The flip-back of a reset *)

Section FlipBackFacts.
Import Reading Flip FlipBack.
Local Open Scope Q_scope.





















(** *** A promise that stays pending

    The flip-back of card [i] is not resolved by the tick of another
    card, nor by its own tick before 600 ms have elapsed. *)










(** *** A fetch that settles after the reset *)











End FlipBackFacts.

(** ** The phases of the cosmic shuffle *)

Section ShuffleFacts.
Import Shuffle.
Local Open Scope Q_scope.

Lemma appearAnimation_running (t0 now : Q) (st : state) :
  now - t0 < 3000 ->
  exists v,
    appearAnimation t0 now st
    = requestAnimationFrame (AppearTick t0) (setScale v st).
Proof.
intros H.
destruct (progressOf_running (now - t0) 3000 eq_refl H) as [_ Hp].
unfold Tween.progressOf in Hp. unfold appearAnimation.
destruct (Qlt_le_dec (Qmin ((now - t0) / 3000) 1) 1) as [L | L]; [| lra].
eexists. reflexivity.
Qed.

Lemma appearAnimation_done (t0 now : Q) (st : state) :
  3000 <= now - t0 ->
  exists v,
    v == 1 /\ appearAnimation t0 now st = setTimeout (now + 300) (setScale v st).
Proof.
intros H.
pose proof (progressOf_done (now - t0) 3000 eq_refl H) as Hp.
unfold Tween.progressOf in Hp. unfold appearAnimation.
set (p := Qmin ((now - t0) / 3000) 1) in *.
destruct (Qlt_le_dec p 1) as [L | L]; [lra |].
eexists. split; [| reflexivity]. rewrite Hp. reflexivity.
Qed.

Lemma moveToPosition_running (i : nat) (start : Q) (total : nat) (now : Q)
  (st : state) :
  now - start < 600 ->
  moveToPosition i start total now st
  = requestAnimationFrame (MoveTick i start total) st.
Proof.
intros H.
destruct (progressOf_running (now - start) 600 eq_refl H) as [_ Hp].
unfold Tween.progressOf in Hp. unfold moveToPosition.
destruct (Qlt_le_dec (Qmin ((now - start) / 600) 1) 1) as [L | L]; [| lra].
reflexivity.
Qed.

Lemma moveToPosition_done (i : nat) (start : Q) (total : nat) (now : Q)
  (st : state) :
  600 <= now - start ->
  moveToPosition i start total now st
  = let st := setAnimationsComplete (S (animationsComplete st)) st in
    if (total <=? animationsComplete st)%nat
    then showUIElements
           (setAnimating false (setShuffleCards 0 (createCards st)))
    else st.
Proof.
intros H.
pose proof (progressOf_done (now - start) 600 eq_refl H) as Hp.
unfold Tween.progressOf in Hp. unfold moveToPosition.
destruct (Qlt_le_dec (Qmin ((now - start) / 600) 1) 1) as [L | L]; [lra |].
reflexivity.
Qed.

Lemma setRafQueue_same (st : state) : setRafQueue (rafQueue st) st = st.
Proof. destruct st. reflexivity. Qed.

Lemma setRafQueue_twice (q q' : list tick) (st : state) :
  setRafQueue q' (setRafQueue q st) = setRafQueue q' st.
Proof. reflexivity. Qed.

(** A flip to the back or a fly-away at a frame: it asks for the next
    frame or it is over, and it is over 800 ms after the selection. *)
Lemma leftover_step (start now : Q) (t : tick) (st : state) :
  leftover start t ->
  (runTick now st t = requestAnimationFrame t st \/ runTick now st t = st)
  /\ (start + 800 <= now -> runTick now st t = st).
Proof.
destruct t as [a | s | d s | i s n]; simpl; try contradiction.
- intros ->. unfold updateFlip.
  destruct (Qlt_le_dec (Qmin ((now - start) / 800) 1) 1) as [L | L].
  + split; [left; reflexivity |]. intros Hlate. exfalso.
    assert (H800 : 800 <= now - start) by lra.
    pose proof (progressOf_done (now - start) 800 eq_refl H800) as Hp.
    unfold Tween.progressOf in Hp. lra.
  + split; [right; reflexivity | reflexivity].
- intros [-> [Hd0 Hd]]. unfold flyAway.
  destruct (Qlt_le_dec (Qmin ((now - start) / d) 1) 1) as [L | L].
  + split; [left; reflexivity |]. intros Hlate. exfalso.
    assert (Hge : d <= now - start) by lra.
    pose proof (progressOf_done (now - start) d Hd0 Hge) as Hp.
    unfold Tween.progressOf in Hp. lra.
  + split; [right; reflexivity | reflexivity].
Qed.

Lemma leftovers_fold (start now : Q) (l : list tick) :
  Forall (leftover start) l ->
  forall st : state,
    exists l',
      fold_left (runTick now) l st = setRafQueue (rafQueue st ++ l') st
      /\ Forall (leftover start) l'
      /\ (start + 800 <= now -> l' = []).
Proof.
induction 1 as [| t l Ht _ IH]; intros st.
- exists []. simpl. rewrite app_nil_r, setRafQueue_same.
  repeat split. constructor.
- simpl fold_left.
  destruct (leftover_step start now t st Ht) as [[E | E] Hlate].
  + destruct (Qlt_le_dec now (start + 800)) as [Hn | Hn].
    * rewrite E.
      destruct (IH (requestAnimationFrame t st)) as [l' [H1 [H2 H3]]].
      exists (t :: l'). rewrite H1. unfold requestAnimationFrame.
      rewrite setRafQueue_twice. simpl rafQueue. rewrite <- app_assoc.
      split; [reflexivity |]. split; [constructor; assumption |].
      intros Hl. lra.
    * rewrite (Hlate Hn). apply IH.
  + rewrite E. apply IH.
Qed.

(** The flips to the back that the selection starts. *)
Lemma flips_start (due : Q) (l : list nat) :
  forall st : state,
    exists others,
      fold_left (fun st _ => animateCardFlipToBack due st) l st
      = setRafQueue (rafQueue st ++ others) st
      /\ Forall (leftover due) others.
Proof.
induction l as [| j l IH]; intros st.
- exists []. simpl. rewrite app_nil_r, setRafQueue_same.
  split; [reflexivity | constructor].
- simpl fold_left.
  assert (E : animateCardFlipToBack due st
              = requestAnimationFrame (FlipToBackTick due) st).
  { unfold animateCardFlipToBack, updateFlip.
    assert (Hrun : due - due < 800) by lra.
    destruct (progressOf_running (due - due) 800 eq_refl Hrun) as [_ Hp].
    unfold Tween.progressOf in Hp.
    destruct (Qlt_le_dec (Qmin ((due - due) / 800) 1) 1) as [L | L]; [| lra].
    reflexivity. }
  rewrite E.
  destruct (IH (requestAnimationFrame (FlipToBackTick due) st))
    as [others [H1 H2]].
  exists (FlipToBackTick due :: others). rewrite H1.
  unfold requestAnimationFrame. rewrite setRafQueue_twice. simpl rafQueue.
  rewrite <- app_assoc. split; [reflexivity |].
  constructor; [reflexivity | exact H2].
Qed.

(** The fly-aways that the selection starts. *)
Lemma flyAways_start (due : Q) (l : list nat) :
  forall st : state,
    randomInRange st ->
    exists others,
      fold_left (fun st j => flyAwayCard j due st) l st
      = setRafQueue (rafQueue st ++ others) st
      /\ Forall (leftover due) others.
Proof.
induction l as [| j l IH]; intros st Hr.
- exists []. simpl. rewrite app_nil_r, setRafQueue_same.
  split; [reflexivity | constructor].
- simpl fold_left.
  destruct (Hr j) as [Hr0 Hr1].
  assert (Hd : 0 < 500 + random st j * 200) by lra.
  assert (E : flyAwayCard j due st
              = requestAnimationFrame
                  (FlyAwayTick (500 + random st j * 200) due) st).
  { unfold flyAwayCard, flyAway.
    assert (Hrun : due - due < 500 + random st j * 200) by lra.
    destruct (progressOf_running (due - due) _ Hd Hrun) as [_ Hp].
    unfold Tween.progressOf in Hp.
    destruct (Qlt_le_dec (Qmin ((due - due) / (500 + random st j * 200)) 1) 1)
      as [L | L]; [| lra].
    reflexivity. }
  rewrite E.
  destruct (IH (requestAnimationFrame
                  (FlyAwayTick (500 + random st j * 200) due) st))
    as [others [H1 H2]]; [exact Hr |].
  exists (FlyAwayTick (500 + random st j * 200) due :: others). rewrite H1.
  unfold requestAnimationFrame. rewrite setRafQueue_twice. simpl rafQueue.
  rewrite <- app_assoc. split; [reflexivity |].
  constructor; [| exact H2].
  simpl. split; [reflexivity |]. split; lra.
Qed.

(** The selection starts the flips, the fly-aways and the four moves. *)
Lemma selectAndPlaceFourCards_starts (due : Q) (st : state) :
  (4 <= shuffleCards st)%nat ->
  randomInRange st ->
  exists others,
    selectAndPlaceFourCards due st
    = mkState (animating st) (shuffleCards st) (cardMeshes st) (scale st)
              0 (uiVisible st) (rafQueue st ++ others ++ moveTicks due)
              (timers st) (random st)
    /\ Forall (leftover due) others.
Proof.
intros H Hr. unfold selectAndPlaceFourCards.
replace (Nat.min 4 (shuffleCards st)) with 4%nat by lia.
destruct (flips_start due (seq 0 4) st) as [flips [E1 F1]].
rewrite E1.
change (shuffleCards (setRafQueue (rafQueue st ++ flips) st))
  with (shuffleCards st).
destruct (flyAways_start due (seq 0 (shuffleCards st - 4))
            (setRafQueue (rafQueue st ++ flips) st) Hr)
  as [flies [E2 F2]].
rewrite E2. rewrite setRafQueue_twice. simpl rafQueue.
exists (flips ++ flies). split; [| apply Forall_app; split; assumption].
unfold moveSelectedCardsToPosition. simpl fold_left.
assert (Hrun : due - due < 600) by lra.
rewrite !(moveToPosition_running _ due 4 due _ Hrun).
unfold requestAnimationFrame, setRafQueue, setAnimationsComplete, moveTicks.
simpl. rewrite <- !app_assoc. reflexivity.
Qed.

(** The four moves at a frame: all go on, or all end and the last one
    hands over to [createCards]. *)
Lemma moveTicks_frame (start now : Q) (a : bool) (s c : nat) (sc : Q)
  (ui : bool) (q : list tick) (ts : list Q) (rnd : nat -> Q) :
  moveToPosition 3 start 4 now
    (moveToPosition 2 start 4 now
       (moveToPosition 1 start 4 now
          (moveToPosition 0 start 4 now (mkState a s c sc 0 ui q ts rnd))))
  = if Qlt_le_dec (now - start) 600
    then mkState a s c sc 0 ui (q ++ moveTicks start) ts rnd
    else mkState false 0 (c + 4) sc 4 true q ts rnd.
Proof.
destruct (Qlt_le_dec (now - start) 600) as [H | H].
- rewrite !(moveToPosition_running _ start 4 now _ H).
  unfold requestAnimationFrame, setRafQueue, moveTicks. simpl.
  rewrite <- !app_assoc. reflexivity.
- rewrite !(moveToPosition_done _ start 4 now _ H). reflexivity.
Qed.

(** A frame while the cards move, or right when they are selected. *)
Lemma moving_frame (t0 : Q) (k0 : nat) (ok : Q -> Prop) (seen : list Q)
  (start now : Q) (a : bool) (s : nat) (sc : Q) (ui : bool)
  (others : list tick) (rnd : nat -> Q) :
  Forall (leftover start) others ->
  t0 + 3300 <= start -> ok start -> start <= now \/ now - start < 600 ->
  let st' := fold_left (runTick now) (others ++ moveTicks start)
                       (mkState true s k0 sc 0 ui [] [] rnd) in
  phase_inv t0 k0 ok (seen ++ [now]) st'
  /\ (start + 600 <= now -> animating st' = false)
  /\ (start + 800 <= now -> rafQueue st' = []).
Proof.
intros Hothers Hstart Hok Hord st'. unfold st'. clear st'.
rewrite fold_left_app.
destruct (leftovers_fold start now others Hothers
            (mkState true s k0 sc 0 ui [] [] rnd)) as [l' [E [Hl' Hnil]]].
rewrite E. unfold setRafQueue. simpl.
rewrite moveTicks_frame.
destruct (Qlt_le_dec (now - start) 600) as [H | H].
- split; [| split; intros Hlate; lra].
  apply (Moving t0 k0 ok _ _ start l'); simpl; auto.
- split; [| split; [reflexivity | exact Hnil]].
  apply (Done t0 k0 ok _ _ start); simpl; auto.
  apply Exists_app. right. constructor. lra.
Qed.

Lemma frame_phase (t0 : Q) (k0 : nat) (ok : Q -> Prop) (seen : list Q)
  (st : state) (now : Q) :
  phase_inv t0 k0 ok seen st ->
  Exists (fun f => t0 + 3000 <= f) seen \/ ok (now + 300) ->
  phase_inv t0 k0 ok (seen ++ [now]) (frame st now)
  /\ (Exists (fun f => t0 + 3000 <= f) seen ->
      (forall d, ok d -> d + 600 <= now) ->
      animating (frame st now) = false)
  /\ (Exists (fun f => t0 + 3000 <= f) seen ->
      (forall d, ok d -> d + 800 <= now) ->
      rafQueue (frame st now) = []).
Proof.
intros Hinv Hok.
destruct st as [a s c sc ac ui q ts rnd].
destruct Hinv as [Ha Hc Hs Hq Ht Hrnd Hseen
                 | due Ha Hc Hs Hq Ht Hrnd Hdue Hokd Hsc
                 | start others Ha Hc Hq Hothers Ht Hac Hstart Hoks
                 | start Ha Hc Hs Hui Hq Ht Hseen Hstart Hoks];
  simpl in *; subst.
- (* appearing *)
  assert (Hnot : ~ Exists (fun f => t0 + 3000 <= f) seen).
  { intros Hex. apply Exists_exists in Hex. destruct Hex as [f [Hin Hf]].
    rewrite Forall_forall in Hseen. specialize (Hseen f Hin). lra. }
  unfold frame, fireTimers. simpl.
  destruct (Qlt_le_dec (now - t0) 3000) as [H | H].
  + destruct (appearAnimation_running t0 now
                (setRafQueue [] (setTimers []
                   (mkState true s k0 sc ac ui [AppearTick t0] [] rnd))) H)
      as [v ->].
    split; [| split; intros Hex; contradiction].
    apply Appearing; simpl; auto.
    apply Forall_app. split; [exact Hseen |].
    constructor; [lra | constructor].
  + destruct (appearAnimation_done t0 now
                (setRafQueue [] (setTimers []
                   (mkState true s k0 sc ac ui [AppearTick t0] [] rnd))) H)
      as [v [Hv ->]].
    split; [| split; intros Hex; contradiction].
    apply (Waiting t0 k0 ok _ _ (now + 300)); simpl; auto; [lra |].
    destruct Hok as [Hex | Hok]; [contradiction | exact Hok].
- (* waiting *)
  unfold frame, fireTimers. simpl.
  destruct (Qle_bool due now) eqn:Edue; simpl.
  + apply Qle_bool_iff in Edue.
    destruct (selectAndPlaceFourCards_starts due
                (setTimers [] (mkState true s k0 sc ac ui [] [due] rnd)))
      as [others [E Hothers]]; [exact Hs | exact Hrnd |].
    rewrite E. simpl.
    destruct (moving_frame t0 k0 ok seen due now true s sc ui others rnd
                Hothers Hdue Hokd (or_introl Edue)) as [H1 [H2 H3]].
    unfold setRafQueue. simpl.
    split; [exact H1 |].
    split; intros _ Hlate; specialize (Hlate due Hokd);
      [apply H2 | apply H3]; lra.
  + assert (Hlt : ~ due <= now).
    { intros Hle. apply Qle_bool_iff in Hle. congruence. }
    split; [| split; intros _ Hlate; specialize (Hlate due Hokd); lra].
    apply (Waiting t0 k0 ok _ _ due); simpl; auto.
- (* moving *)
  unfold frame, fireTimers. simpl.
  destruct (Qlt_le_dec (now - start) 600) as [Hn | Hn].
  + destruct (moving_frame t0 k0 ok seen start now true s sc ui others rnd
                Hothers Hstart Hoks (or_intror Hn)) as [H1 [H2 H3]].
    unfold setRafQueue, setTimers. simpl.
    split; [exact H1 |].
    split; intros _ Hlate; specialize (Hlate start Hoks);
      [apply H2 | apply H3]; lra.
  + assert (Hle : start <= now) by lra.
    destruct (moving_frame t0 k0 ok seen start now true s sc ui others rnd
                Hothers Hstart Hoks (or_introl Hle)) as [H1 [H2 H3]].
    unfold setRafQueue, setTimers. simpl.
    split; [exact H1 |].
    split; intros _ Hlate; specialize (Hlate start Hoks);
      [apply H2 | apply H3]; lra.
- (* done *)
  unfold frame, fireTimers. simpl.
  destruct (leftovers_fold start now q Hq
              (setRafQueue [] (setTimers []
                 (mkState false 0 (k0 + 4) sc ac true q [] rnd))))
    as [l' [E [Hl' Hnil]]].
  rewrite E. unfold setRafQueue, setTimers. simpl.
  split; [| split; [reflexivity |]].
  + apply (Done t0 k0 ok _ _ start); simpl; auto.
    apply Exists_app. left. exact Hseen.
  + intros _ Hlate. specialize (Hlate start Hoks). apply Hnil. lra.
Qed.

Lemma createShuffleAnimation_phase (t0 : Q) (ok : Q -> Prop) (st0 : state) :
  rafQueue st0 = [] -> timers st0 = [] -> randomInRange st0 ->
  phase_inv t0 (cardMeshes st0) ok [] (createShuffleAnimation t0 st0).
Proof.
intros Hq Ht Hr. unfold createShuffleAnimation, animateCosmicShuffle.
assert (Hrun : t0 - t0 < 3000) by lra.
destruct (appearAnimation_running t0 t0
            (setAnimating true
               (setShuffleCards (shuffleCards st0 + 60) st0)) Hrun)
  as [v ->].
apply Appearing; simpl; auto; [lia | rewrite Hq; reflexivity].
Qed.

Lemma frames_phase (t0 : Q) (k0 : nat) (ok : Q -> Prop) (frames : list Q) :
  forall (seen : list Q) (st : state),
    phase_inv t0 k0 ok seen st ->
    Forall (fun now => Exists (fun f => t0 + 3000 <= f) seen
                       \/ ok (now + 300)) frames ->
    phase_inv t0 k0 ok (seen ++ frames) (run frames st).
Proof.
induction frames as [| now frames IH]; intros seen st Hinv Hok.
- rewrite app_nil_r. exact Hinv.
- inversion Hok as [| ? ? Hnow Hrest]; subst.
  unfold run. simpl fold_left. fold (run frames (frame st now)).
  replace (seen ++ now :: frames) with ((seen ++ [now]) ++ frames)
    by (rewrite <- app_assoc; reflexivity).
  apply IH; [exact (proj1 (frame_phase t0 k0 ok seen st now Hinv Hnow)) |].
  apply Forall_forall. intros f Hf. rewrite Forall_forall in Hrest.
  destruct (Hrest f Hf) as [Hex | Hokf]; [left | right; exact Hokf].
  apply Exists_app. left. exact Hex.
Qed.

(** X19. The shuffle hands over to the cards once.  From
    [createShuffleAnimation] on, and whatever the times of the frames,
    either [animating] is true and no card has been added to
    [cardMeshes], or the shuffle has handed over: [createCards] has run
    once (four cards more), [shuffleCards] is empty, the flag is down, the
    UI is shown, no selection is scheduled, the only ticks that may still
    ask for frames are the flips to the back and the fly-aways that the
    selection started, and a frame has come 3900 ms or more after the
    start (3000 ms to appear, 300 ms of pause, 600 ms to move). *)
Theorem shuffle_hands_over_once :
  forall (st0 : state) (t0 : Q) (frames : list Q),
    rafQueue st0 = [] ->
    timers st0 = [] ->
    randomInRange st0 ->
    (animating (run frames (createShuffleAnimation t0 st0)) = true
     /\ cardMeshes (run frames (createShuffleAnimation t0 st0))
        = cardMeshes st0)
    \/ (animating (run frames (createShuffleAnimation t0 st0)) = false
        /\ cardMeshes (run frames (createShuffleAnimation t0 st0))
           = (cardMeshes st0 + 4)%nat
        /\ shuffleCards (run frames (createShuffleAnimation t0 st0)) = 0%nat
        /\ uiVisible (run frames (createShuffleAnimation t0 st0)) = true
        /\ (exists start,
              t0 + 3300 <= start
              /\ Forall (leftover start)
                        (rafQueue
                           (run frames (createShuffleAnimation t0 st0))))
        /\ timers (run frames (createShuffleAnimation t0 st0)) = []
        /\ Exists (fun now => t0 + 3900 <= now) frames).
Proof.
intros st0 t0 frames Hq Ht Hr.
pose proof (frames_phase t0 (cardMeshes st0) (fun _ => True) frames []
              (createShuffleAnimation t0 st0)
              (createShuffleAnimation_phase t0 _ st0 Hq Ht Hr)) as Hinv.
simpl in Hinv.
destruct Hinv as [Ha Hc Hs Hq' Ht' Hrnd Hseen
                 | due Ha Hc Hs Hq' Ht' Hrnd Hdue Hokd Hsc
                 | start others Ha Hc Hq' Hothers Ht' Hac Hstart Hoks
                 | start Ha Hc Hs Hui Hq' Ht' Hseen Hstart Hoks].
- apply Forall_forall. intros f _. right. exact I.
- left. split; assumption.
- left. split; assumption.
- left. split; assumption.
- right. split; [exact Ha |]. split; [exact Hc |]. split; [exact Hs |].
  split; [exact Hui |]. split; [exists start; split; assumption |].
  split; assumption.
Qed.

Lemma shuffle_hands_over_once_witness :
  animating (run [1000; 3000; 3300; 3900] (createShuffleAnimation 0 init))
  = false
  /\ cardMeshes (run [1000; 3000; 3300; 3900] (createShuffleAnimation 0 init))
     = 4%nat.
Proof.
destruct (shuffle_hands_over_once init 0 [1000; 3000; 3300; 3900])
  as [[Ha _] | [Ha [Hc _]]].
- reflexivity.
- reflexivity.
- intros j. split; [discriminate | reflexivity].
- vm_compute in Ha. discriminate.
- split; [exact Ha | exact Hc].
Defined.



(** X21. The shuffle that a reset starts runs with the flag down.  The
    [then] of the refetch calls [createShuffleAnimation], which raises
    [animating], and lowers it in the next statement: while the shuffle
    cards appear, for 3000 ms, [animating] is false, and
    [resetTarotReading] is not held back by its guard. *)
Theorem reset_shuffle_runs_unguarded :
  forall (st0 : state) (now : Q) (frames : list Q),
    rafQueue st0 = [] ->
    timers st0 = [] ->
    Forall (fun f => f < now + 3000) frames ->
    animating (run frames (afterRefetch true now st0)) = false
    /\ rafQueue (run frames (afterRefetch true now st0)) = [AppearTick now]
    /\ cardMeshes (run frames (afterRefetch true now st0)) = cardMeshes st0.
Proof.
intros st0 now frames Hq Ht Hall.
assert (H0 : animating (afterRefetch true now st0) = false
             /\ rafQueue (afterRefetch true now st0) = [AppearTick now]
             /\ cardMeshes (afterRefetch true now st0) = cardMeshes st0
             /\ timers (afterRefetch true now st0) = []).
{ unfold afterRefetch, createShuffleAnimation, animateCosmicShuffle.
  assert (Hrun : now - now < 3000) by lra.
  destruct (appearAnimation_running now now
              (setAnimating true
                 (setShuffleCards (shuffleCards st0 + 60) st0)) Hrun)
    as [v ->].
  simpl. rewrite Hq, Ht. repeat split; reflexivity. }
revert H0. generalize (afterRefetch true now st0) as st.
induction Hall as [| f frames Hf _ IH]; intros st [Ha [Hraf [Hc Htm]]].
- simpl. repeat split; assumption.
- unfold run. simpl fold_left. fold (run frames (frame st f)).
  apply IH.
  destruct st as [a s c sc ac ui q ts rnd]. simpl in *. subst.
  unfold frame, fireTimers. simpl.
  assert (Hrun : f - now < 3000) by lra.
  destruct (appearAnimation_running now f
              (setRafQueue [] (setTimers []
                 (mkState false s (cardMeshes st0) sc ac ui [AppearTick now]
                          [] rnd))) Hrun)
    as [v ->].
  simpl. repeat split; reflexivity.
Qed.

Lemma reset_shuffle_runs_unguarded_witness :
  animating (run [16; 1000; 2999] (afterRefetch true 0 init)) = false.
Proof.
refine (proj1 (reset_shuffle_runs_unguarded init 0 [16; 1000; 2999] _ _ _)).
- reflexivity.
- reflexivity.
- repeat constructor.
Defined.
End ShuffleFacts.

(** ** The children of a card group *)

Section ChildrenFacts.
Import Children.

Lemma forEachRemove_out (marked : child -> bool) (remaining : nat) :
  forall (k : nat) (children : list child),
    (List.length children <= k)%nat ->
    forEachRemove marked remaining k children = children.
Proof.
induction remaining as [| r IH]; intros k children Hk; simpl; [reflexivity |].
assert (Hnone : nth_error children k = None) by (apply nth_error_None; lia).
rewrite Hnone. apply IH. lia.
Qed.

Lemma removeNth_middle {A : Type} (pre : list A) (c : A) (rest : list A) :
  Reading.removeNth (List.length pre) (pre ++ c :: rest) = pre ++ rest.
Proof.
induction pre as [| a pre IH]; simpl; [reflexivity |].
rewrite IH. reflexivity.
Qed.

Lemma nth_error_middle {A : Type} (pre : list A) (c : A) (rest : list A) :
  nth_error (pre ++ c :: rest) (List.length pre) = Some c.
Proof. induction pre as [| a pre IH]; simpl; auto. Qed.

Lemma forEachRemove_skipping (marked : child -> bool) (remaining : nat) :
  forall (pre rest : list child),
    (List.length rest <= remaining)%nat ->
    forEachRemove marked remaining (List.length pre) (pre ++ rest)
    = pre ++ skipping marked rest.
Proof.
induction remaining as [| r IH]; intros pre rest Hlen.
- destruct rest; [reflexivity | simpl in Hlen; lia].
- destruct rest as [| c rest].
  + simpl skipping. apply forEachRemove_out. rewrite app_nil_r. lia.
  + simpl forEachRemove. rewrite nth_error_middle. simpl skipping.
    simpl in Hlen.
    destruct (marked c).
    * rewrite removeNth_middle.
      destruct rest as [| d rest].
      -- apply forEachRemove_out. rewrite app_nil_r. lia.
      -- replace (pre ++ d :: rest) with ((pre ++ [d]) ++ rest)
           by (rewrite <- app_assoc; reflexivity).
         replace (S (List.length pre)) with (List.length (pre ++ [d]))
           by (rewrite length_app; simpl; lia).
         rewrite IH by (simpl in Hlen; lia).
         rewrite <- app_assoc. reflexivity.
    * replace (pre ++ c :: rest) with ((pre ++ [c]) ++ rest)
        by (rewrite <- app_assoc; reflexivity).
      replace (S (List.length pre)) with (List.length (pre ++ [c]))
        by (rewrite length_app; simpl; lia).
      rewrite IH by lia.
      rewrite <- app_assoc. reflexivity.
Qed.

Lemma cleanup_skipping (marked : child -> bool) (children : list child) :
  cleanup marked children = skipping marked children.
Proof.
unfold cleanup.
exact (forEachRemove_skipping marked (List.length children) [] children
         (le_n _)).
Qed.

Lemma skipping_unmarked (marked : child -> bool) (pre rest : list child) :
  Forall (fun c => marked c = false) pre ->
  skipping marked (pre ++ rest) = pre ++ skipping marked rest.
Proof.
induction 1 as [| c pre Hc _ IH]; simpl; [reflexivity |].
rewrite Hc, IH. reflexivity.
Qed.

(** X22. The clean-up of the children skips the child after each one it
    removes.  The first child to be removed is taken out, the child that
    follows it stays, whatever it is, and the loop goes on behind it: a
    link indicator that follows a label survives the clean-up of
    [createLabelForCard]. *)
Theorem cleanup_skips_next :
  forall (marked : child -> bool) (pre : list child) (c d : child)
         (post : list child),
    Forall (fun a => marked a = false) pre ->
    marked c = true ->
    cleanup marked (pre ++ c :: d :: post) = pre ++ d :: cleanup marked post.
Proof.
intros marked pre c d post Hpre Hc.
rewrite !cleanup_skipping, (skipping_unmarked marked pre _ Hpre).
simpl. rewrite Hc. reflexivity.
Qed.

Lemma cleanup_skips_next_witness :
  createLabelForCard "Present" (Some 12%nat)
                     [CardFace; TextLabel "Past"; LinkIcon 11]
  = [CardFace; LinkIcon 11; TextLabel "Present"; LinkIcon 12].
Proof.
unfold createLabelForCard.
change [CardFace; TextLabel "Past"; LinkIcon 11]
  with ([CardFace] ++ TextLabel "Past" :: LinkIcon 11 :: []).
rewrite (cleanup_skips_next isLabelOrLink [CardFace] (TextLabel "Past")
                            (LinkIcon 11) []).
- reflexivity.
- repeat constructor.
- reflexivity.
Defined.
End ChildrenFacts.
(** ** The fly-away *)

Section FlyAwayFacts.
Import Easing Tween FlyAway.
Local Open Scope Q_scope.

(** X23. The cards that are not kept fly to a box below the table.  For
    random values in [0, 1) the flight takes between 500 and 700 ms, its
    target has [x] and [z] between -15 and 15 and [y] between -15 and -10,
    and the tick removes the card exactly when the duration has elapsed.
    The bounds are closed because the doubles of the program reach them:
    with the largest random value the duration is 700.0 and the target's
    [y] is -15.0.  The tick that removes the card writes the scale
    0.19999999999999996, whatever the positions, and it can leave the
    card an ulp off its target. *)
Theorem fly_away_ends_in_box :
  (forall r rx ry rz elapsed : Q,
     (0 <= r /\ r < 1) -> (0 <= rx /\ rx < 1) ->
     (0 <= ry /\ ry < 1) -> (0 <= rz /\ rz < 1) ->
     0 <= elapsed ->
     (500 <= Cull.flyDuration r /\ Cull.flyDuration r <= 700)
     /\ (-15 <= x (targetPos rx ry rz) /\ x (targetPos rx ry rz) <= 15)
     /\ (-15 <= y (targetPos rx ry rz) /\ y (targetPos rx ry rz) <= -10)
     /\ (-15 <= z (targetPos rx ry rz) /\ z (targetPos rx ry rz) <= 15)
     /\ (removed (Cull.flyDuration r) elapsed = true <->
         Cull.flyDuration r <= elapsed))
  /\ InDoubles.flyDuration 0 = 500%float
  /\ InDoubles.flyDuration InDoubles.lastRandom = 700%float
  /\ InDoubles.targetPos 0 0 0
     = InDoubles.mkPosition (-15)%float (-10)%float (-15)%float
  /\ InDoubles.targetPos InDoubles.lastRandom InDoubles.lastRandom
                         InDoubles.lastRandom
     = InDoubles.mkPosition 14.999999999999996%float (-15)%float
                            14.999999999999996%float
  /\ (forall startPos target : InDoubles.position,
        snd (InDoubles.flyAwayAt startPos target 1%float)
        = 0.19999999999999996%float)
  /\ (forall startPos target : InDoubles.position,
        InDoubles.flyAway startPos target 600%float 600%float
        = (InDoubles.flyAwayAt startPos target 1%float, true)
        /\ snd (InDoubles.flyAway startPos target 600%float 599%float) = false)
  /\ InDoubles.x
       (fst (InDoubles.flyAwayAt
               (InDoubles.mkPosition (-1.6000000000000005)%float 0%float 0%float)
               (InDoubles.targetPos 0.75%float 0.5%float 0.5%float) 1%float))
     = 7.500000000000001%float
  /\ InDoubles.x (InDoubles.targetPos 0.75%float 0.5%float 0.5%float)
     = 7.5%float.
Proof.
split.
- intros r rx ry rz elapsed [Hr0 Hr1] [Hx0 Hx1] [Hy0 Hy1] [Hz0 Hz1] He.
  assert (Hd : 500 <= Cull.flyDuration r /\ Cull.flyDuration r <= 700)
    by (unfold Cull.flyDuration; split; lra).
  destruct Hd as [Hd0 Hd1].
  assert (Hpos : 0 < Cull.flyDuration r) by lra.
  set (d := Cull.flyDuration r) in *.
  split; [split; assumption |].
  split; [unfold targetPos; simpl; split; lra |].
  split; [unfold targetPos; simpl; split; lra |].
  split; [unfold targetPos; simpl; split; lra |].
  unfold removed.
  destruct (Qlt_le_dec (Qmin (elapsed / d) 1) 1) as [L | L].
  + split; [discriminate |]. intros Hge.
    pose proof (progressOf_done elapsed d Hpos Hge) as Hp.
    unfold progressOf in Hp. lra.
  + split; [intros _ | reflexivity].
    destruct (Qlt_le_dec elapsed d) as [H | H]; [| exact H].
    destruct (progressOf_running elapsed d Hpos H) as [_ Hlt].
    unfold progressOf in Hlt. lra.
- repeat split; try (vm_compute; reflexivity).
Qed.

Lemma fly_away_ends_in_box_witness :
  500 <= Cull.flyDuration (1 # 2) /\ Cull.flyDuration (1 # 2) <= 700.
Proof.
refine (proj1 (proj1 fly_away_ends_in_box (1 # 2) (1 # 4) (1 # 2) (3 # 4)
                 600 _ _ _ _ _));
  try (split; [discriminate | reflexivity]); discriminate.
Defined.
End FlyAwayFacts.
